(** * Qoot quiz server: the session engine of [server.js]

    A shallow embedding of the socket handlers and game-logic functions of
    [src/server.js] (the in-memory session registry, the players map of a
    session, the interval and timeout callbacks), and the properties of the
    session lifecycle stated over it.

    Modelling conventions.
    - JavaScript numbers that the server handles (scores, seconds, option
      indices) are integers here ([Z]); the one division, in [endQuestion],
      is carried out in exact rationals ([Q]) and rounded with [Math_round].
      A time limit that is not a whole number of seconds is outside the
      model: with a limit of 5.5 the clock of the server ends at -0.5.
    - The payload of a socket event has its documented type: session ids
      and player names are strings, an answer index is an integer, a time
      limit is an integer or absent, and the questions of a session are
      records [{ question, options, correctIndex }].  What [player:join]
      does with any other payload is [player_join_payload].
    - A [Map] whose iteration order is observable ([session.players]) is an
      insertion-ordered association list ([JsMap]); maps that are only
      looked up (the [sessions] registry, the timer table, the per-socket
      fields) are [gmap]s.
    - Session objects are shared between the registry and the timer
      closures: they live in a [store] and are referred to by their id; the
      registry only records which ids the [sessions] Map still has.
    - A handler or callback that ends with an uncaught [TypeError] yields
      [None]: the exception is caught nowhere, the run ends there.  A
      callback whose session is not in the store yields [None] as well; the
      store never loses an object, so no run gets there.
    - The timers of the runtime are a table of tasks; the event
      [ev_timer h] is the callback of the task with handle [h] coming due.
      Any active task may come due next: the real order of the timers is
      one of the orders covered. *)

From Stdlib Require Import ZArith QArith Qround Ascii String List Permutation Sorted.
From stdpp Require Import base option list strings gmap.

Local Open Scope Z_scope.

(** ** Data model *)

(** [status: 'lobby' | 'playing' | 'finished'] *)
Inductive Status := lobby | playing | finished.

#[global] Instance Status_eq_dec : EqDecision Status.
Proof. solve_decision. Defined.

(** [{ question: string, options: string[], correctIndex: number }] *)
Record Question := mkQuestion {
  question : string;
  options : list string;
  correctIndex : Z
}.

(** A player record.  [currentAnswer] and [answerTime] are [null] or a
    number; the record literal of [player:join] leaves [answerTime] out, and
    that absent field is [None] here as well. *)
Record Player := mkPlayer {
  name : string;
  score : Z;
  currentAnswer : option Z;
  answerTime : option Z
}.

(** *** The players [Map]: insertion-ordered, keyed by socket id *)

Definition JsMap (V : Type) := list (string * V).

Section JsMap.
Context {V : Type}.

Definition Map_get (k : string) (m : JsMap V) : option V :=
  snd <$> List.find (λ e, String.eqb (fst e) k) m.

(** [m.set(k, v)]: an existing key keeps its position, a new key goes
    last. *)
Fixpoint Map_set (k : string) (v : V) (m : JsMap V) : JsMap V :=
  match m with
  | [] => [(k, v)]
  | (k', v') :: m' =>
      if String.eqb k' k then (k, v) :: m' else (k', v') :: Map_set k v m'
  end.

Definition Map_delete (k : string) (m : JsMap V) : JsMap V :=
  List.filter (λ e, negb (String.eqb (fst e) k)) m.

Definition Map_values (m : JsMap V) : list V := List.map snd m.
Definition Map_entries (m : JsMap V) : list (string * V) := m.
Definition Map_size (m : JsMap V) : nat := length m.
End JsMap.

(** The session object of the registry (the comment block at the top of
    [server.js], plus the [timeLimit] field that [host:start] adds).
    [session_id] is the field [id], [quizName] the field [name]; [timer] is
    the handle of the question interval. *)
Record Session := mkSession {
  session_id : string;
  quizName : string;
  hostSocketId : option string;
  questions : list Question;
  players : JsMap Player;
  status : Status;
  currentQuestionIndex : nat;
  timer : option nat;
  timeLeft : Z;
  timeLimit : option Z
}.

Definition set_hostSocketId (v : option string) (s : Session) : Session :=
  mkSession (session_id s) (quizName s) v (questions s) (players s) (status s)
            (currentQuestionIndex s) (timer s) (timeLeft s) (timeLimit s).
Definition set_players (v : JsMap Player) (s : Session) : Session :=
  mkSession (session_id s) (quizName s) (hostSocketId s) (questions s) v (status s)
            (currentQuestionIndex s) (timer s) (timeLeft s) (timeLimit s).
Definition set_status (v : Status) (s : Session) : Session :=
  mkSession (session_id s) (quizName s) (hostSocketId s) (questions s) (players s) v
            (currentQuestionIndex s) (timer s) (timeLeft s) (timeLimit s).
Definition set_currentQuestionIndex (v : nat) (s : Session) : Session :=
  mkSession (session_id s) (quizName s) (hostSocketId s) (questions s) (players s)
            (status s) v (timer s) (timeLeft s) (timeLimit s).
Definition set_timer (v : option nat) (s : Session) : Session :=
  mkSession (session_id s) (quizName s) (hostSocketId s) (questions s) (players s)
            (status s) (currentQuestionIndex s) v (timeLeft s) (timeLimit s).
Definition set_timeLeft (v : Z) (s : Session) : Session :=
  mkSession (session_id s) (quizName s) (hostSocketId s) (questions s) (players s)
            (status s) (currentQuestionIndex s) (timer s) v (timeLimit s).
Definition set_timeLimit (v : option Z) (s : Session) : Session :=
  mkSession (session_id s) (quizName s) (hostSocketId s) (questions s) (players s)
            (status s) (currentQuestionIndex s) (timer s) (timeLeft s) v.

(** ** Scoring ([endQuestion], the loop over the players) *)

Definition MAX_POINTS : Z := 1000.
Definition MIN_POINTS : Z := 500.

(** [Math.round]: the nearest integer, halves rounded up. *)
Definition Math_round (x : Q) : Z := Qfloor (x + (1 # 2))%Q.

(** [session.timeLimit || 30]: an absent field and [0] are both falsy. *)
Definition TIME_LIMIT (s : Session) : Z :=
  match timeLimit s with
  | Some l => if l =? 0 then 30 else l
  | None => 30
  end.

(** [player.currentAnswer === question.correctIndex] *)
Definition isCorrect (q : Question) (p : Player) : bool :=
  bool_decide (currentAnswer p = Some (correctIndex q)).

(** The value of [pointsEarned] at the end of one loop iteration. *)
Definition pointsEarned (q : Question) (TIME_LIMIT : Z) (p : Player) : Z :=
  match isCorrect q p, answerTime p with
  | true, Some t =>
      let timeBonus :=
        ((inject_Z t / inject_Z TIME_LIMIT) * inject_Z (MAX_POINTS - MIN_POINTS))%Q in
      Math_round (inject_Z MIN_POINTS + timeBonus)%Q
  | _, _ => 0
  end.

(** ** Messages sent by the server *)

(** The [message] of an ['error'] event:
    ['Session not found'], ['Quiz has already started'], the name-taken
    message, ['Not authorized'], ['Need at least one player']. *)
Inductive ErrorMessage :=
  | Session_not_found
  | Quiz_has_already_started
  | Name_already_taken
  | Not_authorized
  | Need_at_least_one_player.

(** [{ name: p.name, score: p.score }] *)
Record RosterEntry := mkRoster {
  roster_name : string;
  roster_score : Z
}.

(** One element of [results] in [endQuestion]. *)
Record ResultEntry := mkResult {
  result_name : string;
  result_answer : option Z;
  result_isCorrect : bool;
  result_pointsEarned : Z;
  result_totalScore : Z;
  result_answerTime : option Z
}.

(** One element of [podium] in [endQuiz]. *)
Record PodiumEntry := mkPodium {
  position : nat;
  podium_name : string;
  podium_score : Z
}.

(** An element of the array [answerStats]: a number, [NaN] (the result of
    incrementing [undefined]) or a hole left by a write past the end. *)
Inductive Cell := num (n : Z) | NaN | hole.

Inductive Payload :=
  | error (message : ErrorMessage)
  | host_session (id name : string) (qs : list Question)
                 (ps : list RosterEntry) (st : Status)
  | lobby_players (name : string) (ps : list RosterEntry)
  | quiz_question (questionNumber totalQuestions : nat) (text : string)
                  (opts : list string) (limit : Z) (totalPlayers : nat)
  | host_correctAnswer (correct : Z)
  | quiz_timer (seconds : Z)
  | host_answerCount (answered total : nat)
  | host_answerStats (stats : list Cell)
  | quiz_results (correct : Z) (correctAnswer : option string)
                 (playerResults : list ResultEntry)
  | quiz_countdown (seconds : Z) (isLastQuestion : bool)
  | quiz_finished (podium : list PodiumEntry) (allResults : list RosterEntry)
  | session_ended.

(** [io.to(room).emit(...)] and [socket.emit(...)].  The argument of
    [io.to] can be [session.hostSocketId], which is [null] before a host
    binds. *)
Inductive Dest :=
  | io_to (room : option string)
  | socket_emit (socketId : string).

(** ** Timers and the server state *)

(** The three kinds of pending callbacks, with what their closure holds:
    the question interval of [sendQuestion], the interval of [endQuestion]
    that counts down to the next question (with its local [countdownLeft]
    and [isLastQuestion]), and the clean-up timeout of [endQuiz]. *)
Inductive Task :=
  | question_interval (session : string)
  | countdown_interval (session : string) (countdownLeft : Z) (isLastQuestion : bool)
  | cleanup_timeout (session : string).

(** The fields the handlers attach to a socket. *)
Record Socket := mkSocket {
  socket_sessionId : option string;
  socket_isHost : bool
}.

Record World := mkWorld {
  sessions : gset string;        (* keys of the [sessions] Map *)
  store : gmap string Session;   (* the session objects, by id *)
  sockets : gmap string Socket;
  tasks : gmap nat Task;         (* active intervals and timeouts, by handle *)
  next_handle : nat;
  emitted : list (Dest * Payload)  (* oldest first *)
}.

Definition set_sessions (v : gset string) (w : World) : World :=
  mkWorld v (store w) (sockets w) (tasks w) (next_handle w) (emitted w).
Definition set_store (v : gmap string Session) (w : World) : World :=
  mkWorld (sessions w) v (sockets w) (tasks w) (next_handle w) (emitted w).
Definition set_sockets (v : gmap string Socket) (w : World) : World :=
  mkWorld (sessions w) (store w) v (tasks w) (next_handle w) (emitted w).
Definition set_tasks (v : gmap nat Task) (w : World) : World :=
  mkWorld (sessions w) (store w) (sockets w) v (next_handle w) (emitted w).
Definition set_next_handle (v : nat) (w : World) : World :=
  mkWorld (sessions w) (store w) (sockets w) (tasks w) v (emitted w).

Definition emit (d : Dest) (p : Payload) (w : World) : World :=
  mkWorld (sessions w) (store w) (sockets w) (tasks w) (next_handle w)
          (emitted w ++ [(d, p)]).

(** [sessions.get(k)]; [k] is [undefined] when the socket never joined. *)
Definition sessions_get (k : option string) (w : World) : option Session :=
  match k with
  | Some k => if decide (k ∈ sessions w) then store w !! k else None
  | None => None
  end.

(** Writes through a reference to a session object. *)
Definition put_session (k : string) (s : Session) (w : World) : World :=
  set_store (<[k := s]> (store w)) w.

(** [setInterval] / [setTimeout]: registers the callback, returns its handle. *)
Definition schedule (t : Task) (w : World) : nat * World :=
  let h := next_handle w in
  (h, set_next_handle (S h) (set_tasks (<[h := t]> (tasks w)) w)).

(** [clearInterval(h)]; clearing [null] does nothing. *)
Definition clearInterval (h : option nat) (w : World) : World :=
  match h with
  | Some h => set_tasks (delete h (tasks w)) w
  | None => w
  end.

Definition getSocket (c : string) (w : World) : Socket :=
  default (mkSocket None false) (sockets w !! c).

(** The session object that [POST /api/session] and [POST /api/import]
    put into the registry. *)
Definition newSession (sessionId sanitizedName : string) (qs : list Question) : Session :=
  mkSession sessionId sanitizedName None qs [] lobby 0 None 0 None.

Definition createSession (sessionId sanitizedName : string) (qs : list Question)
    (w : World) : World :=
  set_sessions ({[ sessionId ]} ∪ sessions w)
    (put_session sessionId (newSession sessionId sanitizedName qs) w).

Definition emptyWorld : World := mkWorld ∅ ∅ ∅ ∅ 0%nat [].

(** ** Array helpers *)

(** [a[i]] for a numeric index: [undefined] outside the array. *)
Definition Array_at {A} (a : list A) (i : Z) : option A :=
  if i <? 0 then None else a !! Z.to_nat i.

(** [a.sort(cmp)]: the sort of the language is stable, and puts [x] after
    [y] only when [cmp x y > 0].  It is run here as an insertion sort from
    the right. *)
Section Array_sort.
Context {A : Type} (cmp : A → A → Z).

Fixpoint sort_insert (x : A) (l : list A) : list A :=
  match l with
  | [] => [x]
  | y :: l' => if 0 <? cmp x y then y :: sort_insert x l' else x :: y :: l'
  end.

Definition Array_sort (l : list A) : list A := foldr sort_insert [] l.
End Array_sort.

(** [a[i]++] on an array of counters.  Inside the array the counter goes
    up; past the end the array grows, the skipped places stay holes and the
    place written holds [undefined + 1], that is [NaN]; a negative [i] names
    a property that is not an element, so the elements stay as they are.
    (An index of 2^32 - 1 or more names such a property as well; the model
    lets the array grow there, and the array is misshapen either way.) *)
Definition Array_increment (i : Z) (a : list Cell) : list Cell :=
  if i <? 0 then a
  else
    let n := Z.to_nat i in
    match a !! n with
    | Some (num k) => <[n := num (k + 1)]> a
    | Some NaN => a
    | Some hole => <[n := NaN]> a
    | None => a ++ replicate (n - length a)%nat hole ++ [NaN]
    end.

(** ** Game logic functions *)

(** The loop that opens [sendQuestion] and closes [host:start]. *)
Definition resetAnswer (p : Player) : Player :=
  mkPlayer (name p) (score p) None None.

Definition resetAnswers (m : JsMap Player) : JsMap Player :=
  List.map (λ e, (fst e, resetAnswer (snd e))) m.

Definition roster (m : JsMap Player) : list RosterEntry :=
  List.map (λ p, mkRoster (name p) (score p)) (Map_values m).

(** [sendQuestion(session)].  Reading [question.question] of a missing
    question throws. *)
Definition sendQuestion (sid : string) (w : World) : option World :=
  session ← store w !! sid;
  let session := set_players (resetAnswers (players session)) session in
  q ← questions session !! currentQuestionIndex session;
  let questionNumber := (currentQuestionIndex session + 1)%nat in
  let totalQuestions := length (questions session) in
  let limit := TIME_LIMIT session in
  let w := emit (io_to (Some (session_id session)))
                (quiz_question questionNumber totalQuestions (question q) (options q)
                               limit (Map_size (players session))) w in
  let w := emit (io_to (hostSocketId session)) (host_correctAnswer (correctIndex q)) w in
  let session := set_timeLeft limit session in
  let '(h, w) := schedule (question_interval sid) w in
  Some (put_session sid (set_timer (Some h) session) w).

(** One iteration of the scoring loop of [endQuestion]: the player after
    [player.score += pointsEarned], and the record pushed on [results]. *)
Definition scorePlayer (q : Question) (limit : Z) (p : Player) : Player :=
  mkPlayer (name p) (score p + pointsEarned q limit p) (currentAnswer p) (answerTime p).

Definition resultOf (q : Question) (limit : Z) (p : Player) : ResultEntry :=
  mkResult (name p) (currentAnswer p) (isCorrect q p) (pointsEarned q limit p)
           (score p + pointsEarned q limit p) (answerTime p).

Definition questionResults (q : Question) (limit : Z) (m : JsMap Player) : list ResultEntry :=
  List.map (resultOf q limit) (Map_values m).

(** [endQuestion(session)].  Reading [question.correctIndex] of a missing
    question throws before anything is changed. *)
Definition endQuestion (sid : string) (w : World) : option World :=
  session ← store w !! sid;
  q ← questions session !! currentQuestionIndex session;
  let limit := TIME_LIMIT session in
  let results := questionResults q limit (players session) in
  let session :=
    set_players (List.map (λ e, (fst e, scorePlayer q limit (snd e))) (players session))
                session in
  let results := Array_sort (λ a b, result_totalScore b - result_totalScore a) results in
  let w := emit (io_to (Some (session_id session)))
                (quiz_results (correctIndex q) (Array_at (options q) (correctIndex q))
                              results) w in
  let session := set_currentQuestionIndex (S (currentQuestionIndex session)) session in
  let isLastQuestion :=
    bool_decide (length (questions session) ≤ currentQuestionIndex session)%nat in
  let '(_, w) := schedule (countdown_interval sid 5 isLastQuestion) w in
  Some (put_session sid session w).

(** The standings and the podium of [endQuiz]. *)
Definition finalStandings (m : JsMap Player) : list RosterEntry :=
  Array_sort (λ a b, roster_score b - roster_score a) (roster m).

Definition podiumOf (standings : list RosterEntry) : list PodiumEntry :=
  imap (λ index player, mkPodium (index + 1)%nat (roster_name player) (roster_score player))
       (take 3 standings).

(** [endQuiz(session)] *)
Definition endQuiz (sid : string) (w : World) : option World :=
  session ← store w !! sid;
  let session := set_status finished session in
  let standings := finalStandings (players session) in
  let podium := podiumOf standings in
  let w := emit (io_to (Some (session_id session))) (quiz_finished podium standings) w in
  let '(_, w) := schedule (cleanup_timeout (session_id session)) w in
  Some (put_session sid session w).

(** ** Timer callbacks *)

(** The callback of the interval started by [sendQuestion]. *)
Definition question_tick (sid : string) (w : World) : option World :=
  session ← store w !! sid;
  let session := set_timeLeft (timeLeft session - 1) session in
  let w := emit (io_to (Some (session_id session))) (quiz_timer (timeLeft session)) w in
  if timeLeft session <=? 0 then
    let w := clearInterval (timer session) w in
    let session := set_timer None session in
    endQuestion sid (put_session sid session w)
  else Some (put_session sid session w).

(** The callback of the interval started by [endQuestion]; [h] is its own
    handle [countdownInterval]. *)
Definition countdown_tick (h : nat) (sid : string) (countdownLeft : Z)
    (isLastQuestion : bool) (w : World) : option World :=
  session ← store w !! sid;
  let w := emit (io_to (Some (session_id session)))
                (quiz_countdown countdownLeft isLastQuestion) w in
  let countdownLeft := countdownLeft - 1 in
  if countdownLeft <? 0 then
    let w := clearInterval (Some h) w in
    if isLastQuestion then endQuiz sid w
    else if decide (status session = playing) then sendQuestion sid w
    else Some w
  else Some (set_tasks (<[h := countdown_interval sid countdownLeft isLastQuestion]> (tasks w)) w).

(** The callback of the timeout set by [endQuiz]; a timeout runs once. *)
Definition cleanup_fire (h : nat) (id : string) (w : World) : option World :=
  let w := set_tasks (delete h (tasks w)) w in
  if decide (id ∈ sessions w) then Some (set_sessions (sessions w ∖ {[ id ]}) w)
  else Some w.

(** The timer with handle [h] comes due.  A handle that is not active
    (never set, or cleared) has no callback to run. *)
Definition fire (h : nat) (w : World) : option World :=
  match tasks w !! h with
  | None => Some w
  | Some (question_interval sid) => question_tick sid w
  | Some (countdown_interval sid n isLast) => countdown_tick h sid n isLast w
  | Some (cleanup_timeout id) => cleanup_fire h id w
  end.

(** ** Socket event handlers *)

(** [String.prototype.toLowerCase], which the join handler uses to compare
    names.  The handlers are written over any such function; [ascii_lower]
    is the instance for names in ASCII. *)
Class CaseFold := toLowerCase : string → string.

Definition ascii_toLower (a : ascii) : ascii :=
  let n := nat_of_ascii a in
  if ((65 <=? n) && (n <=? 90))%nat then ascii_of_nat (n + 32) else a.

Fixpoint string_toLower (s : string) : string :=
  match s with
  | EmptyString => EmptyString
  | String a s' => String (ascii_toLower a) (string_toLower s')
  end.

#[global] Instance ascii_lower : CaseFold := string_toLower.

(** What the join handlers do to the socket: [socket.sessionId = sessionId;
    socket.isHost = ...]. *)
Definition bind_socket (c sessionId : string) (host : bool) (w : World) : World :=
  set_sockets (<[c := mkSocket (Some sessionId) host]> (sockets w)) w.

(** [socket.on('host:join', (sessionId) => ...)] *)
Definition host_join (c sessionId : string) (w : World) : option World :=
  match sessions_get (Some sessionId) w with
  | None => Some (emit (socket_emit c) (error Session_not_found) w)
  | Some session =>
      let session := set_hostSocketId (Some c) session in
      let w := bind_socket c sessionId true (put_session sessionId session w) in
      Some (emit (socket_emit c)
                 (host_session (session_id session) (quizName session) (questions session)
                               (roster (players session)) (status session)) w)
  end.

(** The common tail of the join handler: the players map is in place, the
    socket is tagged, the roster goes to the room. *)
Definition joined (c sessionId : string) (session : Session) (ps : JsMap Player)
    (w : World) : World :=
  let session := set_players ps session in
  let w := bind_socket c sessionId false (put_session sessionId session w) in
  emit (io_to (Some sessionId))
       (lobby_players (quizName session) (roster (players session))) w.

Section Join.
Context `{CaseFold}.

(** [p.name.toLowerCase() === playerName.toLowerCase()] *)
Definition sameName (playerName : string) (p : Player) : bool :=
  String.eqb (toLowerCase (name p)) (toLowerCase playerName).

(** [existingNames] of the duplicate check. *)
Definition existingNames (m : JsMap Player) : list string :=
  List.map (λ p, toLowerCase (name p)) (Map_values m).

(** [socket.on('player:join', ({ sessionId, playerName }) => ...)] *)
Definition player_join (c sessionId playerName : string) (w : World) : option World :=
  match sessions_get (Some sessionId) w with
  | None => Some (emit (socket_emit c) (error Session_not_found) w)
  | Some session =>
      let existingPlayer := List.find (sameName playerName) (Map_values (players session)) in
      let isReconnect := bool_decide (is_Some existingPlayer) in
      if negb (bool_decide (status session = lobby)) && negb isReconnect then
        Some (emit (socket_emit c) (error Quiz_has_already_started) w)
      else if negb isReconnect then
        if bool_decide (toLowerCase playerName ∈ existingNames (players session)) then
          Some (emit (socket_emit c) (error Name_already_taken) w)
        else
          Some (joined c sessionId session
                       (Map_set c (mkPlayer playerName 0 None None) (players session)) w)
      else
        (* [entries.find(...)[0]] throws when nothing is found *)
        e ← List.find (λ e, sameName playerName (snd e)) (Map_entries (players session));
        let oldSocketId := fst e in
        playerData ← Map_get oldSocketId (players session);
        Some (joined c sessionId session
                     (Map_set c playerData (Map_delete oldSocketId (players session))) w)
  end.
End Join.

(** The payload of [host:start]: [data?.timeLimit], absent or a number. *)
Definition requestedLimit (data : option Z) : Z :=
  match data with
  | Some l => if l =? 0 then 30 else l   (* [data?.timeLimit || 30] *)
  | None => 30
  end.

Definition clampLimit (l : Z) : Z := Z.min (Z.max l 5) 120.

(** [socket.on('host:start', (data) => ...)] *)
Definition host_start (c : string) (data : option Z) (w : World) : option World :=
  let unauthorized := Some (emit (socket_emit c) (error Not_authorized) w) in
  let sessionId := socket_sessionId (getSocket c w) in
  match sessionId, sessions_get sessionId w with
  | Some sid, Some session =>
      if negb (bool_decide (hostSocketId session = Some c)) then unauthorized
      else if bool_decide (Map_size (players session) = 0%nat) then
        Some (emit (socket_emit c) (error Need_at_least_one_player) w)
      else
        let session := set_timeLimit (Some (clampLimit (requestedLimit data))) session in
        let session := set_status playing session in
        let session := set_currentQuestionIndex 0 session in
        let session := set_players (resetAnswers (players session)) session in
        sendQuestion sid (put_session sid session w)
  | _, _ => unauthorized
  end.

(** What [player:answer] does to the player object. *)
Definition recordAnswer (timeLeft answerIndex : Z) (p : Player) : Player :=
  let t := match currentAnswer p with
           | None => Some timeLeft
           | Some _ => answerTime p
           end in
  mkPlayer (name p) (score p) (Some answerIndex) t.

Definition answeredCount (m : JsMap Player) : nat :=
  length (List.filter (λ p, bool_decide (is_Some (currentAnswer p))) (Map_values m)).

(** The array [answerStats] after the loop over the players. *)
Definition answerStats (m : JsMap Player) : list Cell :=
  foldl (λ stats p,
           match currentAnswer p with
           | Some i => Array_increment i stats
           | None => stats
           end)
        [num 0; num 0; num 0; num 0] (Map_values m).

(** [socket.on('player:answer', (answerIndex) => ...)] *)
Definition player_answer (c : string) (answerIndex : Z) (w : World) : option World :=
  let sessionId := socket_sessionId (getSocket c w) in
  match sessionId, sessions_get sessionId w with
  | Some sid, Some session =>
      if negb (bool_decide (status session = playing)) then Some w
      else
        match Map_get c (players session) with
        | None => Some w
        | Some player =>
            let player := recordAnswer (timeLeft session) answerIndex player in
            let session := set_players (Map_set c player (players session)) session in
            let w := put_session sid session w in
            let w := emit (io_to sessionId)
                          (host_answerCount (answeredCount (players session))
                                            (Map_size (players session))) w in
            Some (emit (io_to (hostSocketId session))
                       (host_answerStats (answerStats (players session))) w)
        end
  | _, _ => Some w
  end.

(** [socket.on('host:skip', () => ...)] *)
Definition host_skip (c : string) (w : World) : option World :=
  let sessionId := socket_sessionId (getSocket c w) in
  match sessionId, sessions_get sessionId w with
  | Some sid, Some session =>
      if negb (bool_decide (hostSocketId session = Some c)) then Some w
      else
        let w :=
          match timer session with
          | Some h => put_session sid (set_timer None session) (clearInterval (Some h) w)
          | None => w
          end in
        endQuestion sid w
  | _, _ => Some w
  end.

(** [socket.on('disconnect', () => ...)]; the socket itself is gone
    afterwards. *)
Definition disconnect (c : string) (w : World) : option World :=
  let sock := getSocket c w in
  let sessionId := socket_sessionId sock in
  let w := set_sockets (delete c (sockets w)) w in
  match sessionId, sessions_get sessionId w with
  | Some sid, Some session =>
      if socket_isHost sock then
        let w := clearInterval (timer session) w in
        let w := emit (io_to sessionId) session_ended w in
        Some (set_sessions (sessions w ∖ {[ sid ]}) w)
      else
        let session := set_players (Map_delete c (players session)) session in
        let w := put_session sid session w in
        Some (emit (io_to sessionId)
                   (lobby_players (quizName session) (roster (players session))) w)
  | _, _ => Some w
  end.

(** ** The server as a transition system *)

Inductive Event :=
  | ev_host_join (socket sessionId : string)
  | ev_player_join (socket sessionId playerName : string)
  | ev_host_start (socket : string) (timeLimit : option Z)
  | ev_player_answer (socket : string) (answerIndex : Z)
  | ev_host_skip (socket : string)
  | ev_disconnect (socket : string)
  | ev_timer (handle : nat).

Section Run.
Context `{CaseFold}.

Definition step (w : World) (e : Event) : option World :=
  match e with
  | ev_host_join c sid => host_join c sid w
  | ev_player_join c sid n => player_join c sid n w
  | ev_host_start c d => host_start c d w
  | ev_player_answer c a => player_answer c a w
  | ev_host_skip c => host_skip c w
  | ev_disconnect c => disconnect c w
  | ev_timer h => fire h w
  end.

(** The events are handled one at a time, each to completion; an
    uncaught exception ends the run. *)
Fixpoint run (es : list Event) (w : World) : option World :=
  match es with
  | [] => Some w
  | e :: es' => w' ← step w e; run es' w'
  end.
End Run.

(** ** Vocabulary of the properties *)

(** Sorted by descending key. *)
Definition descending {A : Type} (key : A → Z) (l : list A) : Prop :=
  StronglySorted (λ a b, key b ≤ key a) l.

(** A JavaScript [Map] holds each key once. *)
Definition Map_wf {V : Type} (m : JsMap V) : Prop := NoDup (List.map fst m).

(** The option indices currently selected, in the order of the players
    map. *)
Definition selections (m : JsMap Player) : list Z :=
  omap currentAnswer (Map_values m).

(** How many times [i] occurs among the indices [idxs]. *)
Definition cnt (i : Z) (idxs : list Z) : Z :=
  Z.of_nat (length (List.filter (Z.eqb i) idxs)).

(** How many players currently select option [i]. *)
Definition selected (i : Z) (m : JsMap Player) : Z := cnt i (selections m).

(** The loop that fills [answerStats], over the selected indices. *)
Definition tallyOf (idxs : list Z) (stats : list Cell) : list Cell :=
  foldl (λ st i, Array_increment i st) stats idxs.

(** A well-formed tally: four counters, one per option, that together
    account for every player who has answered. *)
Definition tally_wellformed (m : JsMap Player) (stats : list Cell) : Prop :=
  stats = [num (selected 0 m); num (selected 1 m); num (selected 2 m); num (selected 3 m)]
  ∧ selected 0 m + selected 1 m + selected 2 m + selected 3 m
    = Z.of_nat (answeredCount m).

(** The option a socket has selected after the submissions in [es], having
    selected [a] before them. *)
Definition lastAnswer (c : string) (a : Z) (es : list Event) : Z :=
  foldl (λ acc e,
           match e with
           | ev_player_answer c' b => if String.eqb c' c then b else acc
           | _ => acc
           end) a es.

(** How often the timer [h] comes due in [es]. *)
Definition ticks (h : nat) (es : list Event) : nat :=
  length (List.filter (λ e, match e with
                            | ev_timer h' => Nat.eqb h' h
                            | _ => false
                            end) es).

(** The events of one running question: answer submissions (of any
    socket) and ticks of the question timer [h]. *)
Definition submission_or_tick (h : nat) (e : Event) : Prop :=
  match e with
  | ev_player_answer _ _ => True
  | ev_timer h' => h' = h
  | _ => False
  end.


(** ** Sample sessions *)

Definition q1 : Question := mkQuestion "2+2?" ["3"; "4"; "5"; "6"] 1.
Definition q2 : Question := mkQuestion "3+3?" ["6"; "4"; "5"; "7"] 0.
Definition q3 : Question := mkQuestion "1+1?" ["0"; "1"; "2"; "3"] 2.

(** The world an event sequence leads to; the unchanged world when the
    sequence ends in an uncaught exception. *)
Definition after (es : list Event) (w : World) : World := default w (run es w).

Definition sessionOf (sid : string) (w : World) : Session :=
  default (newSession sid "" []) (store w !! sid).

(** A session with three questions, as [POST /api/session] registers it. *)
Definition lobbyWorld : World := createSession "s1" "Quiz" [q1; q2; q3] emptyWorld.

(** The host and two players have joined. *)
Definition opening : list Event :=
  [ev_host_join "h" "s1"; ev_player_join "a" "s1" "Ann"; ev_player_join "b" "s1" "Bob"].

Definition readyWorld : World := after opening lobbyWorld.

(** A session in which Ann has answered the first question correctly with
    8 of 10 seconds left. *)
Definition scoringWorld : World :=
  put_session "s1"
    (set_players [("a", mkPlayer "Ann" 0 (Some 1) (Some 8))]%string
       (set_timeLimit (Some 10) (newSession "s1" "Quiz" [q1])))
    emptyWorld.

(** ** Countdown tasks *)

(** The question timer and the countdown to the next question of a
    session. *)
Definition isCountdownOf (sid : string) (t : Task) : bool :=
  match t with
  | question_interval s => String.eqb s sid
  | countdown_interval s _ _ => String.eqb s sid
  | cleanup_timeout _ => false
  end.

(** The handles of the countdown tasks of a session that are active. *)
Definition activeCountdowns (sid : string) (w : World) : list nat :=
  List.map fst (List.filter (λ ht, isCountdownOf sid (snd ht)) (map_to_list (tasks w))).


(** The first question has run out after 5 seconds; the countdown to the
    second question is running. *)
Definition betweenQuestions : World :=
  after (opening ++ [ev_host_start "h" (Some 5)] ++ replicate 5 (ev_timer 0)) lobbyWorld.


(** A session with a single question. *)
Definition shortQuizWorld : World := createSession "s1" "Quiz" [q1] emptyWorld.

(** The quiz has been started with 10 seconds per question. *)
Definition startedWorld : World :=
  after (opening ++ [ev_host_start "h" (Some 10)]) lobbyWorld.

(** Ann has answered the first question correctly with 9 seconds left, and
    the host has skipped to the results. *)
Definition midGame : World :=
  after (opening ++ [ev_host_start "h" (Some 10); ev_timer 0; ev_player_answer "a" 1;
                     ev_host_skip "h"]) lobbyWorld.

(** Four players with their final scores, two of them equal. *)
Definition finalWorld : World :=
  put_session "s1"
    (set_players [("a", mkPlayer "Ann" 900 None None); ("b", mkPlayer "Bob" 1500 None None);
                  ("c", mkPlayer "Cy" 900 None None); ("d", mkPlayer "Dee" 0 None None)]%string
       (newSession "s1" "Quiz" [q1]))
    emptyWorld.



(** The names of the players of a session in the order of their first
    [player:join]. *)
Fixpoint joinOrder (sid : string) (es : list Event) : list string :=
  match es with
  | [] => []
  | ev_player_join _ sid' n :: es' =>
      if String.eqb sid' sid
      then n :: List.filter (λ m, negb (String.eqb m n)) (joinOrder sid es')
      else joinOrder sid es'
  | _ :: es' => joinOrder sid es'
  end.

Definition comes_before {A : Type} (a b : A) (l : list A) : Prop :=
  ∃ i j, (i < j)%nat ∧ l !! i = Some a ∧ l !! j = Some b.

(** The reading of the standings rule under which players of equal score
    stand in the order in which they first joined. *)
Definition ties_in_join_order : Prop :=
  ∀ (es : list Event) (sid nm : string) (qs : list Question) (w : World)
    (podium : list PodiumEntry) (standings : list RosterEntry) (a b : RosterEntry),
    run es (createSession sid nm qs emptyWorld) = Some w →
    In (io_to (Some sid), quiz_finished podium standings) (emitted w) →
    roster_score a = roster_score b →
    comes_before a b standings →
    comes_before (roster_name a) (roster_name b) (joinOrder sid es).

(** Ann, Bob and Cy join in this order; Ann joins again from a second
    socket.  All three answer the one question at once, the host skips to
    the results, and the countdown (handle 1) runs out. *)
Definition rejoinRun : list Event :=
  [ev_host_join "h" "s1"; ev_player_join "a" "s1" "Ann"; ev_player_join "b" "s1" "Bob";
   ev_player_join "c" "s1" "Cy"; ev_player_join "a2" "s1" "Ann";
   ev_host_start "h" (Some 10);
   ev_player_answer "a2" 1; ev_player_answer "b" 1; ev_player_answer "c" 1;
   ev_host_skip "h"] ++ replicate 6 (ev_timer 1).

(** Closed facts about sample runs are settled by evaluation. *)
Ltac evaluate :=
  repeat match goal with |- _ ∧ _ => split end;
  match goal with
  | |- is_Some _ => refine (bool_decide_unpack _ _); vm_compute; exact I
  | |- _ => vm_compute; reflexivity
  end.

(** ** Lifecycle order *)

(** lobby, then playing, then finished. *)
Definition rank (st : Status) : nat :=
  match st with
  | lobby => 0
  | playing => 1
  | finished => 2
  end.

(** No session object of [w] has gone back in the lifecycle order in
    [w']. *)
Definition status_forward (w w' : World) : Prop :=
  ∀ sid s, store w !! sid = Some s →
    ∃ s', store w' !! sid = Some s' ∧ (rank (status s) ≤ rank (status s'))%nat.

Definition is_start (e : Event) : bool :=
  match e with
  | ev_host_start _ _ => true
  | _ => false
  end.

(** ** One countdown per session *)

(** No countdown task of session [sid] is among the tasks [ts]. *)
Definition no_countdown (sid : string) (ts : gmap nat Task) : Prop :=
  ∀ h t, ts !! h = Some t → isCountdownOf sid t = false.

(** The discipline of the countdowns: handles are handed out in increasing
    order; a session has at most one countdown task; a running question
    timer is the one recorded in [session.timer]; a session in the lobby
    has no countdown. *)
Definition countdown_inv (w : World) : Prop :=
  (∀ h t, tasks w !! h = Some t → (h < next_handle w)%nat)
  ∧ (∀ sid h1 h2 t1 t2,
       tasks w !! h1 = Some t1 → tasks w !! h2 = Some t2 →
       isCountdownOf sid t1 = true → isCountdownOf sid t2 = true → h1 = h2)
  ∧ (∀ sid h, tasks w !! h = Some (question_interval sid) →
       ∃ s, store w !! sid = Some s ∧ timer s = Some h)
  ∧ (∀ sid s, store w !! sid = Some s → status s = lobby → no_countdown sid (tasks w)).

(** The conditions under which the protocol issues [host:start] and
    [host:skip]: start for a session in the lobby, skip while the question
    timer of the session runs. *)
Definition guarded (w : World) (e : Event) : Prop :=
  match e with
  | ev_host_start c _ =>
      ∀ sid s, socket_sessionId (getSocket c w) = Some sid →
               sessions_get (Some sid) w = Some s → status s = lobby
  | ev_host_skip c =>
      ∀ sid s, socket_sessionId (getSocket c w) = Some sid →
               sessions_get (Some sid) w = Some s → hostSocketId s = Some c →
               ∃ h, timer s = Some h ∧ tasks w !! h = Some (question_interval sid)
  | _ => True
  end.

(** A run in which every start and skip is issued in turn. *)
Fixpoint guarded_run `{CaseFold} (es : list Event) (w : World) : Prop :=
  match es with
  | [] => True
  | e :: es' => guarded w e ∧ ∀ w', step w e = Some w' → guarded_run es' w'
  end.

(** ** Recorded answer times *)

(** Every recorded answer time lies between 0 and the limit [L]. *)
Definition times_ok (L : Z) (m : JsMap Player) : Prop :=
  Forall (λ e, ∀ t, answerTime (snd e) = Some t → 0 ≤ t ≤ L) m.

Definition session_times_ok (s : Session) : Prop :=
  0 < TIME_LIMIT s ∧ 0 ≤ timeLeft s ≤ TIME_LIMIT s ∧ times_ok (TIME_LIMIT s) (players s).

(** The countdown value and the recorded answer times of every session
    stay within the time limit, and a running question timer has at least
    one second left. *)
Definition time_inv (w : World) : Prop :=
  (∀ sid s, store w !! sid = Some s → session_times_ok s)
  ∧ (∀ sid h s, tasks w !! h = Some (question_interval sid) →
                store w !! sid = Some s → 1 ≤ timeLeft s).

(** ** The HTTP endpoints *)

(** A value read by [express.json()] or [JSON.parse].  Numbers are
    integers, as everywhere in this development; an object holds each key
    once. *)
#[local] Set Warnings "-register-all".

Inductive Json :=
  | Jnull
  | Jbool (b : bool)
  | Jnum (n : Z)
  | Jstr (s : string)
  | Jarr (items : list Json)
  | Jobj (fields : list (string * Json)).

(** A JavaScript value taken out of such a body; [None] is [undefined]. *)
Definition JsValue := option Json.

(** [v.k], for the keys the server reads ([name], [questions], [question],
    [options], [correctIndex]).  Reading a property of [null] throws
    ([None]); arrays, strings, numbers and booleans have no property of
    these names. *)
Definition prop (k : string) (v : Json) : option JsValue :=
  match v with
  | Jnull => None
  | Jobj fields => Some (snd <$> List.find (λ f, String.eqb (fst f) k) fields)
  | _ => Some None
  end.

(** The truthiness that [!x] and [x || y] test. *)
Definition truthy (v : JsValue) : bool :=
  match v with
  | None | Some Jnull => false
  | Some (Jbool b) => b
  | Some (Jnum n) => negb (n =? 0)
  | Some (Jstr s) => negb (String.eqb s "")
  | Some (Jarr _) | Some (Jobj _) => true
  end.

(** [a || b] *)
Definition or_else (a b : JsValue) : JsValue := if truthy a then a else b.

Definition Array_isArray (v : JsValue) : bool :=
  match v with
  | Some (Jarr _) => true
  | _ => false
  end.

(** The elements of a value that [Array.isArray] has accepted. *)
Definition elements (v : JsValue) : list Json :=
  match v with
  | Some (Jarr items) => items
  | _ => []
  end.

(** [typeof v === 'number'] *)
Definition isNumber (v : JsValue) : bool :=
  match v with
  | Some (Jnum _) => true
  | _ => false
  end.

(** *** [String.prototype.trim] and the session name *)

(** White space and line terminators, for strings in ASCII: TAB, LF, VT,
    FF, CR and the space. *)
Definition isWhiteSpace (a : ascii) : bool :=
  let n := nat_of_ascii a in
  ((9 <=? n) && (n <=? 13) || (n =? 32))%nat.

Fixpoint trimStart (s : string) : string :=
  match s with
  | EmptyString => EmptyString
  | String a s' => if isWhiteSpace a then trimStart s' else s
  end.

Fixpoint trimEnd (s : string) : string :=
  match s with
  | EmptyString => EmptyString
  | String a s' =>
      match trimEnd s' with
      | EmptyString => if isWhiteSpace a then EmptyString else String a EmptyString
      | t => String a t
      end
  end.

Definition String_trim (s : string) : string := trimEnd (trimStart s).

(** [(name || fallback).trim().substring(0, 100)].  A truthy [name] that
    is not a string has no [trim] method: the call throws ([None]). *)
Definition sanitizedName (fallback : string) (name : JsValue) : option string :=
  match or_else name (Some (Jstr fallback)) with
  | Some (Jstr s) => Some (substring 0 100 (String_trim s))
  | _ => None
  end.

(** *** Validation of the questions *)

(** The outcome of a check that can answer, or throw on the way. *)
Inductive Check := passes | fails | throws.

(** The test of [POST /api/import] on one element [q]:
    [!q.question || !Array.isArray(q.options) ||
     typeof q.correctIndex !== 'number'] means invalid. *)
Definition importedQuestion (q : Json) : Check :=
  match prop "question" q, prop "options" q, prop "correctIndex" q with
  | Some question, Some options, Some correctIndex =>
      if negb (truthy question) || negb (Array_isArray options)
         || negb (isNumber correctIndex)
      then fails else passes
  | _, _, _ => throws
  end.

(** The test of [generateQuizFromAI] on one element, with
    [q.options.length !== 4] in addition. *)
Definition generatedQuestion (q : Json) : Check :=
  match prop "question" q, prop "options" q, prop "correctIndex" q with
  | Some question, Some options, Some correctIndex =>
      if negb (truthy question) || negb (Array_isArray options)
         || negb (length (elements options) =? 4)%nat
         || negb (isNumber correctIndex)
      then fails else passes
  | _, _, _ => throws
  end.

(** [for (const q of questions) { if (...) return/throw }]: the first
    element that does not pass decides. *)
Fixpoint validateQuestions (check : Json → Check) (questions : list Json) : Check :=
  match questions with
  | [] => passes
  | q :: questions' =>
      match check q with
      | passes => validateQuestions check questions'
      | r => r
      end
  end.

(** The part of [generateQuizFromAI] that follows [JSON.parse]: the name
    and the questions it returns, [None] when it throws. *)
Definition generatedQuiz (parsed : Json) : option (JsValue * list Json) :=
  name ← prop "name" parsed;
  let name := or_else name (Some (Jstr "Quiz")) in
  questions ← prop "questions" parsed;
  let questions := or_else questions (Some parsed) in
  if negb (Array_isArray questions) || (length (elements questions) =? 0)%nat then None
  else
    match validateQuestions generatedQuestion (elements questions) with
    | passes => Some (name, elements questions)
    | _ => None
    end.

(** *** Requests and responses *)

(** [res.status(code).json(body)]; [res.json(body)] answers 200. *)
Definition Response := (nat * Json)%type.

Definition res_json (body : Json) : Response := (200%nat, body).

Definition res_error (code : nat) (message : string) : Response :=
  (code, Jobj [("error", Jstr message)]%string).

(** What a [POST] handler has decided when it reaches [sessions.set]:
    the session to register, or the answer that ends the request. *)
Inductive Admission :=
  | admitted (sanitizedName : string) (questions : list Json)
  | refused (res : Response).

(** [POST /api/session], up to [sessions.set].  Every exception inside the
    [try] block is answered with status 500. *)
Definition session_admission (body : Json) : Admission :=
  match prop "name" body, prop "questions" body with
  | Some name, Some questions =>
      if negb (truthy questions) || negb (Array_isArray questions)
         || (length (elements questions) =? 0)%nat
      then refused (res_error 400 "Questions array is required")
      else
        match sanitizedName "Quiz" name with
        | Some nm => admitted nm (elements questions)
        | None => refused (res_error 500 "Failed to create session")
        end
  | _, _ => refused (res_error 500 "Failed to create session")
  end.

(** [POST /api/import], up to [sessions.set]. *)
Definition import_admission (body : Json) : Admission :=
  match prop "name" body, prop "questions" body with
  | Some name, Some questions =>
      if negb (truthy questions) || negb (Array_isArray questions)
      then refused (res_error 400 "Valid questions array required")
      else
        match validateQuestions importedQuestion (elements questions) with
        | fails => refused (res_error 400 "Invalid question format")
        | throws => refused (res_error 500 "Failed to import quiz")
        | passes =>
            match sanitizedName "Importerat Quiz" name with
            | Some nm => admitted nm (elements questions)
            | None => refused (res_error 500 "Failed to import quiz")
            end
        end
  | _, _ => refused (res_error 500 "Failed to import quiz")
  end.

(** The questions of a session are kept as they were sent.  The session
    engine reads [question], [options] and [correctIndex] of each; the
    sessions of this development hold questions of that documented shape,
    an object with exactly these three fields, a string, an array of
    strings and a number. *)
Definition asString (v : Json) : option string :=
  match v with
  | Jstr s => Some s
  | _ => None
  end.

Definition toQuestion (q : Json) : option Question :=
  match q with
  | Jobj fields =>
      if negb (length fields =? 3)%nat then None
      else
        match prop "question" q, prop "options" q, prop "correctIndex" q with
        | Some (Some (Jstr text)), Some (Some (Jarr opts)), Some (Some (Jnum i)) =>
            opts ← mapM asString opts; Some (mkQuestion text opts i)
        | _, _, _ => None
        end
  | _ => None
  end.

Definition ofQuestion (q : Question) : Json :=
  Jobj [("question", Jstr (question q));
        ("options", Jarr (Jstr <$> options q));
        ("correctIndex", Jnum (correctIndex q))]%string.

(** The tail of both [POST] handlers: the session goes into the registry
    under the identifier [sessionId] that [uuidv4().slice(0, 8)] has drawn,
    and the identifier is the answer.  The result is [None] when the
    admitted questions are not of the documented shape: such a session is
    outside this development. *)
Definition register (sessionId : string) (a : Admission) (w : World)
    : option (Response * World) :=
  match a with
  | admitted sanitizedName questions =>
      qs ← mapM toQuestion questions;
      Some (res_json (Jobj [("sessionId", Jstr sessionId)]%string),
            createSession sessionId sanitizedName qs w)
  | refused res => Some (res, w)
  end.

(** [app.post('/api/session', ...)] *)
Definition POST_api_session (sessionId : string) (body : Json) (w : World)
    : option (Response * World) :=
  register sessionId (session_admission body) w.

(** [app.post('/api/import', ...)] *)
Definition POST_api_import (sessionId : string) (body : Json) (w : World)
    : option (Response * World) :=
  register sessionId (import_admission body) w.

Definition statusName (st : Status) : string :=
  match st with
  | lobby => "lobby"
  | playing => "playing"
  | finished => "finished"
  end.

(** [app.get('/api/session/:id', ...)] *)
Definition GET_api_session (id : string) (w : World) : Response :=
  match sessions_get (Some id) w with
  | None => res_error 404 "Session not found"
  | Some session =>
      res_json (Jobj [("id", Jstr (session_id session));
                      ("status", Jstr (statusName (status session)));
                      ("questionCount", Jnum (Z.of_nat (length (questions session))));
                      ("playerCount", Jnum (Z.of_nat (Map_size (players session))))]%string)
  end.

(** [app.get('/api/session/:id/export', ...)]; [now] is
    [new Date().toISOString()]. *)
Definition GET_api_session_export (now : string) (id : string) (w : World) : Response :=
  match sessions_get (Some id) w with
  | None => res_error 404 "Session not found"
  | Some session =>
      res_json (Jobj [("name", Jstr (quizName session));
                      ("questions", Jarr (ofQuestion <$> questions session));
                      ("exportedAt", Jstr now)]%string)
  end.

(** ** Player names *)

(** No two players of the map have the same name, letter case apart. *)
Definition names_unique `{CaseFold} (m : JsMap Player) : Prop :=
  NoDup (existingNames m).

(** The players of every session object have different names. *)
Definition names_inv `{CaseFold} (w : World) : Prop :=
  map_Forall (λ _ s, names_unique (players s)) (store w).

(** ** A quiz left to its timers *)

(** The values that [n] ticks of a clock standing at [L] announce:
    [L - 1], [L - 2], and so on. *)
Fixpoint ticksDown (L : Z) (n : nat) : list Z :=
  match n with
  | O => []
  | S n' => (L - 1) :: ticksDown (L - 1) n'
  end.

(** The session object after [endQuestion] has scored the question [q]
    and moved to the next index. *)
Definition questionEnded (q : Question) (s : Session) : Session :=
  set_currentQuestionIndex (S (currentQuestionIndex s))
    (set_players (List.map (λ e, (fst e, scorePlayer q (TIME_LIMIT s) (snd e))) (players s))
       s).

(** The timer events of a quiz in which nobody skips: the question timer
    [h] runs out after [first] ticks, the countdown that [endQuestion]
    starts under the next free handle [a] comes due six times, and the next
    question, if there is one, runs for the whole limit [L] under the
    handle after that. *)
Fixpoint timerSchedule (remaining L first h a : nat) : list Event :=
  match remaining with
  | O => []
  | S remaining' =>
      replicate first (ev_timer h) ++ replicate 6 (ev_timer a)
      ++ timerSchedule remaining' L L (S a) (S (S a))
  end.

(** The session object after [sendQuestion] has cleared the answers, set
    the clock to the limit and recorded the handle [h] of the new
    interval. *)
Definition questionSent (h : nat) (s : Session) : Session :=
  set_timer (Some h)
    (set_timeLeft (TIME_LIMIT s) (set_players (resetAnswers (players s)) s)).

(** ** Sessions side by side *)

(** The session an event is about: the one it names, the one its socket
    is attached to, or the one of the task that comes due. *)
Definition eventSession (w : World) (e : Event) : option string :=
  match e with
  | ev_host_join _ sessionId | ev_player_join _ sessionId _ => Some sessionId
  | ev_host_start c _ | ev_player_answer c _ | ev_host_skip c | ev_disconnect c =>
      socket_sessionId (getSocket c w)
  | ev_timer h =>
      match tasks w !! h with
      | Some (question_interval sid) | Some (countdown_interval sid _ _)
      | Some (cleanup_timeout sid) => Some sid
      | None => None
      end
  end.

Definition is_timer (e : Event) : bool :=
  match e with
  | ev_timer _ => true
  | _ => false
  end.

(** Outside the session [sid] the registry and the session objects of
    [w'] are those of [w]. *)
Definition same_outside (sid : option string) (w w' : World) : Prop :=
  ∀ k, Some k ≠ sid → (k ∈ sessions w' ↔ k ∈ sessions w) ∧ store w' !! k = store w !! k.

(** ** Scores *)

(** No score is negative or above 1000 points for each question that has
    been ended. *)
Definition scores_ok (n : nat) (m : JsMap Player) : Prop :=
  Forall (λ e, 0 ≤ score (snd e) ≤ 1000 * Z.of_nat n) m.

(** In the lobby no question has been ended; the scores of every session
    are within the bound of its question index. *)
Definition score_inv (w : World) : Prop :=
  ∀ sid s, store w !! sid = Some s →
    (status s = lobby → currentQuestionIndex s = 0%nat)
    ∧ scores_ok (currentQuestionIndex s) (players s).

(** ** Checking a run *)

(** [guarded], as a test. *)
Definition guardedb (w : World) (e : Event) : bool :=
  match e with
  | ev_host_start c _ =>
      match sessions_get (socket_sessionId (getSocket c w)) w with
      | Some s => bool_decide (status s = lobby)
      | None => true
      end
  | ev_host_skip c =>
      match socket_sessionId (getSocket c w) with
      | Some sid =>
          match sessions_get (Some sid) w with
          | Some s =>
              if bool_decide (hostSocketId s = Some c) then
                match timer s with
                | Some h =>
                    match tasks w !! h with
                    | Some (question_interval sid') => String.eqb sid' sid
                    | _ => false
                    end
                | None => false
                end
              else true
          | None => true
          end
      | None => true
      end
  | _ => true
  end.

Fixpoint guarded_runb `{CaseFold} (es : list Event) (w : World) : bool :=
  match es with
  | [] => true
  | e :: es' =>
      guardedb w e
      && match step w e with
         | Some w' => guarded_runb es' w'
         | None => true
         end
  end.

(** ** Callbacks that find their question *)

(** What a pending task relies on: its session object exists, and the
    question that the task will read, at the current index, exists (a
    countdown after the last question reads none). *)
Definition task_live (w : World) (t : Task) : Prop :=
  match t with
  | question_interval sid =>
      ∃ s, store w !! sid = Some s
           ∧ (currentQuestionIndex s < length (questions s))%nat
  | countdown_interval sid _ isLast =>
      ∃ s, store w !! sid = Some s
           ∧ (isLast = false → (currentQuestionIndex s < length (questions s))%nat)
  | cleanup_timeout _ => True
  end.

(** Every session has a question, and every pending task finds what it
    reads. *)
Definition live_inv (w : World) : Prop :=
  (∀ sid s, store w !! sid = Some s → questions s ≠ [])
  ∧ (∀ h t, tasks w !! h = Some t → task_live w t).

(** ** [player:join] with any payload *)

(** [playerName.toLowerCase()] for whatever the client sent as
    [playerName]: only a string has the method, and the call on anything
    else is a [TypeError]. *)
Definition toLowerCase_of `{CaseFold} (v : JsValue) : option string :=
  match v with
  | Some (Jstr s) => Some (toLowerCase s)
  | _ => None
  end.

(** [array.find(callback)] with a callback that can throw: the callback
    runs on the elements in turn, up to the first match. *)
Fixpoint find_throwing {A : Type} (f : A → option bool) (l : list A) : option (option A) :=
  match l with
  | [] => Some None
  | x :: l' => b ← f x; if b : bool then Some (Some x) else find_throwing f l'
  end.

Section JoinPayload.
Context `{CaseFold}.

(** [p.name.toLowerCase() === playerName.toLowerCase()] *)
Definition sameName_of (playerName : JsValue) (p : Player) : option bool :=
  n ← toLowerCase_of playerName; Some (String.eqb (toLowerCase (name p)) n).

(** [socket.on('player:join', ({ sessionId, playerName }) => ...)] on the
    payload as it arrives.  Destructuring [undefined] or [null] throws; a
    session id that is not a string is no key of the registry. *)
Definition player_join_payload (c : string) (payload : JsValue) (w : World) : option World :=
  data ← payload;
  sessionId ← prop "sessionId" data;
  playerName ← prop "playerName" data;
  match sessionId ≫= asString with
  | None => Some (emit (socket_emit c) (error Session_not_found) w)
  | Some sid =>
      match sessions_get (Some sid) w with
      | None => Some (emit (socket_emit c) (error Session_not_found) w)
      | Some session =>
          existingPlayer ← find_throwing (sameName_of playerName)
                                         (Map_values (players session));
          let isReconnect := bool_decide (is_Some existingPlayer) in
          if negb (bool_decide (status session = lobby)) && negb isReconnect then
            Some (emit (socket_emit c) (error Quiz_has_already_started) w)
          else if negb isReconnect then
            n ← toLowerCase_of playerName;
            if bool_decide (n ∈ existingNames (players session)) then
              Some (emit (socket_emit c) (error Name_already_taken) w)
            else
              nm ← playerName ≫= asString;
              Some (joined c sid session
                           (Map_set c (mkPlayer nm 0 None None) (players session)) w)
          else
            found ← find_throwing (λ e, sameName_of playerName (snd e))
                                  (Map_entries (players session));
            e ← found;
            let oldSocketId := fst e in
            playerData ← Map_get oldSocketId (players session);
            Some (joined c sid session
                         (Map_set c playerData (Map_delete oldSocketId (players session))) w)
      end
  end.
End JoinPayload.

(** A payload without a name, and one whose name is a number. *)
Definition noName : Json := Jobj [("sessionId", Jstr "s1")]%string.
Definition numberName : Json := Jobj [("sessionId", Jstr "s1"); ("playerName", Jnum 7)]%string.
Definition annPayload : Json :=
  Jobj [("sessionId", Jstr "s1"); ("playerName", Jstr "Ann")]%string.

(** * Properties *)

(** ** Scoring *)

Lemma Math_round_closed (t L : Z) :
  0 < L →
  Math_round (inject_Z MIN_POINTS
              + (inject_Z t / inject_Z L) * inject_Z (MAX_POINTS - MIN_POINTS))%Q
  = (1000 * L + 1000 * t + L) / (2 * L).
Proof.
  intros HL. unfold Math_round, MIN_POINTS, MAX_POINTS.
  rewrite Zdiv_Qdiv. apply Qfloor_comp.
  rewrite !inject_Z_plus, !inject_Z_mult.
  assert (HLq : ¬ (inject_Z L == 0)%Q).
  { intros E. apply (inject_Z_injective L 0) in E. lia. }
  change (inject_Z (1000 - 500)) with (500 # 1)%Q.
  change (inject_Z 500) with (500 # 1)%Q.
  change (inject_Z 1000) with (1000 # 1)%Q.
  change (inject_Z 2) with (2 # 1)%Q.
  field. exact HLq.
Qed.



Lemma pointsEarned_wrong (q : Question) (L : Z) (p : Player) :
  currentAnswer p ≠ Some (correctIndex q) ∨ answerTime p = None →
  pointsEarned q L p = 0.
Proof.
  unfold pointsEarned, isCorrect. intros [Hne | Hnull].
  - rewrite bool_decide_eq_false_2 by exact Hne. reflexivity.
  - rewrite Hnull. destruct (bool_decide _); reflexivity.
Qed.


Lemma pointsEarned_bounds (q : Question) (L t : Z) (p : Player) :
  currentAnswer p = Some (correctIndex q) → answerTime p = Some t →
  0 < L → 0 ≤ t ≤ L →
  500 ≤ pointsEarned q L p ≤ 1000.
Proof.
  intros Hc Ht HL Hr. unfold pointsEarned, isCorrect.
  rewrite bool_decide_eq_true_2 by exact Hc. rewrite Ht. cbv zeta.
  rewrite Math_round_closed by exact HL.
  split.
  - apply Z.div_le_lower_bound; lia.
  - enough ((1000 * L + 1000 * t + L) / (2 * L) < 1001) by lia.
    apply Z.div_lt_upper_bound; lia.
Qed.

Lemma endQuestion_unfold (w : World) (sid : string) (s : Session) (q : Question) :
  store w !! sid = Some s →
  questions s !! currentQuestionIndex s = Some q →
  ∃ w', endQuestion sid w = Some w' ∧
        store w' = <[sid := set_currentQuestionIndex (S (currentQuestionIndex s))
                              (set_players
                                 (List.map (λ e, (fst e, scorePlayer q (TIME_LIMIT s) (snd e)))
                                           (players s)) s)]> (store w) ∧
        sessions w' = sessions w ∧ sockets w' = sockets w ∧
        tasks w' = <[next_handle w :=
                       countdown_interval sid 5
                         (bool_decide (length (questions s) ≤ S (currentQuestionIndex s))%nat)]>
                     (tasks w) ∧
        next_handle w' = S (next_handle w) ∧
        emitted w' = emitted w ++
          [(io_to (Some (session_id s)),
            quiz_results (correctIndex q) (Array_at (options q) (correctIndex q))
              (Array_sort (λ a b, result_totalScore b - result_totalScore a)
                          (questionResults q (TIME_LIMIT s) (players s))))].
Proof.
  intros Hs Hq. unfold endQuestion. rewrite Hs. cbn [mbind option_bind].
  cbn [set_players questions currentQuestionIndex]. rewrite Hq. cbn [mbind option_bind].
  eexists. split; [reflexivity|]. cbn. repeat split; reflexivity.
Qed.





(** ** Sorting by descending key *)

Section SortFacts.
Context {A : Type} (key : A → Z).

Let cmp : A → A → Z := λ a b, key b - key a.

Lemma sort_insert_perm (x : A) (l : list A) :
  Permutation (sort_insert cmp x l) (x :: l).
Proof.
  induction l as [|y l IH]; cbn [sort_insert]; [reflexivity|].
  destruct (0 <? cmp x y); [|reflexivity].
  rewrite IH. apply perm_swap.
Qed.

Lemma Array_sort_perm (l : list A) : Permutation (Array_sort cmp l) l.
Proof.
  induction l as [|x l IH]; cbn [Array_sort foldr]; [reflexivity|].
  fold (Array_sort cmp l). rewrite sort_insert_perm. now constructor.
Qed.

Lemma sort_insert_descending (x : A) (l : list A) :
  descending key l → descending key (sort_insert cmp x l).
Proof.
  unfold descending. induction l as [|y l IH]; intros Hl; cbn [sort_insert].
  - repeat constructor.
  - apply StronglySorted_inv in Hl as [Hl Hy].
    destruct (0 <? cmp x y) eqn:E; unfold cmp in E.
    + apply Z.ltb_lt in E. constructor; [apply IH, Hl|].
      rewrite (sort_insert_perm x l). constructor; [lia | exact Hy].
    + apply Z.ltb_ge in E. constructor; [constructor; assumption|].
      constructor; [lia|].
      eapply Forall_impl; [exact Hy|]. cbn. intros; lia.
Qed.

Lemma Array_sort_descending (l : list A) : descending key (Array_sort cmp l).
Proof.
  induction l as [|x l IH]; cbn [Array_sort foldr].
  - constructor.
  - apply sort_insert_descending, IH.
Qed.

(** Elements with the same key keep their order. *)
Lemma sort_insert_stable (v : Z) (x : A) (l : list A) :
  List.filter (λ a, key a =? v) (sort_insert cmp x l)
  = List.filter (λ a, key a =? v) (x :: l).
Proof.
  induction l as [|y l IH]; cbn [sort_insert]; [reflexivity|].
  destruct (0 <? cmp x y) eqn:E; [|reflexivity]. unfold cmp in E.
  apply Z.ltb_lt in E. cbn [List.filter] in *. rewrite IH.
  destruct (key x =? v) eqn:Ex, (key y =? v) eqn:Ey; try reflexivity.
  apply Z.eqb_eq in Ex, Ey. lia.
Qed.

Lemma Array_sort_stable (v : Z) (l : list A) :
  List.filter (λ a, key a =? v) (Array_sort cmp l) = List.filter (λ a, key a =? v) l.
Proof.
  induction l as [|x l IH]; cbn [Array_sort foldr]; [reflexivity|].
  fold (Array_sort cmp l). rewrite sort_insert_stable.
  cbn [List.filter]. now rewrite IH.
Qed.
End SortFacts.

(** A sorted, order-preserving arrangement is unique: whatever stable
    algorithm the engine runs, it returns the list of [Array_sort]. *)
Lemma stable_descending_unique {A : Type} (key : A → Z) (l1 l2 : list A) :
  descending key l1 → descending key l2 →
  (∀ v, List.filter (λ a, key a =? v) l1 = List.filter (λ a, key a =? v) l2) →
  l1 = l2.
Proof.
  unfold descending. revert l2.
  induction l1 as [|x l1 IH]; intros l2 H1 H2 Hf.
  - destruct l2 as [|y l2]; [reflexivity|].
    specialize (Hf (key y)). cbn [List.filter] in Hf.
    rewrite Z.eqb_refl in Hf. discriminate.
  - destruct l2 as [|y l2].
    { specialize (Hf (key x)). cbn [List.filter] in Hf.
      rewrite Z.eqb_refl in Hf. discriminate. }
    apply StronglySorted_inv in H1 as [H1 Hx].
    apply StronglySorted_inv in H2 as [H2 Hy].
    assert (Hxy : x = y).
    { pose proof (Hf (key x)) as Fx. pose proof (Hf (key y)) as Fy.
      cbn [List.filter] in Fx, Fy. rewrite Z.eqb_refl in Fx, Fy.
      destruct (key y =? key x) eqn:E.
      - congruence.
      - apply Z.eqb_neq in E.
        assert (Hin2 : In x l2).
        { assert (Hin : In x (List.filter (λ a, key a =? key x) l2)).
          { rewrite <- Fx. now left. }
          apply List.filter_In in Hin. tauto. }
        assert (Hin1 : In y l1).
        { destruct (key x =? key y) eqn:E'; [apply Z.eqb_eq in E'; lia|].
          assert (Hin : In y (List.filter (λ a, key a =? key y) l1)).
          { rewrite Fy. now left. }
          apply List.filter_In in Hin. tauto. }
        rewrite List.Forall_forall in Hx, Hy.
        specialize (Hx _ Hin1). specialize (Hy _ Hin2). lia. }
    subst y. f_equal. apply IH; [assumption..|].
    intros v. specialize (Hf v). cbn [List.filter] in Hf.
    destruct (key x =? v); congruence.
Qed.

Lemma podiumOf_length (standings : list RosterEntry) :
  length (podiumOf standings) = Nat.min 3 (length standings).
Proof. unfold podiumOf. rewrite length_imap. apply length_take. Qed.

Lemma podiumOf_lookup (standings : list RosterEntry) (i : nat) (r : RosterEntry) :
  (i < 3)%nat → standings !! i = Some r →
  podiumOf standings !! i = Some (mkPodium (S i) (roster_name r) (roster_score r)).
Proof.
  intros Hi Hr. unfold podiumOf.
  rewrite list_lookup_imap, lookup_take_lt by exact Hi.
  rewrite Hr. cbn. now rewrite Nat.add_1_r.
Qed.

(** C8. At finish the standings hold every player, sorted by descending
    cumulative score, players of equal score in the order of the players
    map; the podium is the first three of them (fewer when there are fewer
    players) with positions 1, 2, 3. *)
Theorem endQuiz_standings (w : World) (sid : string) (s : Session) :
  store w !! sid = Some s →
  ∃ w' standings podium,
    endQuiz sid w = Some w' ∧
    (status <$> store w' !! sid) = Some finished ∧
    emitted w' = emitted w ++
                 [(io_to (Some (session_id s)), quiz_finished podium standings)] ∧
    Permutation standings (roster (players s)) ∧
    descending roster_score standings ∧
    (∀ v, List.filter (λ r, roster_score r =? v) standings
          = List.filter (λ r, roster_score r =? v) (roster (players s))) ∧
    length podium = Nat.min 3 (length (players s)) ∧
    (∀ i r, (i < 3)%nat → standings !! i = Some r →
            podium !! i = Some (mkPodium (S i) (roster_name r) (roster_score r))).
Proof.
  intros Hs.
  exists (put_session sid (set_status finished s)
            (snd (schedule (cleanup_timeout (session_id s))
                    (emit (io_to (Some (session_id s)))
                          (quiz_finished (podiumOf (finalStandings (players s)))
                                         (finalStandings (players s))) w)))),
         (finalStandings (players s)), (podiumOf (finalStandings (players s))).
  split. { unfold endQuiz. rewrite Hs. reflexivity. }
  split. { cbn. now rewrite lookup_insert_eq. }
  split. { reflexivity. }
  split. { apply (Array_sort_perm roster_score). }
  split. { apply (Array_sort_descending roster_score). }
  split. { intros v. apply (Array_sort_stable roster_score). }
  split.
  - rewrite podiumOf_length. f_equal. unfold finalStandings.
    rewrite (Permutation_length (Array_sort_perm roster_score _)).
    unfold roster, Map_values. now rewrite !length_map.
  - intros i r. apply podiumOf_lookup.
Qed.

(** ** The players map *)

Section JsMapFacts.
Context {V : Type}.
Implicit Types (m : JsMap V) (k : string) (v : V).

Lemma Map_get_set_eq k v m : Map_get k (Map_set k v m) = Some v.
Proof.
  unfold Map_get. induction m as [|[k' v'] m IH]; cbn.
  - now rewrite String.eqb_refl.
  - destruct (String.eqb k' k) eqn:E; cbn.
    + now rewrite String.eqb_refl.
    + rewrite E. exact IH.
Qed.

Lemma Map_get_set_ne k k' v m : k ≠ k' → Map_get k' (Map_set k v m) = Map_get k' m.
Proof.
  intros Hne. unfold Map_get. induction m as [|[k0 v0] m IH]; cbn.
  - now rewrite (proj2 (String.eqb_neq k k')).
  - destruct (String.eqb k0 k) eqn:E; cbn.
    + apply String.eqb_eq in E. subst k0.
      now rewrite (proj2 (String.eqb_neq k k')).
    + destruct (String.eqb k0 k'); [reflexivity | exact IH].
Qed.

Lemma Map_get_delete_eq k m : Map_get k (Map_delete k m) = None.
Proof.
  unfold Map_get, Map_delete. induction m as [|[k' v'] m IH]; cbn; [reflexivity|].
  destruct (String.eqb k' k) eqn:E; cbn; [exact IH|]. now rewrite E.
Qed.

Lemma Map_get_delete_ne k k' m : k ≠ k' → Map_get k' (Map_delete k m) = Map_get k' m.
Proof.
  intros Hne. unfold Map_get, Map_delete.
  induction m as [|[k0 v0] m IH]; cbn; [reflexivity|].
  destruct (String.eqb k0 k) eqn:E; cbn.
  - apply String.eqb_eq in E. subst k0.
    now rewrite (proj2 (String.eqb_neq k k')).
  - destruct (String.eqb k0 k'); [reflexivity | exact IH].
Qed.

Lemma Map_get_Some_In k v m : Map_get k m = Some v → In (k, v) m.
Proof.
  unfold Map_get. intros Hg.
  destruct (List.find _ m) as [[k' v']|] eqn:F; [|discriminate].
  apply List.find_some in F as [Hin E]. cbn in *. apply String.eqb_eq in E.
  congruence.
Qed.

Lemma Map_get_In k v m : Map_wf m → In (k, v) m → Map_get k m = Some v.
Proof.
  unfold Map_wf, Map_get. induction m as [|[k' v'] m IH]; intros Hwf Hin; [destruct Hin|].
  cbn in *. apply NoDup_cons in Hwf as [Hk Hwf].
  destruct Hin as [E | Hin].
  - injection E as -> ->. now rewrite String.eqb_refl.
  - destruct (String.eqb k' k) eqn:E.
    + apply String.eqb_eq in E. subst k'. exfalso. apply Hk.
      apply list_elem_of_In. change k with (fst (k, v)). now apply List.in_map.
    + apply IH; assumption.
Qed.
End JsMapFacts.

(** ** Well-formed players maps *)

Lemma Map_set_keys {V : Type} (k : string) (v : V) (m : JsMap V) :
  List.map fst (Map_set k v m)
  = if bool_decide (k ∈ List.map fst m) then List.map fst m else List.map fst m ++ [k].
Proof.
  induction m as [|[k' v'] m IH]; cbn [Map_set List.map fst].
  - rewrite bool_decide_eq_false_2; [reflexivity | apply not_elem_of_nil].
  - destruct (String.eqb k' k) eqn:E.
    + apply String.eqb_eq in E. subst k'. cbn.
      rewrite bool_decide_eq_true_2; [reflexivity | apply list_elem_of_here].
    + apply String.eqb_neq in E. cbn [List.map fst]. rewrite IH.
      destruct (decide (k ∈ List.map fst m)) as [Hin | Hin].
      * rewrite !bool_decide_eq_true_2; [reflexivity | now apply list_elem_of_further | exact Hin].
      * rewrite !bool_decide_eq_false_2; [reflexivity | | exact Hin].
        intros [? | ?]%elem_of_cons; congruence.
Qed.

Lemma Map_set_wf {V : Type} (k : string) (v : V) (m : JsMap V) :
  Map_wf m → Map_wf (Map_set k v m).
Proof.
  unfold Map_wf. intros Hwf. rewrite Map_set_keys.
  destruct (decide (k ∈ List.map fst m)) as [Hin | Hin].
  - now rewrite bool_decide_eq_true_2.
  - rewrite bool_decide_eq_false_2 by exact Hin.
    apply NoDup_app. split; [exact Hwf|]. split; [|apply NoDup_singleton].
    intros x Hx Hk. apply list_elem_of_singleton in Hk. congruence.
Qed.

Lemma Map_delete_wf {V : Type} (k : string) (m : JsMap V) :
  Map_wf m → Map_wf (Map_delete k m).
Proof.
  unfold Map_wf, Map_delete. induction m as [|[k' v'] m IH]; cbn; [trivial|].
  intros [Hk Hwf]%NoDup_cons. destruct (String.eqb k' k); cbn; [now apply IH|].
  apply NoDup_cons. split; [|now apply IH].
  intros Hin. apply Hk. apply list_elem_of_In in Hin. apply list_elem_of_In.
  apply List.in_map_iff in Hin as (e & <- & He). apply List.filter_In in He as [He _].
  now apply List.in_map.
Qed.

Lemma resetAnswers_wf (m : JsMap Player) : Map_wf m → Map_wf (resetAnswers m).
Proof.
  unfold Map_wf, resetAnswers. now rewrite List.map_map.
Qed.

(** A reconnect puts the player at the end of the map: the order of the
    map is the order of the latest joins. *)
Lemma reconnect_moves_last {V : Type} (old c : string) (v : V) (m : JsMap V) :
  Map_get c (Map_delete old m) = None →
  Map_set c v (Map_delete old m) = Map_delete old m ++ [(c, v)].
Proof.
  unfold Map_get. generalize (Map_delete old m) as l.
  induction l as [|[k' v'] l IH]; cbn; [reflexivity|].
  destruct (String.eqb k' c); [discriminate|]. intros Hn. now rewrite IH.
Qed.

(** ** Skipping a running question *)

(** With a question timer running, [host:skip] from the bound host cancels
    it and ends the question; the cancelled handle has no callback left, so
    the timer cannot end the question a second time. *)
Lemma host_skip_running (w : World) (c sid : string) (s : Session) (h : nat) (q : Question) :
  socket_sessionId (getSocket c w) = Some sid →
  sessions_get (Some sid) w = Some s →
  hostSocketId s = Some c →
  timer s = Some h → (h < next_handle w)%nat →
  questions s !! currentQuestionIndex s = Some q →
  ∃ w' s',
    host_skip c w = Some w' ∧
    tasks w' !! h = None ∧ fire h w' = Some w' ∧
    store w' !! sid = Some s' ∧ timer s' = None ∧
    currentQuestionIndex s' = S (currentQuestionIndex s) ∧
    tasks w' = <[next_handle w :=
                   countdown_interval sid 5
                     (bool_decide (length (questions s) ≤ S (currentQuestionIndex s))%nat)]>
                 (delete h (tasks w)).
Proof.
  intros Hsock Hget Hhost Htimer Hfresh Hq. unfold host_skip.
  rewrite Hsock, Hget, (bool_decide_eq_true_2 _ Hhost), Htimer. cbn [negb].
  destruct (endQuestion_unfold
              (put_session sid (set_timer None s) (clearInterval (Some h) w)) sid
              (set_timer None s) q) as (w' & Hrun & Hstore & _ & _ & Htasks & _).
  { cbn. apply lookup_insert_eq. }
  { exact Hq. }
  cbn in Htasks, Hstore.
  assert (Hgone : tasks w' !! h = None).
  { rewrite Htasks, lookup_insert_ne by lia. apply lookup_delete_eq. }
  eexists w', _. split; [exact Hrun|]. split; [exact Hgone|].
  split. { unfold fire. now rewrite Hgone. }
  split. { rewrite Hstore. apply lookup_insert_eq. }
  split; [reflexivity|]. split; [reflexivity|]. exact Htasks.
Qed.

(** A skip from any other socket is ignored. *)
Lemma host_skip_not_host (w : World) (c : string) :
  (∀ sid s, socket_sessionId (getSocket c w) = Some sid →
            sessions_get (Some sid) w = Some s → hostSocketId s ≠ Some c) →
  host_skip c w = Some w.
Proof.
  intros Hno. unfold host_skip.
  destruct (socket_sessionId (getSocket c w)) as [sid|] eqn:Hsock; [|reflexivity].
  destruct (sessions_get (Some sid) w) as [s|] eqn:Hget; [|reflexivity].
  now rewrite (bool_decide_eq_false_2 _ (Hno sid s eq_refl Hget)).
Qed.

(** ** The answer tally *)

Lemma answerStats_selections (m : JsMap Player) :
  answerStats m = tallyOf (selections m) [num 0; num 0; num 0; num 0].
Proof.
  unfold answerStats, tallyOf, selections.
  generalize [num 0; num 0; num 0; num 0].
  induction (Map_values m) as [|p ps IH]; intros st; cbn; [reflexivity|].
  destruct (currentAnswer p); cbn; apply IH.
Qed.

Lemma answeredCount_selections (m : JsMap Player) :
  answeredCount m = length (selections m).
Proof.
  unfold answeredCount, selections.
  induction (Map_values m) as [|p ps IH]; cbn; [reflexivity|].
  destruct (currentAnswer p); cbn; [f_equal|]; exact IH.
Qed.

Lemma tallyOf_cons (i : Z) (idxs : list Z) (st : list Cell) :
  tallyOf (i :: idxs) st = tallyOf idxs (Array_increment i st).
Proof. reflexivity. Qed.

Lemma Array_increment_four (a b c d : Z) :
  Array_increment 0 [num a; num b; num c; num d] = [num (a + 1); num b; num c; num d]
  ∧ Array_increment 1 [num a; num b; num c; num d] = [num a; num (b + 1); num c; num d]
  ∧ Array_increment 2 [num a; num b; num c; num d] = [num a; num b; num (c + 1); num d]
  ∧ Array_increment 3 [num a; num b; num c; num d] = [num a; num b; num c; num (d + 1)].
Proof. repeat split; reflexivity. Qed.

Lemma cnt_cons (i j : Z) (idxs : list Z) :
  cnt i (j :: idxs) = (if i =? j then 1 else 0) + cnt i idxs.
Proof. unfold cnt. cbn. destruct (i =? j); cbn [length]; lia. Qed.

Lemma tallyOf_in_range (idxs : list Z) (a b c d : Z) :
  Forall (λ i, 0 ≤ i ≤ 3) idxs →
  tallyOf idxs [num a; num b; num c; num d]
  = [num (a + cnt 0 idxs); num (b + cnt 1 idxs); num (c + cnt 2 idxs); num (d + cnt 3 idxs)]
  ∧ cnt 0 idxs + cnt 1 idxs + cnt 2 idxs + cnt 3 idxs = Z.of_nat (length idxs).
Proof.
  intros Hr. revert a b c d.
  induction Hr as [|i idxs Hi _ IH]; intros a b c d.
  - cbn. unfold cnt. cbn. now rewrite !Z.add_0_r.
  - assert (Hcases : i = 0 ∨ i = 1 ∨ i = 2 ∨ i = 3) by lia.
    rewrite !cnt_cons.
    destruct (Array_increment_four a b c d) as (E0 & E1 & E2 & E3).
    destruct (IH a b c d) as [_ Hsum].
    rewrite tallyOf_cons.
    destruct Hcases as [-> | [-> | [-> | ->]]];
      [ rewrite E0; destruct (IH (a + 1) b c d) as [-> _]
      | rewrite E1; destruct (IH a (b + 1) c d) as [-> _]
      | rewrite E2; destruct (IH a b (c + 1) d) as [-> _]
      | rewrite E3; destruct (IH a b c (d + 1)) as [-> _] ];
      cbn [Z.eqb Pos.eqb length];
      (split; [repeat (f_equal; try lia) | lia]).
Qed.

Lemma Array_increment_length_mono (i : Z) (st : list Cell) :
  (length st ≤ length (Array_increment i st))%nat.
Proof.
  unfold Array_increment. destruct (i <? 0); [lia|].
  destruct (st !! Z.to_nat i) as [[k| |]|];
    rewrite ?length_insert, ?length_app; lia.
Qed.

Lemma Array_increment_grow (i : Z) (st : list Cell) :
  0 ≤ i → (length st ≤ Z.to_nat i)%nat →
  length (Array_increment i st) = S (Z.to_nat i).
Proof.
  intros Hi Hlen. unfold Array_increment.
  rewrite (proj2 (Z.ltb_ge i 0)) by exact Hi.
  rewrite (lookup_ge_None_2 st (Z.to_nat i)) by exact Hlen.
  rewrite !length_app, length_replicate. cbn. lia.
Qed.

Lemma tallyOf_length_mono (idxs : list Z) (st : list Cell) :
  (length st ≤ length (tallyOf idxs st))%nat.
Proof.
  revert st. induction idxs as [|i idxs IH]; intros st; [cbn; lia|].
  rewrite tallyOf_cons. etransitivity; [apply (Array_increment_length_mono i)|apply IH].
Qed.

Lemma tallyOf_overflow (idxs : list Z) (st : list Cell) :
  (4 ≤ length st)%nat → Exists (λ i, 4 ≤ i) idxs →
  (4 < length (tallyOf idxs st))%nat.
Proof.
  intros Hlen Hex. revert st Hlen.
  induction Hex as [i idxs Hi | i idxs _ IH]; intros st Hlen; rewrite tallyOf_cons.
  - eapply Nat.lt_le_trans; [|apply tallyOf_length_mono].
    destruct (decide (length st ≤ Z.to_nat i)%nat) as [Hle | Hgt].
    + rewrite Array_increment_grow by lia. lia.
    + pose proof (Array_increment_length_mono i st). lia.
  - apply IH. pose proof (Array_increment_length_mono i st). lia.
Qed.

Lemma tallyOf_below (idxs : list Z) (a b c d : Z) :
  Forall (λ i, i ≤ 3) idxs →
  ∃ a' b' c' d',
    tallyOf idxs [num a; num b; num c; num d] = [num a'; num b'; num c'; num d']
    ∧ a' + b' + c' + d'
      = a + b + c + d + Z.of_nat (length (List.filter (Z.leb 0) idxs)).
Proof.
  intros Hr. revert a b c d.
  induction Hr as [|i idxs Hi _ IH]; intros a b c d.
  - exists a, b, c, d. cbn. split; [reflexivity | lia].
  - rewrite tallyOf_cons. cbn [List.filter].
    destruct (Array_increment_four a b c d) as (E0 & E1 & E2 & E3).
    assert (Hcases : i < 0 ∨ i = 0 ∨ i = 1 ∨ i = 2 ∨ i = 3) by lia.
    destruct Hcases as [Hneg | [-> | [-> | [-> | ->]]]].
    + unfold Array_increment. rewrite (proj2 (Z.ltb_lt i 0)) by exact Hneg.
      rewrite (proj2 (Z.leb_gt 0 i)) by exact Hneg. apply IH.
    + rewrite E0. destruct (IH (a + 1) b c d) as (a' & b' & c' & d' & -> & Hs).
      exists a', b', c', d'. cbn. split; [reflexivity | lia].
    + rewrite E1. destruct (IH a (b + 1) c d) as (a' & b' & c' & d' & -> & Hs).
      exists a', b', c', d'. cbn. split; [reflexivity | lia].
    + rewrite E2. destruct (IH a b (c + 1) d) as (a' & b' & c' & d' & -> & Hs).
      exists a', b', c', d'. cbn. split; [reflexivity | lia].
    + rewrite E3. destruct (IH a b c (d + 1)) as (a' & b' & c' & d' & -> & Hs).
      exists a', b', c', d'. cbn. split; [reflexivity | lia].
Qed.

Lemma filter_nonneg_short (idxs : list Z) :
  Exists (λ i, i < 0) idxs →
  (length (List.filter (Z.leb 0) idxs) < length idxs)%nat.
Proof.
  induction 1 as [i idxs Hi | i idxs _ IH]; cbn [List.filter].
  - rewrite (proj2 (Z.leb_gt 0 i)) by exact Hi.
    pose proof (List.filter_length_le (Z.leb 0) idxs). cbn. lia.
  - destruct (0 <=? i); cbn; lia.
Qed.

(** Four counters that account for every index exist only when every
    index is one of 0, 1, 2, 3. *)
Lemma tallyOf_wellformed_in_range (idxs : list Z) (a b c d : Z) :
  tallyOf idxs [num 0; num 0; num 0; num 0] = [num a; num b; num c; num d] →
  a + b + c + d = Z.of_nat (length idxs) →
  Forall (λ i, 0 ≤ i ≤ 3) idxs.
Proof.
  intros Hst Hsum.
  destruct (decide (Forall (λ i, i ≤ 3) idxs)) as [Hle | Hbig].
  - destruct (decide (Forall (λ i, 0 ≤ i) idxs)) as [Hge | Hneg].
    + rewrite Forall_forall in *. intros i Hi. split; auto.
    + exfalso. apply not_Forall_Exists in Hneg; [|intros i; apply _].
      destruct (tallyOf_below idxs 0 0 0 0 Hle) as (a' & b' & c' & d' & E & Hs).
      rewrite Hst in E. injection E as <- <- <- <-.
      assert (Hex : Exists (λ i, i < 0) idxs).
      { eapply Exists_impl; [exact Hneg|]. cbn. intros; lia. }
      pose proof (filter_nonneg_short idxs Hex). lia.
  - exfalso. apply not_Forall_Exists in Hbig; [|intros i; apply _].
    assert (Hex : Exists (λ i, 4 ≤ i) idxs).
    { eapply Exists_impl; [exact Hbig|]. cbn. intros; lia. }
    pose proof (tallyOf_overflow idxs [num 0; num 0; num 0; num 0] ltac:(cbn; lia) Hex) as Hlen.
    rewrite Hst in Hlen. cbn in Hlen. lia.
Qed.

Lemma selections_in_range (m : JsMap Player) :
  Forall (λ i, 0 ≤ i ≤ 3) (selections m)
  ↔ ∀ k p i, In (k, p) m → currentAnswer p = Some i → 0 ≤ i ≤ 3.
Proof.
  unfold selections, Map_values. split.
  - intros Hall k p i Hin Hi. rewrite Forall_forall in Hall. apply Hall.
    apply list_elem_of_omap. exists p. split; [|exact Hi].
    apply list_elem_of_In. change p with (snd (k, p)). now apply List.in_map.
  - intros Hall. apply Forall_forall. intros i Hi.
    apply list_elem_of_omap in Hi as (p & Hp & Hi).
    apply list_elem_of_In, List.in_map_iff in Hp as ([k p'] & E & Hin).
    cbn in E. subst p'. eauto.
Qed.

(** The tally of [player:answer] is well formed exactly when every
    selected index lies in [0,3]. *)
Lemma answerStats_wellformed_iff (m : JsMap Player) :
  tally_wellformed m (answerStats m)
  ↔ ∀ k p i, In (k, p) m → currentAnswer p = Some i → 0 ≤ i ≤ 3.
Proof.
  rewrite <- selections_in_range. unfold tally_wellformed, selected.
  rewrite answerStats_selections, answeredCount_selections. split.
  - intros [Hst Hsum]. eapply tallyOf_wellformed_in_range; eauto.
  - intros Hall. destruct (tallyOf_in_range (selections m) 0 0 0 0 Hall) as [-> Hsum].
    split; [reflexivity | exact Hsum].
Qed.

(** ** The answer handler *)

Lemma sessions_get_Some (w : World) (sid : string) (s : Session) :
  sessions_get (Some sid) w = Some s ↔ sid ∈ sessions w ∧ store w !! sid = Some s.
Proof.
  unfold sessions_get. destruct (decide (sid ∈ sessions w)); split; intros; intuition congruence.
Qed.

Lemma player_answer_recorded (w : World) (c sid : string) (s : Session) (p : Player) (a : Z) :
  socket_sessionId (getSocket c w) = Some sid →
  sessions_get (Some sid) w = Some s →
  status s = playing →
  Map_get c (players s) = Some p →
  player_answer c a w
  = let ps := Map_set c (recordAnswer (timeLeft s) a p) (players s) in
    Some (emit (io_to (hostSocketId s)) (host_answerStats (answerStats ps))
            (emit (io_to (Some sid)) (host_answerCount (answeredCount ps) (Map_size ps))
               (put_session sid (set_players ps s) w))).
Proof.
  intros Hsock Hget Hst Hp. unfold player_answer.
  rewrite Hsock, Hget, Hst, Hp.
  rewrite bool_decide_eq_true_2 by reflexivity. reflexivity.
Qed.

(** Outside [playing], or for a socket without a session or a player
    record, a submission changes nothing. *)
Lemma player_answer_ignored (w : World) (c : string) (a : Z) :
  (∀ sid s, socket_sessionId (getSocket c w) = Some sid →
            sessions_get (Some sid) w = Some s →
            status s ≠ playing ∨ Map_get c (players s) = None) →
  player_answer c a w = Some w.
Proof.
  intros Hno. unfold player_answer.
  destruct (socket_sessionId (getSocket c w)) as [sid|] eqn:Hsock; [|reflexivity].
  destruct (sessions_get (Some sid) w) as [s|] eqn:Hget; [|reflexivity].
  destruct (Hno sid s eq_refl Hget) as [Hst | Hp].
  - rewrite bool_decide_eq_false_2 by exact Hst. reflexivity.
  - rewrite Hp. destruct (negb _); reflexivity.
Qed.

(** What a submission of socket [d] leaves alone. *)
Lemma player_answer_frame (w w' : World) (d : string) (b : Z) :
  player_answer d b w = Some w' →
  sessions w' = sessions w ∧ sockets w' = sockets w ∧ tasks w' = tasks w ∧
  ∀ sid s, store w !! sid = Some s →
    ∃ s', store w' !! sid = Some s' ∧ status s' = status s ∧
          timeLeft s' = timeLeft s ∧
          ∀ k, k ≠ d → Map_get k (players s') = Map_get k (players s).
Proof.
  unfold player_answer.
  destruct (socket_sessionId (getSocket d w)) as [sd|] eqn:Hsock.
  2:{ intros [= <-]. repeat split; eauto. }
  destruct (sessions_get (Some sd) w) as [s0|] eqn:Hget.
  2:{ intros [= <-]. repeat split; eauto. }
  destruct (negb _).
  { intros [= <-]. repeat split; eauto. }
  destruct (Map_get d (players s0)) as [p|] eqn:Hp.
  2:{ intros [= <-]. repeat split; eauto. }
  intros [= <-]. cbn. repeat split.
  intros sid s Hs. apply sessions_get_Some in Hget as [_ Hs0].
  destruct (decide (sd = sid)) as [-> | Hne].
  - rewrite lookup_insert_eq. eexists. split; [reflexivity|].
    assert (s0 = s) by congruence. subst s0. cbn. repeat split.
    intros k Hk. now apply Map_get_set_ne.
  - rewrite lookup_insert_ne by exact Hne. eauto.
Qed.

(** A tick of the question timer before the last second. *)
Lemma question_tick_running (w : World) (sid : string) (s : Session) :
  store w !! sid = Some s → 1 < timeLeft s →
  question_tick sid w
  = Some (put_session sid (set_timeLeft (timeLeft s - 1) s)
            (emit (io_to (Some (session_id s))) (quiz_timer (timeLeft s - 1)) w)).
Proof.
  intros Hs Ht. unfold question_tick. rewrite Hs. cbn.
  rewrite (proj2 (Z.leb_gt (timeLeft s - 1) 0)) by lia. reflexivity.
Qed.

Section SameQuestion.
Context `{CaseFold}.

Lemma run_same_question (c sid : string) (h : nat) (T : option Z) (es : list Event) :
  ∀ (w : World) (s : Session) (p : Player) (b : Z),
    socket_sessionId (getSocket c w) = Some sid →
    sessions_get (Some sid) w = Some s →
    status s = playing →
    Map_get c (players s) = Some p →
    currentAnswer p = Some b → answerTime p = T →
    tasks w !! h = Some (question_interval sid) →
    Forall (submission_or_tick h) es →
    Z.of_nat (ticks h es) < timeLeft s →
    ∃ w' s' p',
      run es w = Some w' ∧
      sessions_get (Some sid) w' = Some s' ∧ status s' = playing ∧
      Map_get c (players s') = Some p' ∧
      currentAnswer p' = Some (lastAnswer c b es) ∧ answerTime p' = T.
Proof.
  induction es as [|e es IH]; intros w s p b Hsock Hget Hst Hp Hb HT Hh Hes Hticks.
  { exists w, s, p. cbn. repeat split; auto. }
  apply Forall_cons in Hes as [He Hes].
  destruct e as [| | |d a| | |h']; cbn in He; try contradiction.
  - (* a submission by socket [d] *)
    cbn [run step].
    destruct (decide (d = c)) as [-> | Hdc].
    + rewrite (player_answer_recorded w c sid s p a Hsock Hget Hst Hp).
      cbn zeta. cbn [mbind option_bind].
      apply sessions_get_Some in Hget as [Hreg Hs].
      replace (lastAnswer c b (ev_player_answer c a :: es)) with (lastAnswer c a es)
        by (unfold lastAnswer; cbn; now rewrite String.eqb_refl).
      eapply IH with (b := a); try exact Hes.
      * exact Hsock.
      * apply sessions_get_Some. cbn. split; [exact Hreg | apply lookup_insert_eq].
      * exact Hst.
      * cbn. apply Map_get_set_eq.
      * reflexivity.
      * cbn. rewrite Hb. exact HT.
      * exact Hh.
      * cbn. unfold ticks in *. cbn [List.filter] in Hticks. exact Hticks.
    + destruct (player_answer d a w) as [w1|] eqn:Hstep.
      2:{ exfalso. revert Hstep. unfold player_answer.
          repeat (case_match; try discriminate). }
      cbn [mbind option_bind].
      destruct (player_answer_frame w w1 d a Hstep) as (Hreg1 & Hsk1 & Htk1 & Hfr).
      apply sessions_get_Some in Hget as [Hreg Hs].
      destruct (Hfr sid s Hs) as (s1 & Hs1 & Hst1 & Htl1 & Hpl1).
      destruct (IH w1 s1 p b) as (w' & s' & p' & Hrun & Hrest); try assumption.
      * unfold getSocket. rewrite Hsk1. exact Hsock.
      * apply sessions_get_Some. rewrite Hreg1. auto.
      * congruence.
      * rewrite Hpl1 by congruence. exact Hp.
      * congruence.
      * rewrite Htl1. unfold ticks in *. cbn [List.filter] in Hticks. exact Hticks.
      * exists w', s', p'. split; [exact Hrun|].
        unfold lastAnswer in *. cbn [foldl].
        rewrite (proj2 (String.eqb_neq d c)) by exact Hdc. exact Hrest.
  - (* a tick of the question timer *)
    subst h'. cbn [run step]. unfold fire. rewrite Hh.
    apply sessions_get_Some in Hget as [Hreg Hs].
    assert (Htl : 1 < timeLeft s).
    { unfold ticks in Hticks. cbn [List.filter] in Hticks.
      rewrite Nat.eqb_refl in Hticks. cbn [length] in Hticks. lia. }
    rewrite (question_tick_running w sid s Hs Htl). cbn [mbind option_bind].
    eapply IH with (b := b) (p := p); try exact Hes.
    + exact Hsock.
    + apply sessions_get_Some. cbn. split; [exact Hreg | apply lookup_insert_eq].
    + exact Hst.
    + exact Hp.
    + exact Hb.
    + exact HT.
    + exact Hh.
    + cbn. unfold ticks in *. cbn [List.filter] in Hticks.
      rewrite Nat.eqb_refl in Hticks. cbn [length] in Hticks. lia.
Qed.

(** C7. The first answer a player submits for a question records the
    countdown value of that moment as the player's answer time; later
    submissions during the same question (while the countdown runs on)
    leave it as it is, and every submission replaces the selected
    option. *)
Theorem first_answer_time_frozen (w : World) (c sid : string) (s : Session) (p : Player)
    (a : Z) (h : nat) (es : list Event) :
  socket_sessionId (getSocket c w) = Some sid →
  sessions_get (Some sid) w = Some s →
  status s = playing →
  Map_get c (players s) = Some p →
  tasks w !! h = Some (question_interval sid) →
  Forall (submission_or_tick h) es →
  Z.of_nat (ticks h es) < timeLeft s →
  ∃ w' s' p',
    run (ev_player_answer c a :: es) w = Some w' ∧
    sessions_get (Some sid) w' = Some s' ∧
    Map_get c (players s') = Some p' ∧
    currentAnswer p' = Some (lastAnswer c a es) ∧
    answerTime p' = match currentAnswer p with
                    | None => Some (timeLeft s)
                    | Some _ => answerTime p
                    end.
Proof.
  intros Hsock Hget Hst Hp Hh Hes Hticks.
  cbn [run step]. rewrite (player_answer_recorded w c sid s p a Hsock Hget Hst Hp).
  cbn zeta. cbn [mbind option_bind].
  apply sessions_get_Some in Hget as [Hreg Hs].
  set (ps := Map_set c (recordAnswer (timeLeft s) a p) (players s)).
  destruct (run_same_question c sid h
              (match currentAnswer p with
               | None => Some (timeLeft s)
               | Some _ => answerTime p
               end) es
              (emit (io_to (hostSocketId s)) (host_answerStats (answerStats ps))
                 (emit (io_to (Some sid)) (host_answerCount (answeredCount ps) (Map_size ps))
                    (put_session sid (set_players ps s) w)))
              (set_players ps s) (recordAnswer (timeLeft s) a p) a)
    as (w' & s' & p' & Hrun & Hget' & _ & Hp' & Hc' & Ht').
  - exact Hsock.
  - apply sessions_get_Some. cbn. split; [exact Hreg | apply lookup_insert_eq].
  - exact Hst.
  - cbn. apply Map_get_set_eq.
  - reflexivity.
  - reflexivity.
  - exact Hh.
  - exact Hes.
  - exact Hticks.
  - exists w', s', p'. split; [exact Hrun|]. split; [exact Hget'|].
    split; [exact Hp'|]. split; [exact Hc'|]. exact Ht'.
Qed.
End SameQuestion.

(** C10. The answer handler stores whatever index is submitted, without a
    range check, and the tally it sends to the host is the length-4 array
    indexed by the stored values: that tally is well formed exactly when
    every selected index lies in [0,3]. *)
Theorem answer_index_unchecked (w : World) (c sid : string) (s : Session) (p : Player)
    (a : Z) :
  socket_sessionId (getSocket c w) = Some sid →
  sessions_get (Some sid) w = Some s →
  status s = playing →
  Map_get c (players s) = Some p →
  ∃ w' s',
    player_answer c a w = Some w' ∧
    sessions_get (Some sid) w' = Some s' ∧
    (currentAnswer <$> Map_get c (players s')) = Some (Some a) ∧
    last (emitted w')
    = Some (io_to (hostSocketId s), host_answerStats (answerStats (players s'))) ∧
    (tally_wellformed (players s') (answerStats (players s'))
     ↔ ∀ k p' i, In (k, p') (players s') → currentAnswer p' = Some i → 0 ≤ i ≤ 3).
Proof.
  intros Hsock Hget Hst Hp.
  rewrite (player_answer_recorded w c sid s p a Hsock Hget Hst Hp). cbn zeta.
  apply sessions_get_Some in Hget as [Hreg Hs].
  eexists _, (set_players (Map_set c (recordAnswer (timeLeft s) a p) (players s)) s).
  split; [reflexivity|]. split.
  { apply sessions_get_Some. cbn. split; [exact Hreg | apply lookup_insert_eq]. }
  split. { cbn [players set_players]. now rewrite Map_get_set_eq. }
  split. { cbn. now rewrite last_snoc. }
  apply answerStats_wellformed_iff.
Qed.

(** ** The join handler *)

Lemma find_None_Forall {A : Type} (f : A → bool) (l : list A) :
  List.find f l = None ↔ Forall (λ x, f x = false) l.
Proof.
  induction l as [|x l IH]; cbn.
  - split; [constructor | reflexivity].
  - destruct (f x) eqn:E.
    + split; [discriminate|]. intros Hall. apply Forall_cons in Hall as [Hx _]. congruence.
    + rewrite IH. split; [now constructor | now intros [_ ?]%Forall_cons].
Qed.

Lemma find_values_entries {V : Type} (f : V → bool) (m : JsMap V) :
  List.find f (Map_values m) = snd <$> List.find (λ e, f (snd e)) (Map_entries m).
Proof.
  unfold Map_values, Map_entries. induction m as [|[k v] m IH]; cbn; [reflexivity|].
  destruct (f v); [reflexivity | exact IH].
Qed.

Lemma joined_session (c sid : string) (s : Session) (ps : JsMap Player) (w : World) :
  sid ∈ sessions w →
  sessions_get (Some sid) (joined c sid s ps w) = Some (set_players ps s)
  ∧ sockets (joined c sid s ps w) !! c = Some (mkSocket (Some sid) false)
  ∧ emitted (joined c sid s ps w)
    = emitted w ++ [(io_to (Some sid), lobby_players (quizName s) (roster ps))].
Proof.
  intros Hreg. split; [|split].
  - apply sessions_get_Some. cbn. split; [exact Hreg | apply lookup_insert_eq].
  - cbn. apply lookup_insert_eq.
  - reflexivity.
Qed.

Section JoinFacts.
Context `{CaseFold}.

(** The duplicate check of a new player can never fire: a name that
    collides is a name that matches, and a match is a reconnect. *)
Lemma no_match_no_collision (nm : string) (m : JsMap Player) :
  Forall (λ e, sameName nm (snd e) = false) m →
  toLowerCase nm ∉ existingNames m.
Proof.
  unfold existingNames, Map_values. intros Hall Hin.
  apply list_elem_of_In in Hin. rewrite List.map_map in Hin.
  apply List.in_map_iff in Hin as (e & E & Hin).
  rewrite List.Forall_forall in Hall. specialize (Hall e Hin).
  unfold sameName in Hall. rewrite E, String.eqb_refl in Hall. discriminate.
Qed.

Lemma player_join_not_found (w : World) (c sid nm : string) :
  sessions_get (Some sid) w = None →
  player_join c sid nm w = Some (emit (socket_emit c) (error Session_not_found) w).
Proof. intros Hget. unfold player_join. now rewrite Hget. Qed.

Lemma player_join_reconnect (w : World) (c sid nm : string) (s : Session) :
  sessions_get (Some sid) w = Some s → Map_wf (players s) →
  Exists (λ e, sameName nm (snd e) = true) (players s) →
  ∃ old p,
    In (old, p) (players s) ∧ sameName nm p = true ∧
    player_join c sid nm w
    = Some (joined c sid s (Map_set c p (Map_delete old (players s))) w).
Proof.
  intros Hget Hwf Hex. unfold player_join. rewrite Hget.
  rewrite find_values_entries.
  destruct (List.find (λ e, sameName nm (snd e)) (Map_entries (players s)))
    as [[old p]|] eqn:F.
  2:{ exfalso. apply find_None_Forall in F. unfold Map_entries in F.
      rewrite List.Exists_exists in Hex. destruct Hex as (e & Hin & He).
      rewrite List.Forall_forall in F. specialize (F e Hin). congruence. }
  apply List.find_some in F as [Hin Hsame]. cbn [fst snd] in *.
  exists old, p. split; [exact Hin|]. split; [exact Hsame|].
  cbn [fmap option_fmap option_map].
  rewrite (bool_decide_eq_true_2 (is_Some (Some p))) by eauto.
  cbn [negb andb]. rewrite Bool.andb_false_r.
  cbn [mbind option_bind fst].
  unfold Map_entries in Hin. rewrite (Map_get_In old p (players s) Hwf Hin).
  reflexivity.
Qed.

Lemma player_join_no_match (w : World) (c sid nm : string) (s : Session) :
  sessions_get (Some sid) w = Some s →
  Forall (λ e, sameName nm (snd e) = false) (players s) →
  player_join c sid nm w
  = if decide (status s = lobby) then
      if decide (toLowerCase nm ∈ existingNames (players s)) then
        Some (emit (socket_emit c) (error Name_already_taken) w)
      else
        Some (joined c sid s (Map_set c (mkPlayer nm 0 None None) (players s)) w)
    else Some (emit (socket_emit c) (error Quiz_has_already_started) w).
Proof.
  intros Hget Hno. unfold player_join. rewrite Hget.
  assert (F : List.find (sameName nm) (Map_values (players s)) = None).
  { rewrite find_values_entries.
    now rewrite (proj2 (find_None_Forall _ (Map_entries (players s))) Hno). }
  rewrite F. rewrite (bool_decide_eq_false_2 (is_Some None)) by (intros [? ?]; discriminate).
  cbn [negb]. rewrite Bool.andb_true_r.
  destruct (decide (status s = lobby)) as [Hl | Hl].
  - rewrite (bool_decide_eq_true_2 _ Hl). cbn [negb].
    destruct (decide (toLowerCase nm ∈ existingNames (players s))) as [Hd | Hd].
    + now rewrite (bool_decide_eq_true_2 _ Hd).
    + now rewrite (bool_decide_eq_false_2 _ Hd).
  - now rewrite (bool_decide_eq_false_2 _ Hl).
Qed.
End JoinFacts.

Section JoinClaim.
Context `{CaseFold}.

(** C4. [player:join] fails with "Session not found" when the session is
    absent; a name that matches an existing player case-insensitively is a
    reconnect, which moves that player's record (score included) from its
    old socket id to the new one and drops the old entry; without a match
    it fails with "Quiz has already started" outside the lobby; in the
    lobby it fails with the name-taken message when the lower-cased name is
    among the existing ones, and otherwise adds a new player with score
    0. *)
Theorem player_join_outcomes (w : World) (c sid nm : string) :
  (sessions_get (Some sid) w = None →
   player_join c sid nm w = Some (emit (socket_emit c) (error Session_not_found) w))
  ∧
  (∀ s, sessions_get (Some sid) w = Some s → Map_wf (players s) →
     (Exists (λ e, sameName nm (snd e) = true) (players s) →
      ∃ old p w',
        In (old, p) (players s) ∧ sameName nm p = true ∧
        player_join c sid nm w = Some w' ∧
        sessions_get (Some sid) w'
        = Some (set_players (Map_set c p (Map_delete old (players s))) s) ∧
        Map_get c (Map_set c p (Map_delete old (players s))) = Some p ∧
        (old ≠ c → Map_get old (Map_set c p (Map_delete old (players s))) = None))
     ∧
     (Forall (λ e, sameName nm (snd e) = false) (players s) →
      (status s ≠ lobby →
       player_join c sid nm w
       = Some (emit (socket_emit c) (error Quiz_has_already_started) w))
      ∧
      (status s = lobby → toLowerCase nm ∈ existingNames (players s) →
       player_join c sid nm w
       = Some (emit (socket_emit c) (error Name_already_taken) w))
      ∧
      (status s = lobby → toLowerCase nm ∉ existingNames (players s) →
       ∃ w',
         player_join c sid nm w = Some w' ∧
         sessions_get (Some sid) w'
         = Some (set_players (Map_set c (mkPlayer nm 0 None None) (players s)) s) ∧
         Map_get c (Map_set c (mkPlayer nm 0 None None) (players s))
         = Some (mkPlayer nm 0 None None)))).
Proof.
  split; [apply player_join_not_found|].
  intros s Hget Hwf.
  pose proof (proj1 (sessions_get_Some w sid s) Hget) as [Hreg _].
  split.
  - intros Hex.
    destruct (player_join_reconnect w c sid nm s Hget Hwf Hex) as (old & p & Hin & Hsame & Hrun).
    exists old, p, (joined c sid s (Map_set c p (Map_delete old (players s))) w).
    split; [exact Hin|]. split; [exact Hsame|]. split; [exact Hrun|].
    split; [apply joined_session, Hreg|].
    split; [apply Map_get_set_eq|].
    intros Hne. rewrite Map_get_set_ne by congruence. apply Map_get_delete_eq.
  - intros Hno. rewrite (player_join_no_match w c sid nm s Hget Hno).
    split; [|split].
    + intros Hl. now rewrite decide_False by exact Hl.
    + intros Hl Hd. now rewrite decide_True, decide_True by assumption.
    + intros Hl Hd. rewrite decide_True, decide_False by assumption.
      eexists. split; [reflexivity|].
      split; [apply joined_session, Hreg | apply Map_get_set_eq].
Qed.
End JoinClaim.

(** ** The start handler *)


Lemma clampLimit_range (l : Z) : 5 ≤ clampLimit l ≤ 120.
Proof. unfold clampLimit. lia. Qed.

Lemma host_start_unauthorized (w : World) (c : string) (data : option Z) :
  (∀ sid s, socket_sessionId (getSocket c w) = Some sid →
            sessions_get (Some sid) w = Some s → hostSocketId s ≠ Some c) →
  host_start c data w = Some (emit (socket_emit c) (error Not_authorized) w).
Proof.
  intros Hno. unfold host_start.
  destruct (socket_sessionId (getSocket c w)) as [sid|] eqn:Hsock; [|reflexivity].
  destruct (sessions_get (Some sid) w) as [s|] eqn:Hget; [|reflexivity].
  now rewrite (bool_decide_eq_false_2 _ (Hno sid s eq_refl Hget)).
Qed.

Lemma host_start_no_players (w : World) (c sid : string) (s : Session) (data : option Z) :
  socket_sessionId (getSocket c w) = Some sid →
  sessions_get (Some sid) w = Some s →
  hostSocketId s = Some c → players s = [] →
  host_start c data w = Some (emit (socket_emit c) (error Need_at_least_one_player) w).
Proof.
  intros Hsock Hget Hhost Hnil. unfold host_start. rewrite Hsock, Hget.
  rewrite (bool_decide_eq_true_2 _ Hhost). cbn [negb].
  rewrite bool_decide_eq_true_2; [reflexivity|]. unfold Map_size. now rewrite Hnil.
Qed.


Lemma host_start_throws (w : World) (c sid : string) (s : Session) (data : option Z) :
  socket_sessionId (getSocket c w) = Some sid →
  sessions_get (Some sid) w = Some s →
  hostSocketId s = Some c → players s ≠ [] →
  questions s = [] →
  host_start c data w = None.
Proof.
  intros Hsock Hget Hhost Hne Hq. unfold host_start. rewrite Hsock, Hget.
  rewrite (bool_decide_eq_true_2 _ Hhost). cbn [negb].
  rewrite bool_decide_eq_false_2.
  2:{ unfold Map_size. destruct (players s); [congruence | discriminate]. }
  unfold sendQuestion. cbn [store put_session set_store].
  rewrite lookup_insert_eq. cbn [mbind option_bind].
  cbn [questions currentQuestionIndex set_players set_currentQuestionIndex set_status
       set_timeLimit]. now rewrite Hq.
Qed.



(** ** The disconnect handler *)




(** ** The lifecycle status outside [host:start] *)

Lemma status_forward_refl (w w' : World) : store w' = store w → status_forward w w'.
Proof. intros E sid s Hs. exists s. rewrite E. split; [exact Hs | lia]. Qed.

Lemma status_forward_trans (w1 w2 w3 : World) :
  status_forward w1 w2 → status_forward w2 w3 → status_forward w1 w3.
Proof.
  intros H12 H23 sid s Hs.
  destruct (H12 sid s Hs) as (s2 & Hs2 & Hle2).
  destruct (H23 sid s2 Hs2) as (s3 & Hs3 & Hle3).
  exists s3. split; [exact Hs3 | lia].
Qed.

Lemma status_forward_put (w w' : World) (k : string) (s0 s1 : Session) :
  store w !! k = Some s0 → (rank (status s0) ≤ rank (status s1))%nat →
  store w' = <[k := s1]> (store w) →
  status_forward w w'.
Proof.
  intros H0 Hle E sid s Hs. rewrite E.
  destruct (decide (k = sid)) as [-> | Hne].
  - exists s1. rewrite lookup_insert_eq. split; [reflexivity|]. congruence.
  - exists s. rewrite lookup_insert_ne by exact Hne. split; [exact Hs | lia].
Qed.

Lemma store_clearInterval (h : option nat) (w : World) :
  store (clearInterval h w) = store w.
Proof. destruct h; reflexivity. Qed.

Lemma sendQuestion_forward (sid : string) (w w' : World) :
  sendQuestion sid w = Some w' → status_forward w w'.
Proof.
  unfold sendQuestion. destruct (store w !! sid) as [s|] eqn:Hs; [|discriminate].
  cbn [mbind option_bind]. cbn [questions currentQuestionIndex set_players].
  destruct (questions s !! currentQuestionIndex s) as [q|]; [|discriminate].
  cbn [mbind option_bind]. intros [= <-].
  eapply status_forward_put; [exact Hs | | reflexivity]. cbn. lia.
Qed.

Lemma endQuestion_forward (sid : string) (w w' : World) :
  endQuestion sid w = Some w' → status_forward w w'.
Proof.
  intros Hrun. unfold endQuestion in Hrun.
  destruct (store w !! sid) as [s|] eqn:Hs; [|discriminate].
  cbn [mbind option_bind] in Hrun.
  destruct (questions s !! currentQuestionIndex s) as [q|] eqn:Hq; [|discriminate].
  destruct (endQuestion_unfold w sid s q Hs Hq) as (w1 & Hrun1 & Hstore & _).
  unfold endQuestion in Hrun1. rewrite Hs in Hrun1. cbn [mbind option_bind] in Hrun1.
  rewrite Hq in Hrun1. rewrite Hrun1 in Hrun. injection Hrun as <-.
  eapply status_forward_put; [exact Hs | | exact Hstore]. cbn. lia.
Qed.

Lemma endQuiz_forward (sid : string) (w w' : World) :
  endQuiz sid w = Some w' → status_forward w w'.
Proof.
  unfold endQuiz. destruct (store w !! sid) as [s|] eqn:Hs; [|discriminate].
  cbn [mbind option_bind]. intros [= <-].
  eapply status_forward_put; [exact Hs | | reflexivity].
  cbn. destruct (status s); cbn; lia.
Qed.

Lemma fire_forward (h : nat) (w w' : World) :
  fire h w = Some w' → status_forward w w'.
Proof.
  unfold fire. destruct (tasks w !! h) as [[sid|sid n isLast|id]|].
  - (* the question timer *)
    unfold question_tick. destruct (store w !! sid) as [s|] eqn:Hs; [|discriminate].
    cbn [mbind option_bind]. cbn [timeLeft set_timeLeft].
    destruct (timeLeft s - 1 <=? 0).
    + intros Hend. eapply status_forward_trans; [|apply (endQuestion_forward _ _ _ Hend)].
      apply (status_forward_put _ _ sid s (set_timer None (set_timeLeft (timeLeft s - 1) s)));
        [exact Hs | cbn; lia |].
      cbn [store put_session set_store]. now rewrite store_clearInterval.
    + intros [= <-]. eapply status_forward_put; [exact Hs | | reflexivity]. cbn. lia.
  - (* the countdown to the next question *)
    unfold countdown_tick. destruct (store w !! sid) as [s|] eqn:Hs; [|discriminate].
    cbn [mbind option_bind]. destruct (n - 1 <? 0).
    + destruct isLast.
      * intros Hq. eapply status_forward_trans; [|apply (endQuiz_forward _ _ _ Hq)].
        now apply status_forward_refl.
      * destruct (decide (status s = playing)).
        -- intros Hq. eapply status_forward_trans; [|apply (sendQuestion_forward _ _ _ Hq)].
           now apply status_forward_refl.
        -- intros [= <-]. now apply status_forward_refl.
    + intros [= <-]. now apply status_forward_refl.
  - (* the clean-up timeout *)
    unfold cleanup_fire. cbn. destruct (decide _); intros [= <-]; now apply status_forward_refl.
  - intros [= <-]. now apply status_forward_refl.
Qed.

Lemma host_join_forward (c sid : string) (w w' : World) :
  host_join c sid w = Some w' → status_forward w w'.
Proof.
  unfold host_join. destruct (sessions_get (Some sid) w) as [s|] eqn:Hget.
  - intros [= <-]. apply sessions_get_Some in Hget as [_ Hs].
    eapply status_forward_put; [exact Hs | | reflexivity]. cbn. lia.
  - intros [= <-]. now apply status_forward_refl.
Qed.

Lemma player_answer_forward (c : string) (a : Z) (w w' : World) :
  player_answer c a w = Some w' → status_forward w w'.
Proof.
  intros Hrun sid s Hs.
  destruct (player_answer_frame w w' c a Hrun) as (_ & _ & _ & Hfr).
  destruct (Hfr sid s Hs) as (s' & Hs' & Hst & _).
  exists s'. split; [exact Hs'|]. rewrite Hst. lia.
Qed.

Lemma host_skip_forward (c : string) (w w' : World) :
  host_skip c w = Some w' → status_forward w w'.
Proof.
  unfold host_skip.
  destruct (socket_sessionId (getSocket c w)) as [sid|]; [|intros [= <-]; now apply status_forward_refl].
  destruct (sessions_get (Some sid) w) as [s|] eqn:Hget;
    [|intros [= <-]; now apply status_forward_refl].
  destruct (negb _); [intros [= <-]; now apply status_forward_refl|].
  apply sessions_get_Some in Hget as [_ Hs].
  intros Hend. eapply status_forward_trans; [|apply (endQuestion_forward _ _ _ Hend)].
  destruct (timer s).
  - eapply status_forward_put; [exact Hs | | reflexivity]. cbn. lia.
  - now apply status_forward_refl.
Qed.

Lemma disconnect_forward (c : string) (w w' : World) :
  disconnect c w = Some w' → status_forward w w'.
Proof.
  unfold disconnect.
  destruct (socket_sessionId (getSocket c w)) as [sid|]; [|intros [= <-]; now apply status_forward_refl].
  destruct (sessions_get (Some sid) _) as [s|] eqn:Hget;
    [|intros [= <-]; now apply status_forward_refl].
  apply sessions_get_Some in Hget as [_ Hs]. cbn in Hs.
  destruct (socket_isHost _).
  - intros [= <-]. apply status_forward_refl. destruct (timer s); reflexivity.
  - intros [= <-]. eapply status_forward_put; [exact Hs | | reflexivity]. cbn. lia.
Qed.

Section Lifecycle.
Context `{CaseFold}.

Lemma player_join_forward (c sid nm : string) (w w' : World) :
  player_join c sid nm w = Some w' → status_forward w w'.
Proof.
  unfold player_join. destruct (sessions_get (Some sid) w) as [s|] eqn:Hget.
  2:{ intros [= <-]. now apply status_forward_refl. }
  apply sessions_get_Some in Hget as [_ Hs].
  destruct (_ && _); [intros [= <-]; now apply status_forward_refl|].
  destruct (negb _).
  - destruct (bool_decide _); intros [= <-]; [now apply status_forward_refl|].
    eapply status_forward_put; [exact Hs | | reflexivity]. cbn. lia.
  - destruct (List.find _ (Map_entries _)) as [e|]; [|discriminate].
    cbn [mbind option_bind]. destruct (Map_get _ _) as [pd|]; [|discriminate].
    cbn [mbind option_bind]. intros [= <-].
    eapply status_forward_put; [exact Hs | | reflexivity]. cbn. lia.
Qed.

(** Every event other than [host:start] moves the status of a session
    forward or leaves it. *)
Lemma step_forward (w w' : World) (e : Event) :
  is_start e = false → step w e = Some w' → status_forward w w'.
Proof.
  destruct e; cbn [step is_start]; intros Hns Hstep; try discriminate.
  - eapply host_join_forward; eauto.
  - eapply player_join_forward; eauto.
  - eapply player_answer_forward; eauto.
  - eapply host_skip_forward; eauto.
  - eapply disconnect_forward; eauto.
  - eapply fire_forward; eauto.
Qed.

(** Without a [host:start] among the events the status of a session only
    moves lobby, playing, finished. *)
Lemma run_forward (es : list Event) (w w' : World) :
  forallb (λ e, negb (is_start e)) es = true →
  run es w = Some w' → status_forward w w'.
Proof.
  revert w. induction es as [|e es IH]; intros w Hns Hrun; cbn in *.
  - injection Hrun as <-. now apply status_forward_refl.
  - apply andb_prop in Hns as [He Hes]. apply Bool.negb_true_iff in He.
    destruct (step w e) as [w1|] eqn:Hstep; [|discriminate]. cbn in Hrun.
    eapply status_forward_trans; [eapply step_forward; eauto | eapply IH; eauto].
Qed.
End Lifecycle.

(** ** One countdown per session, when start and skip are issued in turn *)

Lemma isCountdownOf_true (sid : string) (t : Task) :
  isCountdownOf sid t = true ↔
  t = question_interval sid ∨ ∃ n b, t = countdown_interval sid n b.
Proof.
  destruct t as [s|s n b|id]; cbn.
  - rewrite String.eqb_eq. split; [intros ->; now left|]. intros [[= ->]|(? & ? & [=])]. reflexivity.
  - rewrite String.eqb_eq. split; [intros ->; right; eauto|].
    intros [[=]|(? & ? & [= -> _ _])]. reflexivity.
  - split; [discriminate|]. intros [[=]|(? & ? & [=])].
Qed.

(** Once the countdown of a session is cleared the session has none. *)
Lemma no_countdown_after_clear (w : World) (sid : string) (h : nat) (t : Task) :
  countdown_inv w → tasks w !! h = Some t → isCountdownOf sid t = true →
  no_countdown sid (delete h (tasks w)).
Proof.
  intros (_ & Hone & _) Hh Ht h' t' Hh'.
  destruct (decide (h = h')) as [<- | Hne].
  - rewrite lookup_delete_eq in Hh'. discriminate.
  - rewrite lookup_delete_ne in Hh' by exact Hne.
    destruct (isCountdownOf sid t') eqn:E; [|reflexivity].
    exfalso. apply Hne. eapply Hone; eauto.
Qed.

(** Tasks are only removed, and at most one session object is rewritten. *)
Lemma countdown_inv_shrink (w w' : World) (sid : string) (s0 s1 : Session) :
  countdown_inv w →
  (∀ h t, tasks w' !! h = Some t → tasks w !! h = Some t) →
  next_handle w' = next_handle w →
  store w !! sid = Some s0 →
  store w' = <[sid := s1]> (store w) →
  (timer s1 = timer s0 ∨ no_countdown sid (tasks w')) →
  (status s1 = lobby → status s0 = lobby) →
  countdown_inv w'.
Proof.
  intros (Hfresh & Hone & Htimer & Hlobby) Hsub Hnext Hs0 Hstore Ht Hst.
  split; [|split; [|split]].
  - intros h t Hh. rewrite Hnext. eauto.
  - intros sid' h1 h2 t1 t2 H1 H2. eauto.
  - intros sid' h Hh. destruct (Htimer sid' h (Hsub _ _ Hh)) as (s & Hs & Hts).
    rewrite Hstore. destruct (decide (sid = sid')) as [<- | Hne].
    + rewrite lookup_insert_eq. exists s1. split; [reflexivity|].
      destruct Ht as [Ht | Hnone].
      * congruence.
      * specialize (Hnone h _ Hh). cbn in Hnone. rewrite String.eqb_refl in Hnone. discriminate.
    + rewrite lookup_insert_ne by exact Hne. eauto.
  - intros sid' s Hs Hl h t Hh. rewrite Hstore in Hs.
    destruct (decide (sid = sid')) as [<- | Hne].
    + rewrite lookup_insert_eq in Hs. injection Hs as <-.
      eapply Hlobby; eauto.
    + rewrite lookup_insert_ne in Hs by exact Hne. eapply Hlobby; eauto.
Qed.

Lemma countdown_inv_same_store (w w' : World) :
  countdown_inv w →
  (∀ h t, tasks w' !! h = Some t → tasks w !! h = Some t) →
  next_handle w' = next_handle w → store w' = store w →
  countdown_inv w'.
Proof.
  intros (Hfresh & Hone & Htimer & Hlobby) Hsub Hnext Hstore.
  split; [|split; [|split]].
  - intros h t Hh. rewrite Hnext. eauto.
  - intros sid' h1 h2 t1 t2 H1 H2. eauto.
  - intros sid' h Hh. rewrite Hstore. eauto.
  - intros sid' s Hs Hl h t Hh. rewrite Hstore in Hs. eapply Hlobby; eauto.
Qed.

(** A task is added under a fresh handle. *)
Lemma countdown_inv_add (w w' : World) (sid : string) (s0 s1 : Session) (t : Task) :
  countdown_inv w →
  store w !! sid = Some s0 →
  tasks w' = <[next_handle w := t]> (tasks w) →
  next_handle w' = S (next_handle w) →
  store w' = <[sid := s1]> (store w) →
  (∀ sid', isCountdownOf sid' t = true → sid' = sid) →
  (isCountdownOf sid t = true → status s1 ≠ lobby ∧ no_countdown sid (tasks w)) →
  (t = question_interval sid → timer s1 = Some (next_handle w)) →
  (timer s1 = timer s0 ∨ no_countdown sid (tasks w)) →
  (status s1 = lobby → status s0 = lobby) →
  countdown_inv w'.
Proof.
  intros (Hfresh & Hone & Htimer & Hlobby) Hs0 Htasks Hnext Hstore Hown Hnew Hq Ht Hst.
  assert (Hold : ∀ h t', tasks w !! h = Some t' → h ≠ next_handle w).
  { intros h t' Hh ->. specialize (Hfresh _ _ Hh). lia. }
  split; [|split; [|split]].
  - intros h t' Hh. rewrite Hnext. rewrite Htasks in Hh.
    destruct (decide (next_handle w = h)) as [<- | Hne]; [lia|].
    rewrite lookup_insert_ne in Hh by exact Hne. specialize (Hfresh _ _ Hh). lia.
  - intros sid' h1 h2 t1 t2 H1 H2 C1 C2. rewrite Htasks in H1, H2.
    destruct (decide (next_handle w = h1)) as [<- | N1];
      destruct (decide (next_handle w = h2)) as [<- | N2]; [reflexivity| | |].
    + rewrite lookup_insert_eq in H1. injection H1 as <-.
      rewrite lookup_insert_ne in H2 by exact N2.
      pose proof (Hown _ C1) as ->. destruct (Hnew C1) as [_ Hnone].
      rewrite (Hnone _ _ H2) in C2. discriminate.
    + rewrite lookup_insert_eq in H2. injection H2 as <-.
      rewrite lookup_insert_ne in H1 by exact N1.
      pose proof (Hown _ C2) as ->. destruct (Hnew C2) as [_ Hnone].
      rewrite (Hnone _ _ H1) in C1. discriminate.
    + rewrite lookup_insert_ne in H1, H2 by assumption. eauto.
  - intros sid' h Hh. rewrite Htasks in Hh. rewrite Hstore.
    destruct (decide (next_handle w = h)) as [<- | Hne].
    + rewrite lookup_insert_eq in Hh. injection Hh as Hh.
      assert (sid' = sid) as ->.
      { apply Hown. rewrite Hh. cbn. apply String.eqb_refl. }
      rewrite lookup_insert_eq. exists s1. split; [reflexivity | now apply Hq].
    + rewrite lookup_insert_ne in Hh by exact Hne.
      destruct (Htimer sid' h Hh) as (s & Hs & Hts).
      destruct (decide (sid = sid')) as [<- | Hne'].
      * rewrite lookup_insert_eq. exists s1. split; [reflexivity|].
        destruct Ht as [Ht | Hnone]; [congruence|].
        specialize (Hnone h _ Hh). cbn in Hnone. rewrite String.eqb_refl in Hnone. discriminate.
      * rewrite lookup_insert_ne by exact Hne'. eauto.
  - intros sid' s Hs Hl h t' Hh. rewrite Hstore in Hs. rewrite Htasks in Hh.
    destruct (decide (sid = sid')) as [<- | Hne'].
    + rewrite lookup_insert_eq in Hs. injection Hs as <-.
      destruct (decide (next_handle w = h)) as [<- | Hne].
      * rewrite lookup_insert_eq in Hh. injection Hh as <-.
        destruct (isCountdownOf sid t) eqn:E; [|reflexivity].
        destruct (Hnew eq_refl) as [Hnl _]. contradiction.
      * rewrite lookup_insert_ne in Hh by exact Hne. eapply Hlobby; eauto.
    + rewrite lookup_insert_ne in Hs by exact Hne'.
      destruct (decide (next_handle w = h)) as [<- | Hne].
      * rewrite lookup_insert_eq in Hh. injection Hh as <-.
        destruct (isCountdownOf sid' t) eqn:E; [|reflexivity].
        exfalso. apply Hne'. symmetry. now apply Hown.
      * rewrite lookup_insert_ne in Hh by exact Hne. eapply Hlobby; eauto.
Qed.

(** The countdown to the next question counts one second down. *)
Lemma countdown_inv_replace (w w' : World) (sid : string) (h : nat) (n n' : Z) (b : bool) :
  countdown_inv w →
  tasks w !! h = Some (countdown_interval sid n b) →
  tasks w' = <[h := countdown_interval sid n' b]> (tasks w) →
  next_handle w' = next_handle w → store w' = store w →
  countdown_inv w'.
Proof.
  intros (Hfresh & Hone & Htimer & Hlobby) Hh Htasks Hnext Hstore.
  assert (Hback : ∀ h' t sid', tasks w' !! h' = Some t →
            ∃ t0, tasks w !! h' = Some t0 ∧ isCountdownOf sid' t0 = isCountdownOf sid' t
                  ∧ (∀ x, t = question_interval x → t0 = t)).
  { intros h' t sid' Hh'. rewrite Htasks in Hh'.
    destruct (decide (h = h')) as [<- | Hne].
    - rewrite lookup_insert_eq in Hh'. injection Hh' as <-.
      eexists. split; [exact Hh|]. split; [reflexivity|]. discriminate.
    - rewrite lookup_insert_ne in Hh' by exact Hne. eauto. }
  split; [|split; [|split]].
  - intros h' t Hh'. rewrite Hnext.
    destruct (Hback h' t sid Hh') as (t0 & H0 & _). eauto.
  - intros sid' h1 h2 t1 t2 H1 H2 C1 C2.
    destruct (Hback h1 t1 sid' H1) as (a1 & A1 & E1 & _).
    destruct (Hback h2 t2 sid' H2) as (a2 & A2 & E2 & _).
    eapply Hone; eauto; congruence.
  - intros sid' h' Hh'. rewrite Hstore.
    destruct (Hback h' _ sid' Hh') as (t0 & H0 & _ & Hq).
    rewrite (Hq sid' eq_refl) in H0. eauto.
  - intros sid' s Hs Hl h' t Hh'. rewrite Hstore in Hs.
    destruct (Hback h' t sid' Hh') as (t0 & H0 & E & _).
    rewrite <- E. eapply Hlobby; eauto.
Qed.

Lemma sendQuestion_unfold (w : World) (sid : string) (s : Session) (q : Question) :
  store w !! sid = Some s →
  questions s !! currentQuestionIndex s = Some q →
  ∃ w' s',
    sendQuestion sid w = Some w' ∧
    tasks w' = <[next_handle w := question_interval sid]> (tasks w) ∧
    next_handle w' = S (next_handle w) ∧
    sessions w' = sessions w ∧
    store w' = <[sid := s']> (store w) ∧
    timer s' = Some (next_handle w) ∧ status s' = status s ∧
    timeLeft s' = TIME_LIMIT s ∧ players s' = resetAnswers (players s) ∧
    timeLimit s' = timeLimit s.
Proof.
  intros Hs Hq. unfold sendQuestion. rewrite Hs. cbn [mbind option_bind].
  cbn [questions currentQuestionIndex set_players]. rewrite Hq. cbn [mbind option_bind].
  eexists _, _. split; [reflexivity|]. cbn. repeat split; reflexivity.
Qed.

Lemma sendQuestion_inv (w w' : World) (sid : string) (s : Session) :
  countdown_inv w → store w !! sid = Some s → status s ≠ lobby →
  no_countdown sid (tasks w) →
  sendQuestion sid w = Some w' → countdown_inv w'.
Proof.
  intros Hinv Hs Hst Hnone Hrun.
  destruct (questions s !! currentQuestionIndex s) as [q|] eqn:Hq.
  2:{ unfold sendQuestion in Hrun. rewrite Hs in Hrun. cbn in Hrun.
      rewrite Hq in Hrun. discriminate. }
  destruct (sendQuestion_unfold w sid s q Hs Hq)
    as (w1 & s' & Hrun1 & Htasks & Hnext & _ & Hstore & Htimer & Hst' & _).
  assert (w1 = w') by congruence. subst w1.
  apply (countdown_inv_add w w' sid s s' _ Hinv Hs Htasks Hnext Hstore).
  - intros sid' C. cbn in C. apply String.eqb_eq in C. congruence.
  - intros _. split; [congruence | exact Hnone].
  - intros _. exact Htimer.
  - right. exact Hnone.
  - intros Hl. congruence.
Qed.

Lemma endQuestion_inv (w w' : World) (sid : string) (s : Session) :
  countdown_inv w → store w !! sid = Some s → status s ≠ lobby →
  no_countdown sid (tasks w) →
  endQuestion sid w = Some w' → countdown_inv w'.
Proof.
  intros Hinv Hs Hst Hnone Hrun.
  destruct (questions s !! currentQuestionIndex s) as [q|] eqn:Hq.
  2:{ unfold endQuestion in Hrun. rewrite Hs in Hrun. cbn in Hrun.
      rewrite Hq in Hrun. discriminate. }
  destruct (endQuestion_unfold w sid s q Hs Hq)
    as (w1 & Hrun1 & Hstore & _ & _ & Htasks & Hnext & _).
  assert (w1 = w') by congruence. subst w1.
  apply (countdown_inv_add w w' sid s _ _ Hinv Hs Htasks Hnext Hstore).
  - intros sid' C. cbn in C. apply String.eqb_eq in C. congruence.
  - intros _. split; [exact Hst | exact Hnone].
  - discriminate.
  - left. reflexivity.
  - intros Hl. exact Hl.
Qed.

Lemma endQuiz_inv (w w' : World) (sid : string) :
  countdown_inv w → endQuiz sid w = Some w' → countdown_inv w'.
Proof.
  intros Hinv. unfold endQuiz. destruct (store w !! sid) as [s|] eqn:Hs; [|discriminate].
  cbn [mbind option_bind]. intros [= <-].
  apply (countdown_inv_add w _ sid s (set_status finished s)
           (cleanup_timeout (session_id (set_status finished s))) Hinv Hs);
    try reflexivity.
  - intros sid' [=].
  - intros [=].
  - discriminate.
  - left. reflexivity.
  - intros [=].
Qed.

(** The countdowns of a session after one of them was cleared and the
    session object rewritten. *)
Lemma countdown_inv_cleared (w : World) (sid : string) (s s1 : Session) (h : nat) (t : Task)
    (w1 : World) :
  countdown_inv w → store w !! sid = Some s →
  tasks w !! h = Some t → isCountdownOf sid t = true →
  tasks w1 = delete h (tasks w) → next_handle w1 = next_handle w →
  store w1 = <[sid := s1]> (store w) → status s1 = status s →
  countdown_inv w1 ∧ store w1 !! sid = Some s1 ∧ status s1 ≠ lobby
  ∧ no_countdown sid (tasks w1).
Proof.
  intros Hinv Hs Hh Ht Htasks Hnext Hstore Hst.
  assert (Hnone : no_countdown sid (tasks w1)).
  { rewrite Htasks. eapply no_countdown_after_clear; eauto. }
  assert (Hnl : status s ≠ lobby).
  { intros Hl. destruct Hinv as (_ & _ & _ & Hlobby).
    rewrite (Hlobby sid s Hs Hl h t Hh) in Ht. discriminate. }
  split; [|split; [|split]].
  - eapply (countdown_inv_shrink w w1 sid s s1); eauto.
    + intros h' t'. rewrite Htasks. intros Hl.
      destruct (decide (h = h')) as [<- | Hne].
      * rewrite lookup_delete_eq in Hl. discriminate.
      * now rewrite lookup_delete_ne in Hl.
    + congruence.
  - rewrite Hstore. apply lookup_insert_eq.
  - congruence.
  - exact Hnone.
Qed.

Lemma fire_inv (w w' : World) (h : nat) :
  countdown_inv w → fire h w = Some w' → countdown_inv w'.
Proof.
  intros Hinv. unfold fire.
  destruct (tasks w !! h) as [[sid|sid n isLast|id]|] eqn:Hh.
  - (* the question timer *)
    unfold question_tick. destruct (store w !! sid) as [s|] eqn:Hs; [|discriminate].
    cbn [mbind option_bind]. cbn [timeLeft set_timeLeft session_id timer].
    destruct (timeLeft s - 1 <=? 0).
    + destruct (proj1 (proj2 (proj2 Hinv)) sid h Hh) as (s0 & Hs0 & Htimer).
      assert (s0 = s) by congruence. subst s0. rewrite Htimer.
      intros Hend.
      edestruct (countdown_inv_cleared w sid s
                   (set_timer None (set_timeLeft (timeLeft s - 1) s)) h
                   (question_interval sid)) as (Hinv1 & Hs1 & Hst1 & Hnone1);
        [exact Hinv | exact Hs | exact Hh | cbn; apply String.eqb_refl | | | | |].
      5:{ eapply endQuestion_inv; [exact Hinv1 | exact Hs1 | exact Hst1 | exact Hnone1 | exact Hend]. }
      all: reflexivity.
    + intros [= <-].
      apply (countdown_inv_shrink w _ sid s (set_timeLeft (timeLeft s - 1) s) Hinv);
        try reflexivity; [intros h' t' Hl; exact Hl | exact Hs | left; reflexivity | intros Hl; exact Hl].
  - (* the countdown to the next question *)
    unfold countdown_tick. destruct (store w !! sid) as [s|] eqn:Hs; [|discriminate].
    cbn [mbind option_bind]. destruct (n - 1 <? 0).
    + set (w1 := clearInterval (Some h)
                   (emit (io_to (Some (session_id s))) (quiz_countdown n isLast) w)).
      assert (Hs1 : store w1 = store w) by reflexivity.
      assert (Hnone1 : no_countdown sid (tasks w1)).
      { eapply no_countdown_after_clear; eauto. cbn. apply String.eqb_refl. }
      assert (Hinv1 : countdown_inv w1).
      { apply (countdown_inv_same_store w w1 Hinv); try reflexivity.
        intros h' t'. cbn. intros Hl.
        destruct (decide (h = h')) as [<- | Hne].
        - rewrite lookup_delete_eq in Hl. discriminate.
        - now rewrite lookup_delete_ne in Hl. }
      destruct isLast; [apply endQuiz_inv, Hinv1|].
      destruct (decide (status s = playing)) as [Hp|]; [|intros [= <-]; exact Hinv1].
      eapply sendQuestion_inv; eauto. congruence.
    + intros [= <-]. eapply countdown_inv_replace; eauto; reflexivity.
  - (* the clean-up timeout *)
    unfold cleanup_fire. cbn.
    destruct (decide _); intros [= <-];
      (apply (countdown_inv_same_store w _ Hinv); try reflexivity;
       intros h' t'; cbn; intros Hl;
       destruct (decide (h = h')) as [<- | Hne];
       [rewrite lookup_delete_eq in Hl; discriminate | now rewrite lookup_delete_ne in Hl]).
  - intros [= <-]. exact Hinv.
Qed.

Lemma host_start_proceeds (w : World) (c sid : string) (s : Session) (data : option Z) :
  socket_sessionId (getSocket c w) = Some sid →
  sessions_get (Some sid) w = Some s →
  hostSocketId s = Some c → players s ≠ [] →
  host_start c data w
  = sendQuestion sid
      (put_session sid
         (set_players (resetAnswers (players s))
            (set_currentQuestionIndex 0
               (set_status playing
                  (set_timeLimit (Some (clampLimit (requestedLimit data))) s))))
         w).
Proof.
  intros Hsock Hget Hhost Hne. unfold host_start. rewrite Hsock, Hget.
  rewrite (bool_decide_eq_true_2 _ Hhost). cbn [negb].
  rewrite bool_decide_eq_false_2; [reflexivity|].
  unfold Map_size. destruct (players s); [congruence | discriminate].
Qed.

Lemma host_start_inv (w w' : World) (c : string) (data : option Z) :
  countdown_inv w → guarded w (ev_host_start c data) →
  host_start c data w = Some w' → countdown_inv w'.
Proof.
  intros Hinv Hguard Hrun.
  destruct (socket_sessionId (getSocket c w)) as [sid|] eqn:Hsock.
  2:{ unfold host_start in Hrun. rewrite Hsock in Hrun. injection Hrun as <-. exact Hinv. }
  destruct (sessions_get (Some sid) w) as [s|] eqn:Hget.
  2:{ unfold host_start in Hrun. rewrite Hsock, Hget in Hrun. injection Hrun as <-. exact Hinv. }
  destruct (decide (hostSocketId s = Some c)) as [Hhost | Hhost].
  2:{ rewrite host_start_unauthorized in Hrun; [injection Hrun as <-; exact Hinv|].
      intros sid' s' Hsock' Hget'. congruence. }
  destruct (players s) as [|e ps] eqn:Hps.
  { rewrite (host_start_no_players w c sid s data Hsock Hget Hhost Hps) in Hrun.
    injection Hrun as <-. exact Hinv. }
  rewrite (host_start_proceeds w c sid s data Hsock Hget Hhost) in Hrun by congruence.
  pose proof (Hguard sid s Hsock Hget) as Hlobby.
  apply sessions_get_Some in Hget as [_ Hs].
  set (sa := set_players _ _) in Hrun.
  apply (sendQuestion_inv (put_session sid sa w) w' sid sa); [| | | |exact Hrun].
  - apply (countdown_inv_shrink w _ sid s sa Hinv); try reflexivity.
    + intros h t Hl. exact Hl.
    + exact Hs.
    + left. reflexivity.
    + intros [=].
  - cbn. apply lookup_insert_eq.
  - discriminate.
  - cbn. destruct Hinv as (_ & _ & _ & Hl). eapply Hl; eauto.
Qed.

Lemma host_skip_inv (w w' : World) (c : string) :
  countdown_inv w → guarded w (ev_host_skip c) →
  host_skip c w = Some w' → countdown_inv w'.
Proof.
  intros Hinv Hguard. unfold host_skip.
  destruct (socket_sessionId (getSocket c w)) as [sid|] eqn:Hsock;
    [|intros [= <-]; exact Hinv].
  destruct (sessions_get (Some sid) w) as [s|] eqn:Hget; [|intros [= <-]; exact Hinv].
  destruct (decide (hostSocketId s = Some c)) as [Hhost | Hhost].
  2:{ rewrite (bool_decide_eq_false_2 _ Hhost). intros [= <-]. exact Hinv. }
  rewrite (bool_decide_eq_true_2 _ Hhost). cbn [negb].
  destruct (Hguard sid s Hsock Hget Hhost) as (h & Htimer & Hh).
  rewrite Htimer. apply sessions_get_Some in Hget as [_ Hs]. intros Hend.
  edestruct (countdown_inv_cleared w sid s (set_timer None s) h (question_interval sid))
    as (Hinv1 & Hs1 & Hst1 & Hnone1);
    [exact Hinv | exact Hs | exact Hh | cbn; apply String.eqb_refl | | | | |].
  5:{ eapply endQuestion_inv; [exact Hinv1 | exact Hs1 | exact Hst1 | exact Hnone1 | exact Hend]. }
  all: reflexivity.
Qed.

Lemma host_join_inv (w w' : World) (c sid : string) :
  countdown_inv w → host_join c sid w = Some w' → countdown_inv w'.
Proof.
  intros Hinv. unfold host_join. destruct (sessions_get (Some sid) w) as [s|] eqn:Hget.
  - intros [= <-]. apply sessions_get_Some in Hget as [_ Hs].
    apply (countdown_inv_shrink w _ sid s (set_hostSocketId (Some c) s) Hinv);
      try reflexivity; [intros h t Hl; exact Hl | exact Hs | left; reflexivity | intros Hl; exact Hl].
  - intros [= <-]. exact Hinv.
Qed.

Lemma player_answer_inv (w w' : World) (c : string) (a : Z) :
  countdown_inv w → player_answer c a w = Some w' → countdown_inv w'.
Proof.
  intros Hinv. unfold player_answer.
  destruct (socket_sessionId (getSocket c w)) as [sid|]; [|intros [= <-]; exact Hinv].
  destruct (sessions_get (Some sid) w) as [s|] eqn:Hget; [|intros [= <-]; exact Hinv].
  destruct (negb _); [intros [= <-]; exact Hinv|].
  destruct (Map_get c (players s)) as [p|]; [|intros [= <-]; exact Hinv].
  intros [= <-]. apply sessions_get_Some in Hget as [_ Hs].
  apply (countdown_inv_shrink w _ sid s
           (set_players (Map_set c (recordAnswer (timeLeft s) a p) (players s)) s) Hinv);
    try reflexivity; [intros h t Hl; exact Hl | exact Hs | left; reflexivity | intros Hl; exact Hl].
Qed.

Lemma disconnect_inv (w w' : World) (c : string) :
  countdown_inv w → disconnect c w = Some w' → countdown_inv w'.
Proof.
  intros Hinv. unfold disconnect.
  destruct (socket_sessionId (getSocket c w)) as [sid|];
    [|intros [= <-]; apply (countdown_inv_same_store w _ Hinv); try reflexivity; now intros h t].
  destruct (sessions_get (Some sid) _) as [s|] eqn:Hget;
    [|intros [= <-]; apply (countdown_inv_same_store w _ Hinv); try reflexivity; now intros h t].
  apply sessions_get_Some in Hget as [_ Hs]. cbn in Hs.
  destruct (socket_isHost _); intros [= <-].
  - apply (countdown_inv_same_store w _ Hinv).
    + intros h t. destruct (timer s) as [h0|]; cbn; [|trivial]. intros Hl.
      destruct (decide (h0 = h)) as [<- | Hne].
      * rewrite lookup_delete_eq in Hl. discriminate.
      * now rewrite lookup_delete_ne in Hl.
    + destruct (timer s); reflexivity.
    + destruct (timer s); reflexivity.
  - apply (countdown_inv_shrink w _ sid s (set_players (Map_delete c (players s)) s) Hinv);
      try reflexivity; [intros h t Hl; exact Hl | exact Hs | left; reflexivity | intros Hl; exact Hl].
Qed.

Section Countdowns.
Context `{CaseFold}.

Lemma player_join_inv (w w' : World) (c sid nm : string) :
  countdown_inv w → player_join c sid nm w = Some w' → countdown_inv w'.
Proof.
  intros Hinv. unfold player_join. destruct (sessions_get (Some sid) w) as [s|] eqn:Hget.
  2:{ intros [= <-]. exact Hinv. }
  apply sessions_get_Some in Hget as [_ Hs].
  assert (Hjoined : ∀ ps, countdown_inv (joined c sid s ps w)).
  { intros ps. apply (countdown_inv_shrink w _ sid s (set_players ps s) Hinv);
      try reflexivity; [intros h t Hl; exact Hl | exact Hs | left; reflexivity | intros Hl; exact Hl]. }
  destruct (_ && _); [intros [= <-]; exact Hinv|].
  destruct (negb _).
  - destruct (bool_decide _); intros [= <-]; [exact Hinv | apply Hjoined].
  - destruct (List.find _ (Map_entries _)) as [e|]; [|discriminate].
    cbn [mbind option_bind]. destruct (Map_get _ _) as [pd|]; [|discriminate].
    cbn [mbind option_bind]. intros [= <-]. apply Hjoined.
Qed.

(** Every event that is issued in turn keeps the discipline of the
    countdowns. *)
Lemma step_countdown_inv (w w' : World) (e : Event) :
  countdown_inv w → guarded w e → step w e = Some w' → countdown_inv w'.
Proof.
  intros Hinv Hguard. destruct e; cbn [step].
  - now apply host_join_inv.
  - now apply player_join_inv.
  - now apply host_start_inv.
  - now apply player_answer_inv.
  - now apply host_skip_inv.
  - now apply disconnect_inv.
  - now apply fire_inv.
Qed.

Lemma run_countdown_inv (es : list Event) (w w' : World) :
  countdown_inv w → guarded_run es w → run es w = Some w' → countdown_inv w'.
Proof.
  revert w. induction es as [|e es IH]; intros w Hinv Hguard Hrun; cbn in *.
  - now injection Hrun as <-.
  - destruct Hguard as [Hg Hrest].
    destruct (step w e) as [w1|] eqn:Hstep; [|discriminate]. cbn in Hrun.
    eapply IH; [eapply step_countdown_inv; eauto | now apply Hrest | exact Hrun].
Qed.
End Countdowns.

Lemma countdown_inv_at_most_one (w : World) (sid : string) :
  countdown_inv w → (length (activeCountdowns sid w) ≤ 1)%nat.
Proof.
  intros (_ & Hone & _). unfold activeCountdowns. rewrite length_map.
  pose proof (NoDup_map_to_list (tasks w)) as Hnd.
  assert (Hin : ∀ ht, In ht (List.filter (λ ht, isCountdownOf sid (snd ht))
                                         (map_to_list (tasks w))) →
                      tasks w !! fst ht = Some (snd ht) ∧ isCountdownOf sid (snd ht) = true).
  { intros [h t] [Hl Hc]%List.filter_In. split; [|exact Hc].
    apply elem_of_map_to_list. now apply list_elem_of_In. }
  assert (Hnd' : NoDup (List.filter (λ ht, isCountdownOf sid (snd ht))
                                    (map_to_list (tasks w)))).
  { apply NoDup_ListNoDup, List.NoDup_filter, NoDup_ListNoDup, Hnd. }
  destruct (List.filter _ _) as [|[h1 t1] [|[h2 t2] l]]; cbn; [lia | lia |].
  exfalso.
  destruct (Hin (h1, t1) ltac:(now left)) as [L1 C1].
  destruct (Hin (h2, t2) ltac:(right; now left)) as [L2 C2].
  cbn in *. assert (h1 = h2) by (eapply Hone; eauto). subst h2.
  assert (t1 = t2) by congruence. subst t2.
  apply NoDup_cons in Hnd' as [Hni _]. apply Hni. now left.
Qed.

(** A server on which no timer was ever set. *)
Lemma countdown_inv_no_tasks (w : World) : tasks w = ∅ → countdown_inv w.
Proof.
  intros E. unfold countdown_inv, no_countdown. rewrite E.
  split; [|split; [|split]].
  - intros h t Hh. now rewrite lookup_empty in Hh.
  - intros sid h1 h2 t1 t2 Hh. now rewrite lookup_empty in Hh.
  - intros sid h Hh. now rewrite lookup_empty in Hh.
  - intros sid s _ _ h t Hh. now rewrite lookup_empty in Hh.
Qed.

(** ** The lifecycle status when start is issued in the lobby *)

Lemma host_start_forward (w w' : World) (c : string) (data : option Z) :
  guarded w (ev_host_start c data) →
  host_start c data w = Some w' → status_forward w w'.
Proof.
  intros Hguard Hrun.
  destruct (socket_sessionId (getSocket c w)) as [sid|] eqn:Hsock.
  2:{ unfold host_start in Hrun. rewrite Hsock in Hrun. injection Hrun as <-.
      now apply status_forward_refl. }
  destruct (sessions_get (Some sid) w) as [s|] eqn:Hget.
  2:{ unfold host_start in Hrun. rewrite Hsock, Hget in Hrun. injection Hrun as <-.
      now apply status_forward_refl. }
  destruct (decide (hostSocketId s = Some c)) as [Hhost | Hhost].
  2:{ rewrite host_start_unauthorized in Hrun;
        [injection Hrun as <-; now apply status_forward_refl|].
      intros sid' s' Hsock' Hget'. congruence. }
  destruct (players s) as [|e ps] eqn:Hps.
  { rewrite (host_start_no_players w c sid s data Hsock Hget Hhost Hps) in Hrun.
    injection Hrun as <-. now apply status_forward_refl. }
  rewrite (host_start_proceeds w c sid s data Hsock Hget Hhost) in Hrun by congruence.
  pose proof (Hguard sid s Hsock Hget) as Hlobby.
  apply sessions_get_Some in Hget as [_ Hs].
  eapply status_forward_trans; [|apply (sendQuestion_forward _ _ _ Hrun)].
  eapply status_forward_put; [exact Hs | | reflexivity].
  rewrite Hlobby. cbn. lia.
Qed.

Section GuardedLifecycle.
Context `{CaseFold}.

(** With every start issued in the lobby, the status of a session only
    moves lobby, playing, finished. *)
Lemma guarded_run_forward (es : list Event) (w w' : World) :
  guarded_run es w → run es w = Some w' → status_forward w w'.
Proof.
  revert w. induction es as [|e es IH]; intros w Hguard Hrun; cbn in *.
  - injection Hrun as <-. now apply status_forward_refl.
  - destruct Hguard as [Hg Hrest].
    destruct (step w e) as [w1|] eqn:Hstep; [|discriminate]. cbn in Hrun.
    eapply status_forward_trans; [|eapply IH; eauto].
    destruct (is_start e) eqn:E.
    + destruct e; try discriminate. cbn in Hstep. eapply host_start_forward; eauto.
    + eapply step_forward; eauto.
Qed.
End GuardedLifecycle.

(** ** Answer times within the time limit *)

Lemma times_ok_set (L : Z) (k : string) (p : Player) (m : JsMap Player) :
  times_ok L m → (∀ t, answerTime p = Some t → 0 ≤ t ≤ L) → times_ok L (Map_set k p m).
Proof.
  unfold times_ok. intros Hm Hp. induction Hm as [|[k' p'] m Hk Hm IH]; cbn.
  - constructor; [exact Hp | constructor].
  - destruct (String.eqb k' k); constructor; assumption.
Qed.

Lemma times_ok_delete (L : Z) (k : string) (m : JsMap Player) :
  times_ok L m → times_ok L (Map_delete k m).
Proof.
  unfold times_ok, Map_delete. rewrite !List.Forall_forall.
  intros Hm e [He _]%List.filter_In. now apply Hm.
Qed.

Lemma times_ok_reset (L : Z) (m : JsMap Player) : times_ok L (resetAnswers m).
Proof.
  unfold times_ok, resetAnswers. apply List.Forall_forall.
  intros e (e0 & <- & _)%List.in_map_iff. cbn. discriminate.
Qed.

Lemma times_ok_score (L L' : Z) (q : Question) (m : JsMap Player) :
  times_ok L m → times_ok L (List.map (λ e, (fst e, scorePlayer q L' (snd e))) m).
Proof.
  unfold times_ok. rewrite !List.Forall_forall.
  intros Hm e (e0 & <- & He)%List.in_map_iff. cbn. now apply Hm.
Qed.

Lemma times_ok_get (L : Z) (k : string) (p : Player) (m : JsMap Player) :
  times_ok L m → Map_get k m = Some p → ∀ t, answerTime p = Some t → 0 ≤ t ≤ L.
Proof.
  unfold times_ok. rewrite List.Forall_forall. intros Hm Hg.
  apply Map_get_Some_In in Hg. apply (Hm _ Hg).
Qed.

(** One session object is rewritten; the question timers of the other
    sessions are among those that ran before. *)
Lemma time_inv_update (w w' : World) (sid : string) (s1 : Session) :
  time_inv w →
  store w' = <[sid := s1]> (store w) →
  session_times_ok s1 →
  (∀ h, tasks w' !! h = Some (question_interval sid) → 1 ≤ timeLeft s1) →
  (∀ h sid', sid' ≠ sid → tasks w' !! h = Some (question_interval sid') →
             tasks w !! h = Some (question_interval sid')) →
  time_inv w'.
Proof.
  intros [Hok Hrun] Hstore Hs1 Hown Hothers. split.
  - intros sid' s Hs. rewrite Hstore in Hs.
    destruct (decide (sid = sid')) as [<- | Hne].
    + rewrite lookup_insert_eq in Hs. now injection Hs as <-.
    + rewrite lookup_insert_ne in Hs by exact Hne. eauto.
  - intros sid' h s Hh Hs. rewrite Hstore in Hs.
    destruct (decide (sid = sid')) as [<- | Hne].
    + rewrite lookup_insert_eq in Hs. injection Hs as <-. eauto.
    + rewrite lookup_insert_ne in Hs by exact Hne. eapply Hrun; eauto.
Qed.

Lemma time_inv_same_store (w w' : World) :
  time_inv w → store w' = store w →
  (∀ h sid, tasks w' !! h = Some (question_interval sid) →
            tasks w !! h = Some (question_interval sid)) →
  time_inv w'.
Proof.
  intros [Hok Hrun] Hstore Hsub. split.
  - intros sid s Hs. rewrite Hstore in Hs. eauto.
  - intros sid h s Hh Hs. rewrite Hstore in Hs. eauto.
Qed.

Lemma lookup_added_other (ts : gmap nat Task) (n h : nat) (t : Task) (sid : string) :
  (∀ x, t ≠ question_interval x) ∨ t = question_interval sid →
  ∀ sid', sid' ≠ sid → <[n := t]> ts !! h = Some (question_interval sid') →
          ts !! h = Some (question_interval sid').
Proof.
  intros Ht sid' Hne Hl. destruct (decide (n = h)) as [<- | Hnh].
  - rewrite lookup_insert_eq in Hl. injection Hl as ->.
    destruct Ht as [Ht | [= ->]]; [now destruct (Ht sid') | congruence].
  - now rewrite lookup_insert_ne in Hl.
Qed.

Lemma lookup_added_own (ts : gmap nat Task) (n h : nat) (t : Task) (sid : string) :
  (∀ x, t ≠ question_interval x) →
  <[n := t]> ts !! h = Some (question_interval sid) →
  ts !! h = Some (question_interval sid).
Proof.
  intros Ht Hl. destruct (decide (n = h)) as [<- | Hnh].
  - rewrite lookup_insert_eq in Hl. injection Hl as ->. now destruct (Ht sid).
  - now rewrite lookup_insert_ne in Hl.
Qed.

Lemma sendQuestion_time (w w' : World) (sid : string) :
  time_inv w → sendQuestion sid w = Some w' → time_inv w'.
Proof.
  intros Hinv Hrun.
  destruct (store w !! sid) as [s|] eqn:Hs.
  2:{ unfold sendQuestion in Hrun. rewrite Hs in Hrun. discriminate. }
  destruct (questions s !! currentQuestionIndex s) as [q|] eqn:Hq.
  2:{ unfold sendQuestion in Hrun. rewrite Hs in Hrun. cbn in Hrun.
      rewrite Hq in Hrun. discriminate. }
  destruct (sendQuestion_unfold w sid s q Hs Hq)
    as (w1 & s' & Hrun1 & Htasks & _ & _ & Hstore & _ & _ & Hleft & Hpl & Hlim).
  assert (w1 = w') by congruence. subst w1.
  destruct (proj1 Hinv sid s Hs) as (Hpos & _ & _).
  assert (HL : TIME_LIMIT s' = TIME_LIMIT s) by (unfold TIME_LIMIT; now rewrite Hlim).
  apply (time_inv_update w w' sid s' Hinv Hstore).
  - unfold session_times_ok. rewrite HL, Hleft, Hpl.
    split; [exact Hpos|]. split; [lia | apply times_ok_reset].
  - intros h _. rewrite Hleft. lia.
  - rewrite Htasks. intros h sid'. apply lookup_added_other. now right.
Qed.

Lemma endQuestion_time (w w' : World) (sid : string) :
  time_inv w → endQuestion sid w = Some w' → time_inv w'.
Proof.
  intros Hinv Hrun.
  destruct (store w !! sid) as [s|] eqn:Hs.
  2:{ unfold endQuestion in Hrun. rewrite Hs in Hrun. discriminate. }
  destruct (questions s !! currentQuestionIndex s) as [q|] eqn:Hq.
  2:{ unfold endQuestion in Hrun. rewrite Hs in Hrun. cbn in Hrun.
      rewrite Hq in Hrun. discriminate. }
  destruct (endQuestion_unfold w sid s q Hs Hq)
    as (w1 & Hrun1 & Hstore & _ & _ & Htasks & _).
  assert (w1 = w') by congruence. subst w1.
  destruct (proj1 Hinv sid s Hs) as (Hpos & Hleft & Hpl).
  apply (time_inv_update w w' sid _ Hinv Hstore).
  - split; [exact Hpos|]. split; [exact Hleft|]. now apply times_ok_score.
  - rewrite Htasks. intros h Hh. apply lookup_added_own in Hh; [|discriminate].
    cbn. eapply (proj2 Hinv); eauto.
  - rewrite Htasks. intros h sid' _. apply lookup_added_own. discriminate.
Qed.

Lemma endQuiz_time (w w' : World) (sid : string) :
  time_inv w → endQuiz sid w = Some w' → time_inv w'.
Proof.
  intros Hinv. unfold endQuiz. destruct (store w !! sid) as [s|] eqn:Hs; [|discriminate].
  cbn [mbind option_bind]. intros [= <-].
  apply (time_inv_update w _ sid (set_status finished s) Hinv); [reflexivity | | |].
  - exact (proj1 Hinv sid s Hs).
  - cbn. intros h Hh. apply lookup_added_own in Hh; [|discriminate].
    eapply (proj2 Hinv); eauto.
  - cbn. intros h sid' _. apply lookup_added_own. discriminate.
Qed.

Lemma tasks_clearInterval_sub (h0 : option nat) (w : World) (h : nat) (t : Task) :
  tasks (clearInterval h0 w) !! h = Some t → tasks w !! h = Some t.
Proof.
  destruct h0 as [h0|]; cbn; [|trivial]. intros Hl.
  destruct (decide (h0 = h)) as [<- | Hne].
  - rewrite lookup_delete_eq in Hl. discriminate.
  - now rewrite lookup_delete_ne in Hl.
Qed.

Lemma session_times_ok_clock (s s1 : Session) :
  session_times_ok s → timeLimit s1 = timeLimit s → players s1 = players s →
  0 ≤ timeLeft s1 ≤ timeLeft s →
  session_times_ok s1.
Proof.
  intros (Hpos & Hleft & Hpl) Hlim Hps Hclock.
  assert (HL : TIME_LIMIT s1 = TIME_LIMIT s) by (unfold TIME_LIMIT; now rewrite Hlim).
  unfold session_times_ok. rewrite HL, Hps. split; [exact Hpos|]. split; [lia | exact Hpl].
Qed.

Lemma fire_time (w w' : World) (h : nat) :
  countdown_inv w → time_inv w → fire h w = Some w' → time_inv w'.
Proof.
  intros Hcd Hinv. unfold fire.
  destruct (tasks w !! h) as [[sid|sid n isLast|id]|] eqn:Hh.
  - (* the question timer *)
    unfold question_tick. destruct (store w !! sid) as [s|] eqn:Hs; [|discriminate].
    cbn [mbind option_bind]. cbn [timeLeft set_timeLeft session_id timer].
    destruct (proj1 Hinv sid s Hs) as (Hpos & Hleft & Hpl).
    pose proof (proj2 Hinv sid h s Hh Hs) as Hone.
    destruct (timeLeft s - 1 <=? 0) eqn:E.
    + apply Z.leb_le in E.
      destruct (proj1 (proj2 (proj2 Hcd)) sid h Hh) as (s0 & Hs0 & Htimer).
      assert (s0 = s) by congruence. subst s0. rewrite Htimer.
      apply endQuestion_time.
      apply (time_inv_update w _ sid (set_timer None (set_timeLeft (timeLeft s - 1) s)) Hinv).
      * reflexivity.
      * apply (session_times_ok_clock s); [exact (proj1 Hinv sid s Hs) | reflexivity.. |].
        cbn. lia.
      * cbn. intros h' Hh'. exfalso.
        pose proof (no_countdown_after_clear w sid h _ Hcd Hh
                      ltac:(cbn; apply String.eqb_refl) h' _ Hh') as Hc.
        cbn in Hc. rewrite String.eqb_refl in Hc. discriminate.
      * cbn. intros h' sid' _ Hl.
        destruct (decide (h = h')) as [<- | Hne].
        -- rewrite lookup_delete_eq in Hl. discriminate.
        -- now rewrite lookup_delete_ne in Hl.
    + apply Z.leb_gt in E. intros [= <-].
      apply (time_inv_update w _ sid (set_timeLeft (timeLeft s - 1) s) Hinv).
      * reflexivity.
      * apply (session_times_ok_clock s); [exact (proj1 Hinv sid s Hs) | reflexivity.. |].
        cbn. lia.
      * cbn. intros; lia.
      * cbn. intros h' sid' _ Hl. exact Hl.
  - (* the countdown to the next question *)
    unfold countdown_tick. destruct (store w !! sid) as [s|] eqn:Hs; [|discriminate].
    cbn [mbind option_bind]. destruct (n - 1 <? 0).
    + set (w1 := clearInterval (Some h)
                   (emit (io_to (Some (session_id s))) (quiz_countdown n isLast) w)).
      assert (Hinv1 : time_inv w1).
      { apply (time_inv_same_store w w1 Hinv); [reflexivity|].
        intros h' sid' Hl. exact (tasks_clearInterval_sub (Some h) (emit _ _ w) h' _ Hl). }
      destruct isLast; [apply endQuiz_time, Hinv1|].
      destruct (decide (status s = playing)); [apply sendQuestion_time, Hinv1|].
      intros [= <-]. exact Hinv1.
    + intros [= <-]. apply (time_inv_same_store w _ Hinv); [reflexivity|].
      cbn. intros h' sid' Hl. destruct (decide (h = h')) as [<- | Hne].
      * rewrite lookup_insert_eq in Hl. discriminate.
      * now rewrite lookup_insert_ne in Hl.
  - (* the clean-up timeout *)
    unfold cleanup_fire. cbn.
    destruct (decide _); intros [= <-];
      (apply (time_inv_same_store w _ Hinv); [reflexivity|];
       cbn; intros h' sid' Hl; destruct (decide (h = h')) as [<- | Hne];
       [rewrite lookup_delete_eq in Hl; discriminate | now rewrite lookup_delete_ne in Hl]).
  - intros [= <-]. exact Hinv.
Qed.

(** A session object is rewritten without a change to its clock or to the
    tasks. *)
Lemma time_inv_put (w : World) (sid : string) (s s1 : Session) :
  time_inv w → store w !! sid = Some s →
  timeLimit s1 = timeLimit s → timeLeft s1 = timeLeft s →
  times_ok (TIME_LIMIT s) (players s1) →
  ∀ w', store w' = <[sid := s1]> (store w) →
        (∀ h t, tasks w' !! h = Some t → tasks w !! h = Some t) →
        time_inv w'.
Proof.
  intros Hinv Hs Hlim Hleft Hpl w' Hstore Hsub.
  destruct (proj1 Hinv sid s Hs) as (Hpos & Hrange & _).
  assert (HL : TIME_LIMIT s1 = TIME_LIMIT s) by (unfold TIME_LIMIT; now rewrite Hlim).
  apply (time_inv_update w w' sid s1 Hinv Hstore).
  - unfold session_times_ok. rewrite HL, Hleft. auto.
  - intros h Hh. rewrite Hleft. eapply (proj2 Hinv); eauto.
  - intros h sid' _ Hh. auto.
Qed.

Lemma host_join_time (w w' : World) (c sid : string) :
  time_inv w → host_join c sid w = Some w' → time_inv w'.
Proof.
  intros Hinv. unfold host_join. destruct (sessions_get (Some sid) w) as [s|] eqn:Hget.
  - intros [= <-]. apply sessions_get_Some in Hget as [_ Hs].
    apply (time_inv_put w sid s (set_hostSocketId (Some c) s) Hinv Hs); try reflexivity; auto.
    exact (proj2 (proj2 (proj1 Hinv sid s Hs))).
  - intros [= <-]. exact Hinv.
Qed.

Lemma player_answer_time (w w' : World) (c : string) (a : Z) :
  time_inv w → player_answer c a w = Some w' → time_inv w'.
Proof.
  intros Hinv. unfold player_answer.
  destruct (socket_sessionId (getSocket c w)) as [sid|]; [|intros [= <-]; exact Hinv].
  destruct (sessions_get (Some sid) w) as [s|] eqn:Hget; [|intros [= <-]; exact Hinv].
  destruct (negb _); [intros [= <-]; exact Hinv|].
  destruct (Map_get c (players s)) as [p|] eqn:Hp; [|intros [= <-]; exact Hinv].
  intros [= <-]. apply sessions_get_Some in Hget as [_ Hs].
  destruct (proj1 Hinv sid s Hs) as (Hpos & Hrange & Hpl).
  apply (time_inv_put w sid s
           (set_players (Map_set c (recordAnswer (timeLeft s) a p) (players s)) s) Hinv Hs);
    try reflexivity; auto.
  cbn. apply times_ok_set; [exact Hpl|].
  unfold recordAnswer. cbn. destruct (currentAnswer p).
  - eapply times_ok_get; eauto.
  - intros t [= <-]. exact Hrange.
Qed.

Lemma disconnect_time (w w' : World) (c : string) :
  time_inv w → disconnect c w = Some w' → time_inv w'.
Proof.
  intros Hinv. unfold disconnect.
  destruct (socket_sessionId (getSocket c w)) as [sid|];
    [|intros [= <-]; apply (time_inv_same_store w _ Hinv); [reflexivity | now intros h t]].
  destruct (sessions_get (Some sid) _) as [s|] eqn:Hget;
    [|intros [= <-]; apply (time_inv_same_store w _ Hinv); [reflexivity | now intros h t]].
  apply sessions_get_Some in Hget as [_ Hs]. cbn in Hs.
  destruct (socket_isHost _); intros [= <-].
  - apply (time_inv_same_store w _ Hinv).
    + destruct (timer s); reflexivity.
    + intros h sid' Hl.
      exact (tasks_clearInterval_sub (timer s) (set_sockets _ w) h _ Hl).
  - destruct (proj1 Hinv sid s Hs) as (_ & _ & Hpl).
    apply (time_inv_put w sid s (set_players (Map_delete c (players s)) s) Hinv Hs);
      try reflexivity; auto.
    cbn. now apply times_ok_delete.
Qed.

Lemma host_skip_time (w w' : World) (c : string) :
  time_inv w → host_skip c w = Some w' → time_inv w'.
Proof.
  intros Hinv. unfold host_skip.
  destruct (socket_sessionId (getSocket c w)) as [sid|]; [|intros [= <-]; exact Hinv].
  destruct (sessions_get (Some sid) w) as [s|] eqn:Hget; [|intros [= <-]; exact Hinv].
  destruct (negb _); [intros [= <-]; exact Hinv|].
  apply sessions_get_Some in Hget as [_ Hs].
  apply endQuestion_time. destruct (timer s) as [h|]; [|exact Hinv].
  apply (time_inv_put w sid s (set_timer None s) Hinv Hs); try reflexivity.
  - exact (proj2 (proj2 (proj1 Hinv sid s Hs))).
  - intros h' t Hl. exact (tasks_clearInterval_sub (Some h) w h' t Hl).
Qed.

Lemma host_start_time (w w' : World) (c : string) (data : option Z) :
  time_inv w → host_start c data w = Some w' → time_inv w'.
Proof.
  intros Hinv Hrun.
  destruct (socket_sessionId (getSocket c w)) as [sid|] eqn:Hsock.
  2:{ unfold host_start in Hrun. rewrite Hsock in Hrun. injection Hrun as <-. exact Hinv. }
  destruct (sessions_get (Some sid) w) as [s|] eqn:Hget.
  2:{ unfold host_start in Hrun. rewrite Hsock, Hget in Hrun. injection Hrun as <-. exact Hinv. }
  destruct (decide (hostSocketId s = Some c)) as [Hhost | Hhost].
  2:{ rewrite host_start_unauthorized in Hrun; [injection Hrun as <-; exact Hinv|].
      intros sid' s' Hsock' Hget'. congruence. }
  destruct (players s) as [|e ps] eqn:Hps.
  { rewrite (host_start_no_players w c sid s data Hsock Hget Hhost Hps) in Hrun.
    injection Hrun as <-. exact Hinv. }
  rewrite (host_start_proceeds w c sid s data Hsock Hget Hhost) in Hrun by congruence.
  apply sessions_get_Some in Hget as [_ Hs].
  set (sa := set_players _ _) in Hrun.
  destruct (questions sa !! currentQuestionIndex sa) as [q|] eqn:Hq.
  2:{ unfold sendQuestion in Hrun. cbn in Hrun. rewrite lookup_insert_eq in Hrun.
      cbn in Hrun. cbn in Hq. rewrite Hq in Hrun. discriminate. }
  destruct (sendQuestion_unfold (put_session sid sa w) sid sa q)
    as (w1 & s' & Hrun1 & Htasks & _ & _ & Hstore & _ & _ & Hleft & Hpl & Hlim);
    [cbn; apply lookup_insert_eq | exact Hq |].
  assert (w1 = w') by congruence. subst w1.
  pose proof (clampLimit_range (requestedLimit data)) as Hclamp.
  assert (HLa : TIME_LIMIT sa = clampLimit (requestedLimit data)).
  { unfold TIME_LIMIT. cbn.
    destruct (clampLimit (requestedLimit data) =? 0) eqn:E; [|reflexivity].
    apply Z.eqb_eq in E. lia. }
  assert (HL : TIME_LIMIT s' = TIME_LIMIT sa) by (unfold TIME_LIMIT; now rewrite Hlim).
  cbn in Hstore. rewrite insert_insert_eq in Hstore.
  apply (time_inv_update w w' sid s' Hinv Hstore).
  - unfold session_times_ok. rewrite HL, Hleft, Hpl, HLa.
    split; [lia|]. split; [lia | apply times_ok_reset].
  - intros h _. rewrite Hleft, HLa. lia.
  - rewrite Htasks. cbn. intros h sid'. apply lookup_added_other. now right.
Qed.

Section Times.
Context `{CaseFold}.

Lemma player_join_time (w w' : World) (c sid nm : string) :
  time_inv w → player_join c sid nm w = Some w' → time_inv w'.
Proof.
  intros Hinv. unfold player_join. destruct (sessions_get (Some sid) w) as [s|] eqn:Hget.
  2:{ intros [= <-]. exact Hinv. }
  apply sessions_get_Some in Hget as [_ Hs].
  destruct (proj1 Hinv sid s Hs) as (_ & _ & Hpl).
  assert (Hjoined : ∀ ps, times_ok (TIME_LIMIT s) ps → time_inv (joined c sid s ps w)).
  { intros ps Hps.
    apply (time_inv_put w sid s (set_players ps s) Hinv Hs); try reflexivity; auto. }
  destruct (_ && _); [intros [= <-]; exact Hinv|].
  destruct (negb _).
  - destruct (bool_decide _); intros [= <-]; [exact Hinv|].
    apply Hjoined, times_ok_set; [exact Hpl | discriminate].
  - destruct (List.find _ (Map_entries _)) as [e|]; [|discriminate].
    cbn [mbind option_bind]. destruct (Map_get _ _) as [pd|] eqn:Hpd; [|discriminate].
    cbn [mbind option_bind]. intros [= <-].
    apply Hjoined, times_ok_set; [now apply times_ok_delete|].
    eapply times_ok_get; eauto.
Qed.

Lemma step_time_inv (w w' : World) (e : Event) :
  countdown_inv w → time_inv w → step w e = Some w' → time_inv w'.
Proof.
  intros Hcd Hinv. destruct e; cbn [step].
  - now apply host_join_time.
  - now apply player_join_time.
  - now apply host_start_time.
  - now apply player_answer_time.
  - now apply host_skip_time.
  - now apply disconnect_time.
  - now apply fire_time.
Qed.

(** In a run in which start and skip are issued in turn, every session
    keeps at most one countdown, and its clock and recorded answer times
    stay within the time limit. *)
Lemma run_invariants (es : list Event) (w w' : World) :
  countdown_inv w → time_inv w → guarded_run es w → run es w = Some w' →
  countdown_inv w' ∧ time_inv w'.
Proof.
  revert w. induction es as [|e es IH]; intros w Hcd Hinv Hguard Hrun; cbn in *.
  - injection Hrun as <-. now split.
  - destruct Hguard as [Hg Hrest].
    destruct (step w e) as [w1|] eqn:Hstep; [|discriminate]. cbn in Hrun.
    apply (IH w1); [eapply step_countdown_inv; eauto | eapply step_time_inv; eauto
                   | now apply Hrest | exact Hrun].
Qed.
End Times.

(** Where the answer times are within the limit, every player is awarded
    either nothing or between 500 and 1000 points. *)
Lemma endQuestion_points_in_range (w : World) (sid k : string) (s : Session) (q : Question)
    (p : Player) :
  time_inv w → store w !! sid = Some s → In (k, p) (players s) →
  pointsEarned q (TIME_LIMIT s) p = 0 ∨ 500 ≤ pointsEarned q (TIME_LIMIT s) p ≤ 1000.
Proof.
  intros Hinv Hs Hin. destruct (proj1 Hinv sid s Hs) as (Hpos & _ & Hpl).
  destruct (decide (currentAnswer p = Some (correctIndex q))) as [Hc | Hc].
  - destruct (answerTime p) as [t|] eqn:Ht.
    + right. eapply pointsEarned_bounds; eauto.
      unfold times_ok in Hpl. rewrite List.Forall_forall in Hpl.
      apply (Hpl (k, p) Hin t Ht).
    + left. apply pointsEarned_wrong. now right.
  - left. apply pointsEarned_wrong. now left.
Qed.

(** A server on which sessions were created and nothing else happened. *)
Lemma time_inv_fresh (w : World) :
  tasks w = ∅ →
  (∀ sid s, store w !! sid = Some s → ∃ nm qs, s = newSession sid nm qs) →
  time_inv w.
Proof.
  intros Htasks Hnew. split.
  - intros sid s Hs. destruct (Hnew sid s Hs) as (nm & qs & ->).
    unfold session_times_ok, TIME_LIMIT. cbn. repeat split; try lia. constructor.
  - intros sid h s Hh. rewrite Htasks, lookup_empty in Hh. discriminate.
Qed.

Section FreshServer.
Context `{CaseFold}.

(** On a server that starts with freshly created sessions, as long as
    start and skip are issued in turn: every session has at most one
    countdown, its status only moves forward, and its clock stays within
    the time limit. *)
Lemma fresh_server_run (es : list Event) (w w' : World) :
  tasks w = ∅ →
  (∀ sid s, store w !! sid = Some s → ∃ nm qs, s = newSession sid nm qs) →
  guarded_run es w → run es w = Some w' →
  (∀ sid, (length (activeCountdowns sid w') ≤ 1)%nat)
  ∧ status_forward w w' ∧ time_inv w'.
Proof.
  intros Htasks Hnew Hguard Hrun.
  destruct (run_invariants es w w') as [Hcd Htime]; auto.
  - now apply countdown_inv_no_tasks.
  - now apply time_inv_fresh.
  - split; [|split; [|exact Htime]].
    + intros sid. now apply countdown_inv_at_most_one.
    + eapply guarded_run_forward; eauto.
Qed.
End FreshServer.

(** ** Runs that the handlers do not guard against

    [guarded_run_forward] and [run_invariants] cover the runs in which
    [host:start] is issued in the lobby and [host:skip] while a question
    timer runs.  The handlers accept both events in any state; the runs
    below are outside that discipline. *)

(** C2. [host:start] does not look at the status: issued again while the
    quiz is playing it restarts the quiz (index, answers and time limit are
    reset and a second question timer is started), and issued after the
    quiz has finished it takes the status back from finished to playing.
    A submission outside [playing] does leave the state as it is. *)
Theorem second_start_restarts_quiz :
  (* a second start while playing *)
  (let w1 := after (opening ++ [ev_host_start "h" (Some 10); ev_host_skip "h";
                                ev_timer 1; ev_timer 1; ev_timer 1; ev_timer 1;
                                ev_timer 1; ev_timer 1; ev_player_answer "a" 0])
                   lobbyWorld in
   let w2 := after [ev_host_start "h" (Some 20)] w1 in
   status (sessionOf "s1" w1) = playing
   ∧ currentQuestionIndex (sessionOf "s1" w1) = 1%nat
   ∧ timeLimit (sessionOf "s1" w1) = Some 10
   ∧ currentAnswer <$> Map_get "a" (players (sessionOf "s1" w1)) = Some (Some 0)
   ∧ activeCountdowns "s1" w1 = [2%nat]
   ∧ status (sessionOf "s1" w2) = playing
   ∧ currentQuestionIndex (sessionOf "s1" w2) = 0%nat
   ∧ timeLimit (sessionOf "s1" w2) = Some 20
   ∧ currentAnswer <$> Map_get "a" (players (sessionOf "s1" w2)) = Some None
   ∧ length (activeCountdowns "s1" w2) = 2%nat)
  ∧
  (* a start after the quiz has finished *)
  (let w1 := after (opening ++ [ev_host_start "h" None; ev_host_skip "h";
                                ev_timer 1; ev_timer 1; ev_timer 1; ev_timer 1;
                                ev_timer 1; ev_timer 1])
                   shortQuizWorld in
   let w2 := after [ev_host_start "h" None] w1 in
   status (sessionOf "s1" w1) = finished
   ∧ is_Some (run [ev_host_start "h" None] w1)
   ∧ status (sessionOf "s1" w2) = playing)
  ∧
  (* a submission while the quiz is not playing *)
  (∀ (w : World) (c sid : string) (s : Session) (a : Z),
     socket_sessionId (getSocket c w) = Some sid →
     sessions_get (Some sid) w = Some s →
     status s ≠ playing →
     player_answer c a w = Some w).
Proof.
  split; [|split].
  - cbv zeta. evaluate.
  - cbv zeta. evaluate.
  - intros w c sid s a Hsock Hget Hst. apply player_answer_ignored.
    intros sid' s' Hsock' Hget'. left.
    assert (sid' = sid) by congruence. subst sid'.
    assert (s' = s) by congruence. now subst s'.
Qed.

Lemma second_start_restarts_quiz_witness :
  player_answer "a" 1 readyWorld = Some readyWorld.
Proof.
  apply (proj2 (proj2 second_start_restarts_quiz)
           readyWorld "a"%string "s1"%string (sessionOf "s1" readyWorld) 1);
    [reflexivity | reflexivity | vm_compute; discriminate].
Defined.

(** C3. [host:skip] is honoured for the bound host only, and with a
    question timer running it cancels that timer (which then never fires)
    and ends the question once.  It does not check that a question is
    running, though: issued again during the countdown to the next
    question it ends that next question before it was ever sent, and
    issued in the lobby it ends the first question of a quiz that has not
    started. *)
Theorem skip_without_running_question :
  (* skip from a socket that is not the host: nothing happens *)
  (let w1 := after (opening ++ [ev_host_start "h" (Some 10)]) lobbyWorld in
   run [ev_host_skip "a"] w1 = Some w1
   (* skip from the host: timer 0 is cancelled, the question ends once *)
   ∧ activeCountdowns "s1" w1 = [0%nat]
   ∧ (let w2 := after [ev_host_skip "h"] w1 in
      tasks w2 !! 0%nat = None
      ∧ run [ev_timer 0] w2 = Some w2
      ∧ currentQuestionIndex (sessionOf "s1" w2) = 1%nat
      ∧ activeCountdowns "s1" w2 = [1%nat]
      ∧ timer (sessionOf "s1" w2) = None
      (* a second skip, no question running *)
      ∧ (let w3 := after [ev_host_skip "h"] w2 in
         is_Some (run [ev_host_skip "h"] w2)
         ∧ currentQuestionIndex (sessionOf "s1" w3) = 2%nat
         ∧ length (activeCountdowns "s1" w3) = 2%nat
         ∧ length (List.filter (λ m, match snd m with quiz_question _ _ _ _ _ _ => true
                                                 | _ => false end) (emitted w3)) = 1%nat
         ∧ length (List.filter (λ m, match snd m with quiz_results _ _ _ => true
                                                 | _ => false end) (emitted w3)) = 2%nat)))
  ∧
  (* skip in the lobby *)
  (let w1 := after [ev_host_skip "h"] readyWorld in
   status (sessionOf "s1" readyWorld) = lobby
   ∧ is_Some (run [ev_host_skip "h"] readyWorld)
   ∧ status (sessionOf "s1" w1) = lobby
   ∧ currentQuestionIndex (sessionOf "s1" w1) = 1%nat
   ∧ activeCountdowns "s1" w1 = [0%nat]).
Proof.
  split; cbv zeta; evaluate.
Qed.

(** C9. Neither [sendQuestion] nor [endQuestion] cancels a countdown
    before starting one.  A second [host:start] leaves two question timers
    running for the session, and a [host:skip] during the countdown to the
    next question leaves two such countdowns running; when both have run
    out the same question has been sent twice and two question timers
    run. *)
Theorem two_countdowns_active :
  (let w := after (opening ++ [ev_host_start "h" None; ev_host_start "h" None]) lobbyWorld in
   is_Some (run (opening ++ [ev_host_start "h" None; ev_host_start "h" None]) lobbyWorld)
   ∧ tasks w !! 0%nat = Some (question_interval "s1")
   ∧ tasks w !! 1%nat = Some (question_interval "s1")
   ∧ timer (sessionOf "s1" w) = Some 1%nat
   ∧ length (activeCountdowns "s1" w) = 2%nat)
  ∧
  (let es := opening ++ [ev_host_start "h" None; ev_host_skip "h"; ev_host_skip "h"] in
   let w := after es lobbyWorld in
   is_Some (run es lobbyWorld)
   ∧ tasks w !! 1%nat = Some (countdown_interval "s1" 5 false)
   ∧ tasks w !! 2%nat = Some (countdown_interval "s1" 5 false)
   ∧ length (activeCountdowns "s1" w) = 2%nat)
  ∧
  (let es := opening ++ [ev_host_start "h" None; ev_host_skip "h"; ev_host_skip "h"]
             ++ concat (replicate 6 [ev_timer 1; ev_timer 2]) in
   let w := after es lobbyWorld in
   is_Some (run es lobbyWorld)
   ∧ tasks w !! 3%nat = Some (question_interval "s1")
   ∧ tasks w !! 4%nat = Some (question_interval "s1")
   ∧ length (activeCountdowns "s1" w) = 2%nat
   ∧ length (List.filter (λ m, match snd m with
                               | quiz_question 3 _ _ _ _ _ => true
                               | _ => false
                               end) (emitted w)) = 2%nat).
Proof.
  split; [|split]; cbv zeta; evaluate.
Qed.

(** ** The handlers at sample inputs *)

Lemma endQuiz_standings_witness :
  ∃ w', endQuiz "s1" finalWorld = Some w' ∧
        last (emitted w')
        = Some (io_to (Some "s1"%string),
                quiz_finished
                  [mkPodium 1 "Bob" 1500; mkPodium 2 "Ann" 900; mkPodium 3 "Cy" 900]
                  [mkRoster "Bob" 1500; mkRoster "Ann" 900; mkRoster "Cy" 900;
                   mkRoster "Dee" 0]).
Proof.
  destruct (endQuiz_standings finalWorld "s1" (sessionOf "s1" finalWorld))
    as (w' & st & pod & Hrun & _); [vm_compute; reflexivity|].
  exists w'. split; [exact Hrun|].
  vm_compute in Hrun. injection Hrun as <-. vm_compute. reflexivity.
Defined.

(** Players of equal score do not always stand in the order in which
    they first joined.  Ann joins first, then Bob and Cy; Ann joins again
    from a second socket, which moves her record to the end of the players
    map.  All three earn 1000 points, and the standings are Bob, Cy, Ann. *)
Lemma rejoin_loses_tie_place :
  ¬ ties_in_join_order
  ∧ is_Some (run rejoinRun shortQuizWorld)
  ∧ joinOrder "s1" rejoinRun = ["Ann"; "Bob"; "Cy"]%string
  ∧ last (emitted (after rejoinRun shortQuizWorld))
    = Some (io_to (Some "s1"%string),
            quiz_finished
              [mkPodium 1 "Bob" 1000; mkPodium 2 "Cy" 1000; mkPodium 3 "Ann" 1000]
              [mkRoster "Bob" 1000; mkRoster "Cy" 1000; mkRoster "Ann" 1000]).
Proof.
  split; [|evaluate].
  intros Hclaim.
  destruct (Hclaim rejoinRun "s1"%string "Quiz"%string [q1]
              (after rejoinRun shortQuizWorld)
              [mkPodium 1 "Bob" 1000; mkPodium 2 "Cy" 1000; mkPodium 3 "Ann" 1000]
              [mkRoster "Bob" 1000; mkRoster "Cy" 1000; mkRoster "Ann" 1000]
              (mkRoster "Bob" 1000) (mkRoster "Ann" 1000))
    as (i & j & Hlt & Hi & Hj).
  - vm_compute. reflexivity.
  - vm_compute. repeat first [left; reflexivity | right].
  - reflexivity.
  - exists 0%nat, 2%nat. split; [lia|]. split; reflexivity.
  - vm_compute in Hi, Hj.
    destruct j as [|j]; [lia|].
    destruct j as [|[|j]]; discriminate.
Qed.

Lemma first_answer_time_frozen_witness :
  ∃ w' s' p',
    run [ev_player_answer "a" 1; ev_timer 0; ev_timer 0; ev_player_answer "a" 3;
         ev_player_answer "b" 0; ev_timer 0; ev_player_answer "a" 2] startedWorld
    = Some w' ∧
    sessions_get (Some "s1"%string) w' = Some s' ∧
    Map_get "a" (players s') = Some p' ∧
    currentAnswer p' = Some 2 ∧ answerTime p' = Some 10 ∧ timeLeft s' = 7.
Proof.
  destruct (first_answer_time_frozen startedWorld "a" "s1" (sessionOf "s1" startedWorld)
              (mkPlayer "Ann" 0 None None) 1 0%nat
              [ev_timer 0; ev_timer 0; ev_player_answer "a" 3; ev_player_answer "b" 0;
               ev_timer 0; ev_player_answer "a" 2])
    as (w' & s' & p' & Hrun & Hget & Hp & Hc & Ht).
  - vm_compute; reflexivity.
  - vm_compute; reflexivity.
  - vm_compute; reflexivity.
  - vm_compute; reflexivity.
  - vm_compute; reflexivity.
  - repeat constructor.
  - vm_compute; reflexivity.
  - exists w', s', p'. split; [exact Hrun|]. split; [exact Hget|]. split; [exact Hp|].
    split; [exact Hc|]. split; [exact Ht|].
    vm_compute in Hrun. injection Hrun as <-.
    vm_compute in Hget. injection Hget as <-. reflexivity.
Defined.

Lemma answer_index_unchecked_witness :
  ∃ w', player_answer "a" 7 startedWorld = Some w' ∧
        last (emitted w')
        = Some (io_to (Some "h"%string),
                host_answerStats [num 0; num 0; num 0; num 0; hole; hole; hole; NaN]).
Proof.
  destruct (answer_index_unchecked startedWorld "a" "s1" (sessionOf "s1" startedWorld)
              (mkPlayer "Ann" 0 None None) 7)
    as (w' & s' & Hrun & _); [vm_compute; reflexivity..|].
  exists w'. split; [exact Hrun|].
  vm_compute in Hrun. injection Hrun as <-. vm_compute. reflexivity.
Defined.

Lemma player_join_outcomes_witness :
  ∃ w', player_join "a2" "s1" "ANN" midGame = Some w' ∧
        players (sessionOf "s1" w')
        = [("b", mkPlayer "Bob" 0 None None); ("a2", mkPlayer "Ann" 950 (Some 1) (Some 9))]%string.
Proof.
  destruct (proj2 (player_join_outcomes midGame "a2" "s1" "ANN")
              (sessionOf "s1" midGame)) as [Hreconnect _].
  - vm_compute; reflexivity.
  - refine (bool_decide_unpack _ _). vm_compute. exact I.
  - destruct Hreconnect as (old & p & w' & _ & _ & Hrun & _).
    + refine (bool_decide_unpack _ _). vm_compute. exact I.
    + exists w'. split; [exact Hrun|].
      vm_compute in Hrun. injection Hrun as <-. vm_compute. reflexivity.
Defined.


(** ** The HTTP endpoints *)

(** *** Session names *)

Lemma substring_0_length (n : nat) (s : string) :
  (String.length (substring 0 n s) ≤ n)%nat.
Proof.
  revert s. induction n as [|n IH]; intros [|a s]; cbn; try lia.
  specialize (IH s). lia.
Qed.

Lemma substring_0_short (n : nat) (s : string) :
  (String.length s ≤ n)%nat → substring 0 n s = s.
Proof.
  revert s. induction n as [|n IH]; intros [|a s]; cbn; intros Hlen; try reflexivity; try lia.
  f_equal. apply IH. lia.
Qed.

Lemma trimStart_fixed (s : string) : trimStart (trimStart s) = trimStart s.
Proof.
  induction s as [|a s IH]; cbn; [reflexivity|].
  destruct (isWhiteSpace a) eqn:Ha; [exact IH|]. cbn. now rewrite Ha.
Qed.

Lemma trimEnd_head (a : ascii) (s : string) :
  isWhiteSpace a = false → ∃ t, trimEnd (String a s) = String a t.
Proof.
  intros Ha. cbn. destruct (trimEnd s); rewrite ?Ha; eauto.
Qed.

Lemma trimStart_head (s : string) :
  trimStart s = s ↔ match s with
                   | EmptyString => True
                   | String a _ => isWhiteSpace a = false
                   end.
Proof.
  destruct s as [|a s]; cbn; [tauto|].
  destruct (isWhiteSpace a) eqn:Ha; [|tauto].
  split; [|discriminate]. intros E.
  assert (Hlen : ∀ t, (String.length (trimStart t) ≤ String.length t)%nat).
  { induction t as [|b t IH]; cbn; [lia|]. destruct (isWhiteSpace b); cbn; lia. }
  specialize (Hlen s). rewrite E in Hlen. cbn in Hlen. lia.
Qed.

Lemma String_trim_start (s : string) : trimStart (String_trim s) = String_trim s.
Proof.
  unfold String_trim. pose proof (trimStart_fixed s) as Hfix.
  apply trimStart_head in Hfix. apply trimStart_head.
  destruct (trimStart s) as [|a t]; [exact I|].
  destruct (trimEnd_head a t Hfix) as [t' ->]. exact Hfix.
Qed.

Lemma substring_0_start (n : nat) (s : string) :
  trimStart s = s → trimStart (substring 0 n s) = substring 0 n s.
Proof.
  rewrite !trimStart_head. destruct n, s; cbn; auto.
Qed.

Lemma trimEnd_fixed (s : string) : trimEnd (trimEnd s) = trimEnd s.
Proof.
  induction s as [|a s IH]; cbn; [reflexivity|].
  destruct (trimEnd s) as [|b t] eqn:E.
  - destruct (isWhiteSpace a) eqn:Ha; cbn; [reflexivity|]. now rewrite Ha.
  - cbn [trimEnd]. fold trimEnd. cbn [trimEnd] in IH. fold trimEnd in IH.
    change (match trimEnd (String b t) with
            | EmptyString => if isWhiteSpace a then EmptyString else String a EmptyString
            | String c u => String a (String c u)
            end = String a (String b t)).
    change (trimEnd (String b t) = String b t) in IH. now rewrite IH.
Qed.

Lemma trimStart_blank_trim (s : string) : trimStart s = EmptyString → String_trim s = EmptyString.
Proof. unfold String_trim. now intros ->. Qed.

(** X1.  The session name [(name || fallback).trim().substring(0, 100)]:
    the expression throws exactly when [name] is truthy and not a string;
    otherwise the name has at most 100 characters and no white space in
    front; it has no white space at the end either when the trimmed name
    fits into 100 characters, but the cut at 100 can leave some; and a
    name that is white space only becomes the empty name, not the
    fallback. *)
Theorem sanitizedName_shape (fallback : string) (name : JsValue) :
  (sanitizedName fallback name = None ↔ truthy name = true ∧ ∀ s, name ≠ Some (Jstr s))
  ∧ (∀ n, sanitizedName fallback name = Some n →
       (String.length n ≤ 100)%nat ∧ trimStart n = n)
  ∧ (∀ s, name = Some (Jstr s) → s ≠ EmptyString →
       sanitizedName fallback name = Some (substring 0 100 (String_trim s))
       ∧ ((String.length (String_trim s) ≤ 100)%nat →
          sanitizedName fallback name = Some (String_trim s)
          ∧ trimEnd (String_trim s) = String_trim s)
       ∧ (trimStart s = EmptyString → sanitizedName fallback name = Some EmptyString))
  ∧ (truthy name = false →
     sanitizedName fallback name = Some (substring 0 100 (String_trim fallback)))
  ∧ (∃ s n, sanitizedName fallback (Some (Jstr s)) = Some n ∧ trimEnd n ≠ n).
Proof.
  split; [|split; [|split; [|split]]].
  - unfold sanitizedName, or_else. split.
    + destruct (truthy name) eqn:Ht; [|discriminate].
      intros Hn. split; [reflexivity|]. intros s ->. discriminate.
    + intros [Ht Hs]. rewrite Ht.
      destruct name as [[| | |s| |]|]; try reflexivity; try discriminate.
      now destruct (Hs s).
  - intros n Hn. unfold sanitizedName in Hn.
    destruct (or_else name (Some (Jstr fallback))) as [[| | |s| |]|]; try discriminate.
    injection Hn as <-. split; [apply substring_0_length|].
    apply substring_0_start, String_trim_start.
  - intros s -> Hs.
    assert (Hsan : sanitizedName fallback (Some (Jstr s))
                   = Some (substring 0 100 (String_trim s))).
    { unfold sanitizedName, or_else. cbn.
      destruct (String.eqb_spec s ""); [contradiction|reflexivity]. }
    split; [exact Hsan|]. split.
    + intros Hlen. rewrite Hsan, substring_0_short by exact Hlen.
      split; [reflexivity|]. unfold String_trim. apply trimEnd_fixed.
    + intros Hblank. rewrite Hsan, (trimStart_blank_trim s Hblank). reflexivity.
  - intros Ht. unfold sanitizedName, or_else. now rewrite Ht.
  - exists (String.concat "" (replicate 99 "a") ++ " b")%string.
    eexists. split; [vm_compute; reflexivity|]. vm_compute. discriminate.
Qed.

(** *** Admission *)

Lemma validateQuestions_passes (check : Json → Check) (qs : list Json) :
  validateQuestions check qs = passes ↔ Forall (λ q, check q = passes) qs.
Proof.
  induction qs as [|q qs IH]; cbn.
  - split; [constructor|reflexivity].
  - split.
    + destruct (check q) eqn:Hq; try discriminate.
      intros Hqs. constructor; [exact Hq|now apply IH].
    + intros Hall. inversion Hall as [|? ? Hq Hqs]; subst. rewrite Hq. now apply IH.
Qed.

Lemma Array_isArray_elements (v : JsValue) :
  Array_isArray v = true → v = Some (Jarr (elements v)).
Proof. destruct v as [[]|]; cbn; congruence. Qed.

Lemma importedQuestion_passes (q : Json) :
  importedQuestion q = passes ↔
  ∃ text opts i,
    prop "question" q = Some text ∧ truthy text = true
    ∧ prop "options" q = Some (Some (Jarr opts))
    ∧ prop "correctIndex" q = Some (Some (Jnum i)).
Proof.
  unfold importedQuestion. split.
  - destruct (prop "question" q) as [text|]; [|discriminate].
    destruct (prop "options" q) as [o|]; [|discriminate].
    destruct (prop "correctIndex" q) as [c|]; [|discriminate].
    destruct (truthy text) eqn:Ht; [|discriminate].
    destruct o as [[| | | |opts|]|]; try discriminate.
    destruct c as [[| |i| | |]|]; try discriminate.
    intros _. exists text, opts, i. auto.
  - intros (text & opts & i & -> & Ht & -> & ->). now rewrite Ht.
Qed.

Lemma generatedQuestion_passes (q : Json) :
  generatedQuestion q = passes ↔
  ∃ text opts i,
    prop "question" q = Some text ∧ truthy text = true
    ∧ prop "options" q = Some (Some (Jarr opts)) ∧ length opts = 4%nat
    ∧ prop "correctIndex" q = Some (Some (Jnum i)).
Proof.
  unfold generatedQuestion. split.
  - destruct (prop "question" q) as [text|]; [|discriminate].
    destruct (prop "options" q) as [o|]; [|discriminate].
    destruct (prop "correctIndex" q) as [c|]; [|discriminate].
    destruct (truthy text) eqn:Ht; [|discriminate].
    destruct o as [[| | | |opts|]|]; try discriminate.
    cbn. destruct (Nat.eqb_spec (length opts) 4); [|discriminate].
    destruct c as [[| |i| | |]|]; try discriminate.
    intros _. exists text, opts, i. auto.
  - intros (text & opts & i & -> & Ht & -> & Hlen & ->). rewrite Ht. cbn.
    now rewrite Hlen.
Qed.

Lemma session_admitted (body : Json) (nm : string) (qs : list Json) :
  session_admission body = admitted nm qs ↔
  ∃ name, prop "name" body = Some name
          ∧ prop "questions" body = Some (Some (Jarr qs)) ∧ qs ≠ []
          ∧ sanitizedName "Quiz" name = Some nm.
Proof.
  unfold session_admission. split.
  - destruct (prop "name" body) as [name|]; [|discriminate].
    destruct (prop "questions" body) as [questions|]; [|destruct name; discriminate].
    destruct questions as [[| | | |items|]|]; cbn; rewrite ?orb_true_r; try discriminate.
    destruct items as [|q items]; cbn; [discriminate|].
    destruct (sanitizedName "Quiz" name) as [n|] eqn:Hn; [|discriminate].
    intros [= <- <-]. exists name. repeat split; auto.
  - intros (name & -> & -> & Hne & Hname).
    destruct qs as [|q qs]; [contradiction|]. cbn. now rewrite Hname.
Qed.

Lemma session_refused (body : Json) (res : Response) :
  session_admission body = refused res →
  res = res_error 400 "Questions array is required"
  ∨ res = res_error 500 "Failed to create session".
Proof.
  unfold session_admission.
  destruct (prop "name" body) as [name|].
  - destruct (prop "questions" body) as [questions|].
    + destruct (_ || _).
      * intros [= <-]. now left.
      * destruct (sanitizedName "Quiz" name); [discriminate|]. intros [= <-]. now right.
    + intros [= <-]. now right.
  - intros [= <-]. now right.
Qed.

Lemma import_admitted (body : Json) (nm : string) (qs : list Json) :
  import_admission body = admitted nm qs ↔
  ∃ name, prop "name" body = Some name
          ∧ prop "questions" body = Some (Some (Jarr qs))
          ∧ Forall (λ q, ∃ text opts i,
                      prop "question" q = Some text ∧ truthy text = true
                      ∧ prop "options" q = Some (Some (Jarr opts))
                      ∧ prop "correctIndex" q = Some (Some (Jnum i))) qs
          ∧ sanitizedName "Importerat Quiz" name = Some nm.
Proof.
  unfold import_admission. split.
  - destruct (prop "name" body) as [name|]; [|discriminate].
    destruct (prop "questions" body) as [questions|]; [|destruct name; discriminate].
    destruct questions as [[| | | |items|]|]; cbn; rewrite ?orb_true_r; try discriminate.
    destruct (validateQuestions importedQuestion items) eqn:Hv; try discriminate.
    destruct (sanitizedName "Importerat Quiz" name) as [n|] eqn:Hn; [|discriminate].
    intros [= <- <-]. exists name. split; [reflexivity|]. split; [reflexivity|].
    split; [|exact Hn].
    apply validateQuestions_passes in Hv.
    eapply Forall_impl; [exact Hv|]. intros q Hq. now apply importedQuestion_passes.
  - intros (name & -> & -> & Hall & Hname). cbn.
    assert (Hv : validateQuestions importedQuestion qs = passes).
    { apply validateQuestions_passes. eapply Forall_impl; [exact Hall|].
      intros q Hq. now apply importedQuestion_passes. }
    now rewrite Hv, Hname.
Qed.

Lemma import_refused (body : Json) (res : Response) :
  import_admission body = refused res →
  res = res_error 400 "Valid questions array required"
  ∨ res = res_error 400 "Invalid question format"
  ∨ res = res_error 500 "Failed to import quiz".
Proof.
  unfold import_admission.
  destruct (prop "name" body) as [name|]; [|intros [= <-]; auto].
  destruct (prop "questions" body) as [questions|]; [|intros [= <-]; auto].
  destruct (_ || _); [intros [= <-]; auto|].
  destruct (validateQuestions _ _); try (intros [= <-]; auto).
  destruct (sanitizedName _ _); [discriminate|]. intros [= <-]. auto.
Qed.

(** X2.  [POST /api/session] admits a body exactly when its [questions]
    is an array that is not empty and its [name] is falsy or a string; the
    elements of the array are not looked at.  A body that is not [null]
    and whose [questions] is anything else is answered with status 400,
    and the only other answer is status 500. *)
Theorem session_admission_iff (body : Json) :
  (∀ nm qs,
     session_admission body = admitted nm qs ↔
     ∃ name, prop "name" body = Some name
             ∧ prop "questions" body = Some (Some (Jarr qs)) ∧ qs ≠ []
             ∧ sanitizedName "Quiz" name = Some nm)
  ∧ (session_admission body = refused (res_error 400 "Questions array is required") ↔
     ∃ questions, body ≠ Jnull ∧ prop "questions" body = Some questions
                  ∧ ∀ q qs, questions ≠ Some (Jarr (q :: qs)))
  ∧ (∀ res, session_admission body = refused res →
            res = res_error 400 "Questions array is required"
            ∨ res = res_error 500 "Failed to create session").
Proof.
  split; [intros nm qs; apply session_admitted|]. split; [|apply session_refused].
  unfold session_admission. split.
  - destruct (prop "name" body) as [name|] eqn:Hname; [|discriminate].
    destruct (prop "questions" body) as [questions|]; [|discriminate].
    intros Hr. exists questions. split; [intros ->; discriminate|]. split; [reflexivity|].
    intros q qs ->. cbn in Hr. destruct (sanitizedName "Quiz" name); discriminate.
  - intros (questions & Hbody & -> & Hno).
    destruct (prop "name" body) as [name|] eqn:Hname; [|now destruct body].
    destruct questions as [[| | | |[|q qs]|]|]; cbn; rewrite ?orb_true_r; try reflexivity.
    now destruct (Hno q qs).
Qed.

(** X3.  [POST /api/import] admits a body exactly when its [questions] is
    an array, empty or not, each element of which has a truthy [question],
    an array as [options] and a number as [correctIndex], and its [name] is
    falsy or a string.  Neither the number of options nor the range of
    [correctIndex] is checked.  Any other body is answered with status 400
    or 500. *)
Theorem import_admission_iff (body : Json) :
  (∀ nm qs,
     import_admission body = admitted nm qs ↔
     ∃ name, prop "name" body = Some name
             ∧ prop "questions" body = Some (Some (Jarr qs))
             ∧ Forall (λ q, ∃ text opts i,
                         prop "question" q = Some text ∧ truthy text = true
                         ∧ prop "options" q = Some (Some (Jarr opts))
                         ∧ prop "correctIndex" q = Some (Some (Jnum i))) qs
             ∧ sanitizedName "Importerat Quiz" name = Some nm)
  ∧ (∀ res, import_admission body = refused res →
            res = res_error 400 "Valid questions array required"
            ∨ res = res_error 400 "Invalid question format"
            ∨ res = res_error 500 "Failed to import quiz").
Proof.
  split; [intros nm qs; apply import_admitted | apply import_refused].
Qed.

(** X4.  What [generateQuizFromAI] returns is never empty, each of its
    questions has exactly four options, and a body that carries these
    questions is admitted by [POST /api/session] and by
    [POST /api/import] alike, whatever string it carries as name. *)
Theorem generatedQuiz_admitted (parsed : Json) (name : JsValue) (qs : list Json) :
  generatedQuiz parsed = Some (name, qs) →
  qs ≠ []
  ∧ truthy name = true
  ∧ Forall (λ q, ∃ text opts i,
              prop "question" q = Some text ∧ truthy text = true
              ∧ prop "options" q = Some (Some (Jarr opts)) ∧ length opts = 4%nat
              ∧ prop "correctIndex" q = Some (Some (Jnum i))) qs
  ∧ ∀ body nm,
      prop "questions" body = Some (Some (Jarr qs)) →
      prop "name" body = Some (Some (Jstr nm)) →
      (∃ n, session_admission body = admitted n qs)
      ∧ (∃ n, import_admission body = admitted n qs).
Proof.
  unfold generatedQuiz. intros Hgen.
  destruct (prop "name" parsed) as [name0|]; [|discriminate]. cbn in Hgen.
  destruct (prop "questions" parsed) as [questions|]; [|discriminate]. cbn in Hgen.
  set (v := or_else questions (Some parsed)) in *.
  destruct (Array_isArray v) eqn:Harr; [|discriminate]. cbn in Hgen.
  destruct (Nat.eqb_spec (length (elements v)) 0); [discriminate|].
  destruct (validateQuestions generatedQuestion (elements v)) eqn:Hv; try discriminate.
  injection Hgen as <- <-.
  apply validateQuestions_passes in Hv.
  assert (Hall : Forall (λ q, ∃ text opts i,
              prop "question" q = Some text ∧ truthy text = true
              ∧ prop "options" q = Some (Some (Jarr opts)) ∧ length opts = 4%nat
              ∧ prop "correctIndex" q = Some (Some (Jnum i))) (elements v)).
  { eapply Forall_impl; [exact Hv|]. intros q Hq. now apply generatedQuestion_passes. }
  split; [now destruct (elements v)|].
  split; [unfold or_else; now destruct (truthy name0) eqn:E|].
  split; [exact Hall|].
  intros body nm Hqs Hname. split.
  - exists (substring 0 100 (String_trim (if String.eqb nm "" then "Quiz" else nm))).
    apply session_admitted. exists (Some (Jstr nm)).
    split; [exact Hname|]. split; [exact Hqs|]. split; [now destruct (elements v)|].
    unfold sanitizedName, or_else. cbn. now destruct (String.eqb nm "").
  - exists (substring 0 100 (String_trim (if String.eqb nm "" then "Importerat Quiz" else nm))).
    apply import_admitted. exists (Some (Jstr nm)).
    split; [exact Hname|]. split; [exact Hqs|]. split.
    + eapply Forall_impl; [exact Hall|].
      intros q (text & opts & i & H1 & H2 & H3 & _ & H4). exists text, opts, i. auto.
    + unfold sanitizedName, or_else. cbn. now destruct (String.eqb nm "").
Qed.

Lemma generatedQuiz_admitted_witness :
  ∃ n, session_admission
         (Jobj [("name", Jstr "Matte");
                ("questions",
                 Jarr [Jobj [("question", Jstr "2+2?");
                             ("options", Jarr [Jstr "3"; Jstr "4"; Jstr "5"; Jstr "6"]);
                             ("correctIndex", Jnum 1)]])]%string)
       = admitted n
           [Jobj [("question", Jstr "2+2?");
                  ("options", Jarr [Jstr "3"; Jstr "4"; Jstr "5"; Jstr "6"]);
                  ("correctIndex", Jnum 1)]]%string.
Proof.
  refine (proj1 (proj2 (proj2 (proj2
    (generatedQuiz_admitted
       (Jarr [Jobj [("question", Jstr "2+2?");
                    ("options", Jarr [Jstr "3"; Jstr "4"; Jstr "5"; Jstr "6"]);
                    ("correctIndex", Jnum 1)]]%string)
       (Some (Jstr "Quiz")) _ _))) _ "Matte"%string _ _)).
  - vm_compute. reflexivity.
  - reflexivity.
  - reflexivity.
Defined.

(** *** Registration *)

Lemma sessions_get_createSession (id nm : string) (qs : list Question) (w : World) :
  sessions_get (Some id) (createSession id nm qs w) = Some (newSession id nm qs).
Proof.
  unfold sessions_get, createSession. cbn.
  destruct (decide (id ∈ {[id]} ∪ sessions w)) as [_|Hn].
  - apply lookup_insert_eq.
  - destruct Hn. apply elem_of_union_l, elem_of_singleton. reflexivity.
Qed.

Lemma sessions_get_createSession_ne (id id' nm : string) (qs : list Question) (w : World) :
  id' ≠ id →
  sessions_get (Some id') (createSession id nm qs w) = sessions_get (Some id') w.
Proof.
  intros Hne. unfold sessions_get, createSession. cbn.
  rewrite lookup_insert_ne by congruence.
  destruct (decide (id' ∈ {[id]} ∪ sessions w)) as [Hin|Hn];
    destruct (decide (id' ∈ sessions w)) as [Hin'|Hn']; try reflexivity.
  - apply elem_of_union in Hin as [Hin|Hin]; [|contradiction].
    apply elem_of_singleton in Hin. contradiction.
  - destruct Hn. now apply elem_of_union_r.
Qed.

Lemma toQuestion_ofQuestion (q : Question) : toQuestion (ofQuestion q) = Some q.
Proof.
  destruct q as [text opts i]. unfold toQuestion, ofQuestion. cbn.
  assert (Hopts : mapM asString (Jstr <$> opts) = Some opts).
  { induction opts as [|o opts IH]; [reflexivity|]. cbn. now rewrite IH. }
  now rewrite Hopts.
Qed.

Lemma mapM_toQuestion_ofQuestion (qs : list Question) :
  mapM toQuestion (ofQuestion <$> qs) = Some qs.
Proof.
  induction qs as [|q qs IH]; [reflexivity|].
  cbn [fmap list_fmap mapM]. rewrite toQuestion_ofQuestion. cbn. now rewrite IH.
Qed.

Lemma mapM_toQuestion_length (items : list Json) (qs : list Question) :
  mapM toQuestion items = Some qs → length qs = length items.
Proof.
  intros Hm. apply mapM_Some in Hm. symmetry. eapply Forall2_length, Hm.
Qed.

Lemma register_admitted (sessionId nm : string) (items : list Json) (w w' : World)
    (res : Response) :
  register sessionId (admitted nm items) w = Some (res, w') →
  ∃ qs, mapM toQuestion items = Some qs
        ∧ res = res_json (Jobj [("sessionId", Jstr sessionId)]%string)
        ∧ w' = createSession sessionId nm qs w.
Proof.
  unfold register. destruct (mapM toQuestion items) as [qs|]; [|discriminate].
  cbn. intros [= <- <-]. exists qs. auto.
Qed.

Lemma admission_elements (body : Json) (nm : string) (items : list Json) :
  session_admission body = admitted nm items ∨ import_admission body = admitted nm items →
  prop "questions" body = Some (Some (Jarr items)).
Proof.
  intros [Ha|Ha].
  - apply session_admitted in Ha as (name & _ & Hq & _). exact Hq.
  - apply import_admitted in Ha as (name & _ & Hq & _). exact Hq.
Qed.

Lemma refused_not_200 (body : Json) (res : Response) :
  session_admission body = refused res ∨ import_admission body = refused res →
  fst res ≠ 200%nat.
Proof.
  intros [Ha|Ha].
  - apply session_refused in Ha as [-> | ->]; discriminate.
  - apply import_refused in Ha as [-> | [-> | ->]]; discriminate.
Qed.

(** X5.  A request that [POST /api/session] or [POST /api/import] does
    not answer with 200 registers nothing.  After one answered with 200,
    [GET /api/session/:id] reports the new session in the lobby, with the
    number of questions that were sent and no players; the other sessions
    are as before; and the new session has no host: a [host:start] from a
    socket attached to its identifier is not authorized. *)
Theorem registered_session_summary (sessionId : string) (body : Json) (w w' : World)
    (res : Response) :
  POST_api_session sessionId body w = Some (res, w')
  ∨ POST_api_import sessionId body w = Some (res, w') →
  (fst res ≠ 200%nat → w' = w)
  ∧ (fst res = 200%nat →
     ∃ items,
       prop "questions" body = Some (Some (Jarr items))
       ∧ res = res_json (Jobj [("sessionId", Jstr sessionId)]%string)
       ∧ GET_api_session sessionId w'
         = res_json (Jobj [("id", Jstr sessionId); ("status", Jstr "lobby");
                           ("questionCount", Jnum (Z.of_nat (length items)));
                           ("playerCount", Jnum 0)]%string)
       ∧ (∀ id, id ≠ sessionId → sessions_get (Some id) w' = sessions_get (Some id) w)
       ∧ (∀ c data, socket_sessionId (getSocket c w') = Some sessionId →
                    host_start c data w'
                    = Some (emit (socket_emit c) (error Not_authorized) w'))).
Proof.
  intros Hpost.
  assert (Hreg : ∃ a, (session_admission body = a ∨ import_admission body = a)
                      ∧ register sessionId a w = Some (res, w')).
  { destruct Hpost as [Hp|Hp]; eexists; (split; [|exact Hp]); auto. }
  destruct Hreg as (a & Ha & Hreg). destruct a as [nm items|r].
  - apply register_admitted in Hreg as (qs & Hqs & -> & ->).
    split; [intros Hn; now destruct Hn|]. intros _. exists items.
    split; [now apply (admission_elements body nm)|]. split; [reflexivity|].
    split; [|split].
    + unfold GET_api_session. rewrite sessions_get_createSession. cbn.
      now rewrite (mapM_toQuestion_length items qs Hqs).
    + intros id Hne. now apply sessions_get_createSession_ne.
    + intros c data Hc. apply host_start_unauthorized.
      intros sid s Hsid Hget. rewrite Hc in Hsid. injection Hsid as <-.
      rewrite sessions_get_createSession in Hget. injection Hget as <-. discriminate.
  - cbn in Hreg. injection Hreg as <- <-. split; [reflexivity|].
    intros H200. now destruct (refused_not_200 body r Ha).
Qed.

Lemma registered_session_summary_witness :
  ∃ w', POST_api_session "s1"
          (Jobj [("name", Jstr " Quiz "); ("questions", Jarr [ofQuestion q1])]%string)
          emptyWorld
        = Some (res_json (Jobj [("sessionId", Jstr "s1")]%string), w')
        ∧ GET_api_session "s1" w'
          = res_json (Jobj [("id", Jstr "s1"); ("status", Jstr "lobby");
                            ("questionCount", Jnum 1); ("playerCount", Jnum 0)]%string).
Proof.
  eexists. split; [vm_compute; reflexivity|].
  destruct (proj2 (registered_session_summary "s1"
                     (Jobj [("name", Jstr " Quiz "); ("questions", Jarr [ofQuestion q1])]%string)
                     emptyWorld _ _ (or_introl eq_refl)) eq_refl)
    as (items & Hitems & _ & Hget & _).
  injection Hitems as <-. exact Hget.
Defined.

(** X6.  Exporting a session and importing the answer.  The import is
    admitted exactly when no question has an empty text (a session that
    [POST /api/session] created can have one), and then registers a
    session with the same questions.  The name is the trimmed name cut at
    100 characters again, so a name that ends in white space loses it, and
    an empty name becomes the fallback of the import. *)
Theorem export_import_round_trip (now id id' : string) (w : World) (s : Session) :
  sessions_get (Some id) w = Some s →
  (Forall (λ q, question q ≠ EmptyString) (questions s) →
   ∃ nm,
     POST_api_import id' (snd (GET_api_session_export now id w)) w
     = Some (res_json (Jobj [("sessionId", Jstr id')]%string),
             createSession id' nm (questions s) w)
     ∧ nm = substring 0 100
              (String_trim (if String.eqb (quizName s) "" then "Importerat Quiz"
                            else quizName s))
     ∧ (quizName s ≠ EmptyString → (String.length (quizName s) ≤ 100)%nat →
        String_trim (quizName s) = quizName s → nm = quizName s))
  ∧ (Exists (λ q, question q = EmptyString) (questions s) →
     POST_api_import id' (snd (GET_api_session_export now id w)) w
     = Some (res_error 400 "Invalid question format", w)).
Proof.
  intros Hget. unfold GET_api_session_export. rewrite Hget. cbn [snd res_json].
  unfold POST_api_import, import_admission.
  cbn [prop List.find fst snd String.eqb Ascii.eqb Bool.eqb fmap option_fmap option_map
       truthy Array_isArray negb orb elements].
  assert (Hpass : ∀ q, question q ≠ EmptyString → importedQuestion (ofQuestion q) = passes).
  { intros q Hq. apply importedQuestion_passes.
    exists (Some (Jstr (question q))), (Jstr <$> options q), (correctIndex q).
    repeat split. cbn. destruct (String.eqb_spec (question q) ""); [contradiction|reflexivity]. }
  assert (Hfail : ∀ q, question q = EmptyString → importedQuestion (ofQuestion q) = fails).
  { intros q Hq. unfold importedQuestion, ofQuestion. cbn. now rewrite Hq. }
  split.
  - intros Hall.
    assert (Hv : validateQuestions importedQuestion (ofQuestion <$> questions s) = passes).
    { apply validateQuestions_passes, Forall_fmap.
      eapply Forall_impl; [exact Hall|]. intros q Hq. now apply Hpass. }
    rewrite Hv. eexists. split; [|split; [reflexivity|]].
    + unfold sanitizedName, or_else. cbn [truthy].
      destruct (String.eqb (quizName s) ""); cbn [negb register];
        rewrite mapM_toQuestion_ofQuestion; reflexivity.
    + intros Hne Hlen Htrim.
      destruct (String.eqb_spec (quizName s) ""); [contradiction|].
      rewrite Htrim. now apply substring_0_short.
  - intros Hex.
    assert (Hv : ∀ qs, Exists (λ q, question q = EmptyString) qs →
                       validateQuestions importedQuestion (ofQuestion <$> qs) = fails).
    { intros qs0 Hex0.
      induction Hex0 as [q qs Hq|q qs Hex0 IH]; cbn [fmap list_fmap validateQuestions].
      - now rewrite (Hfail q Hq).
      - destruct (String.eqb_spec (question q) "") as [E|E].
        + now rewrite (Hfail q E).
        + now rewrite (Hpass q E). }
    now rewrite (Hv _ Hex).
Qed.

Lemma export_import_round_trip_witness :
  ∃ nm, POST_api_import "s2" (snd (GET_api_session_export "now" "s1" lobbyWorld)) lobbyWorld
        = Some (res_json (Jobj [("sessionId", Jstr "s2")]%string),
                createSession "s2" nm [q1; q2; q3] lobbyWorld)
        ∧ nm = "Quiz"%string.
Proof.
  destruct (proj1 (export_import_round_trip "now" "s1" "s2" lobbyWorld
                     (sessionOf "s1" lobbyWorld) ltac:(vm_compute; reflexivity)))
    as (nm & Hpost & Hnm & _).
  - repeat constructor; discriminate.
  - exists nm. split; [exact Hpost|]. rewrite Hnm. vm_compute. reflexivity.
Defined.

(** ** Hosts and players *)

Lemma host_join_bound (w : World) (c sid : string) (s : Session) :
  sessions_get (Some sid) w = Some s →
  host_join c sid w
  = Some (emit (socket_emit c)
               (host_session (session_id s) (quizName s) (questions s)
                             (roster (players s)) (status s))
               (bind_socket c sid true (put_session sid (set_hostSocketId (Some c) s) w))).
Proof. intros Hget. unfold host_join. now rewrite Hget. Qed.

Lemma sessions_get_put (w : World) (sid : string) (s s1 : Session) :
  sessions_get (Some sid) w = Some s →
  sessions_get (Some sid) (put_session sid s1 w) = Some s1.
Proof.
  intros Hget. apply sessions_get_Some in Hget as [Hin _].
  apply sessions_get_Some. split; [exact Hin|]. cbn. apply lookup_insert_eq.
Qed.

Lemma getSocket_bind (w : World) (c c' sid : string) (host : bool) :
  getSocket c' (bind_socket c sid host w)
  = if decide (c = c') then mkSocket (Some sid) host else getSocket c' w.
Proof.
  unfold getSocket, bind_socket. cbn. destruct (decide (c = c')) as [<- | Hne].
  - now rewrite lookup_insert_eq.
  - now rewrite lookup_insert_ne.
Qed.

Section HostsAndPlayers.
Context `{CaseFold}.

(** X7.  [POST /api/import] admits a body whose [questions] is the empty
    array, which [POST /api/session] refuses with status 400.  The session
    it registers cannot be played: once a host and a player have joined,
    [host:start] ends in an uncaught [TypeError]. *)
Theorem imported_empty_quiz_cannot_start (sessionId c p playerName : string) (body : Json)
    (name : JsValue) (nm : string) (data : option Z) (w : World) :
  prop "questions" body = Some (Some (Jarr [])) →
  prop "name" body = Some name →
  sanitizedName "Importerat Quiz" name = Some nm →
  c ≠ p →
  session_admission body = refused (res_error 400 "Questions array is required")
  ∧ ∃ w1 w2 w3,
      POST_api_import sessionId body w
      = Some (res_json (Jobj [("sessionId", Jstr sessionId)]%string), w1)
      ∧ host_join c sessionId w1 = Some w2
      ∧ player_join p sessionId playerName w2 = Some w3
      ∧ (players <$> sessions_get (Some sessionId) w3)
        = Some [(p, mkPlayer playerName 0 None None)]
      ∧ host_start c data w3 = None.
Proof.
  intros Hqs Hname Hnm Hcp. split.
  { unfold session_admission. now rewrite Hname, Hqs. }
  set (s0 := newSession sessionId nm []).
  set (w1 := createSession sessionId nm [] w).
  assert (Hget1 : sessions_get (Some sessionId) w1 = Some s0)
    by apply sessions_get_createSession.
  set (s1 := set_hostSocketId (Some c) s0).
  pose proof (host_join_bound w1 c sessionId s0 Hget1) as Hjoin.
  set (w2 := emit _ _ _) in Hjoin.
  assert (Hget2 : sessions_get (Some sessionId) w2 = Some s1).
  { apply sessions_get_Some in Hget1 as [Hin _].
    apply sessions_get_Some. split; [exact Hin|]. cbn. apply lookup_insert_eq. }
  pose proof (player_join_no_match w2 p sessionId playerName s1 Hget2 (Forall_nil_2 _))
    as Hpj.
  rewrite decide_True in Hpj by reflexivity.
  rewrite decide_False in Hpj by (cbn; apply not_elem_of_nil).
  set (w3 := joined _ _ _ _ _) in Hpj.
  assert (Hin2 : sessionId ∈ sessions w2).
  { apply sessions_get_Some in Hget2 as [Hin _]. exact Hin. }
  destruct (joined_session p sessionId s1 (Map_set p (mkPlayer playerName 0 None None) (players s1))
              w2 Hin2) as (Hget3 & _ & _).
  fold w3 in Hget3.
  exists w1, w2, w3. split; [|split; [exact Hjoin|split; [exact Hpj|split]]].
  - unfold POST_api_import.
    rewrite (proj2 (import_admitted body nm [])); [reflexivity|].
    exists name. repeat split; auto.
  - now rewrite Hget3.
  - eapply (host_start_throws w3 c sessionId); [|exact Hget3|reflexivity|discriminate|reflexivity].
    unfold w3, joined. change (getSocket c (emit ?d ?m ?w0)) with (getSocket c w0).
    rewrite getSocket_bind, decide_False by congruence.
    change (getSocket c (put_session ?k ?v ?w0)) with (getSocket c w0).
    unfold w2. change (getSocket c (emit ?d ?m ?w0)) with (getSocket c w0).
    rewrite getSocket_bind, decide_True by reflexivity. reflexivity.
Qed.


(** X8.  [host:join] asks for no credential.  Any socket that names a
    registered session becomes its host and is sent the questions with
    their correct indices.  The socket that was host before is no longer
    authorized to start and its skip is ignored, but it keeps its host
    flag: when it disconnects the session is ended for everybody. *)
Theorem host_join_takeover (w : World) (sid c1 c2 : string) (s : Session) :
  sessions_get (Some sid) w = Some s → c1 ≠ c2 →
  ∃ w1 w2,
    host_join c1 sid w = Some w1 ∧ host_join c2 sid w1 = Some w2
    ∧ sessions_get (Some sid) w2 = Some (set_hostSocketId (Some c2) s)
    ∧ last (emitted w2)
      = Some (socket_emit c2,
              host_session (session_id s) (quizName s) (questions s)
                           (roster (players s)) (status s))
    ∧ (∀ data, host_start c1 data w2
               = Some (emit (socket_emit c1) (error Not_authorized) w2))
    ∧ host_skip c1 w2 = Some w2
    ∧ ∃ w3, disconnect c1 w2 = Some w3 ∧ (sid ∉ sessions w3)
            ∧ last (emitted w3) = Some (io_to (Some sid), session_ended).
Proof.
  intros Hget Hne.
  pose proof (host_join_bound w c1 sid s Hget) as Hj1.
  set (w1 := emit _ _ _) in Hj1.
  assert (Hget1 : sessions_get (Some sid) w1 = Some (set_hostSocketId (Some c1) s))
    by exact (sessions_get_put w sid s _ Hget).
  pose proof (host_join_bound w1 c2 sid _ Hget1) as Hj2.
  set (w2 := emit _ _ _) in Hj2.
  assert (Hget2 : sessions_get (Some sid) w2 = Some (set_hostSocketId (Some c2) s))
    by exact (sessions_get_put w1 sid _ _ Hget1).
  assert (Hsock : getSocket c1 w2 = mkSocket (Some sid) true).
  { unfold w2. change (getSocket c1 (emit ?d ?p ?w0)) with (getSocket c1 w0).
    rewrite getSocket_bind, decide_False by congruence.
    change (getSocket c1 (put_session ?k ?v ?w0)) with (getSocket c1 w0).
    unfold w1. change (getSocket c1 (emit ?d ?p ?w0)) with (getSocket c1 w0).
    rewrite getSocket_bind, decide_True by reflexivity. reflexivity. }
  assert (Hnot : ∀ sid' s', socket_sessionId (getSocket c1 w2) = Some sid' →
                            sessions_get (Some sid') w2 = Some s' →
                            hostSocketId s' ≠ Some c1).
  { intros sid' s' Hs Hg. rewrite Hsock in Hs. injection Hs as <-.
    rewrite Hget2 in Hg. injection Hg as <-. cbn. congruence. }
  exists w1, w2. split; [exact Hj1|]. split; [exact Hj2|]. split; [exact Hget2|].
  split; [unfold w2; cbn; now rewrite last_snoc|].
  split; [intros data; now apply host_start_unauthorized|].
  split; [now apply host_skip_not_host|].
  unfold disconnect. rewrite Hsock. cbn [socket_sessionId socket_isHost].
  assert (Hget3 : sessions_get (Some sid) (set_sockets (delete c1 (sockets w2)) w2)
                  = Some (set_hostSocketId (Some c2) s)) by exact Hget2.
  rewrite Hget3. eexists. split; [reflexivity|]. split.
  - cbn. intros Hin. apply elem_of_difference in Hin as [_ Hin].
    apply Hin, elem_of_singleton. reflexivity.
  - cbn. now rewrite last_snoc.
Qed.


(** X9.  When a player's socket disconnects, its entry leaves the players
    map and the entries of the others stay as they are, in their order;
    the room is sent the roster of those who remain; the status, the
    question index, the clock and the timers of the session are not
    touched. *)
Theorem player_disconnect_removes_entry (w : World) (c sid : string) (s : Session) :
  socket_sessionId (getSocket c w) = Some sid →
  socket_isHost (getSocket c w) = false →
  sessions_get (Some sid) w = Some s →
  ∃ w',
    disconnect c w = Some w'
    ∧ sessions_get (Some sid) w' = Some (set_players (Map_delete c (players s)) s)
    ∧ Map_get c (Map_delete c (players s)) = None
    ∧ (∀ k, k ≠ c → Map_get k (Map_delete c (players s)) = Map_get k (players s))
    ∧ Map_delete c (players s)
      = List.filter (λ e, negb (String.eqb (fst e) c)) (players s)
    ∧ emitted w'
      = emitted w ++ [(io_to (Some sid),
                       lobby_players (quizName s) (roster (Map_delete c (players s))))]
    ∧ sessions w' = sessions w ∧ tasks w' = tasks w
    ∧ sockets w' !! c = None.
Proof.
  intros Hsid Hhost Hget. unfold disconnect. rewrite Hsid, Hhost.
  assert (Hget' : sessions_get (Some sid) (set_sockets (delete c (sockets w)) w) = Some s)
    by exact Hget.
  rewrite Hget'. eexists. split; [reflexivity|].
  split; [exact (sessions_get_put _ sid s _ Hget')|].
  split; [apply Map_get_delete_eq|].
  split; [intros k Hk; apply Map_get_delete_ne; congruence|].
  split; [reflexivity|]. split; [reflexivity|]. split; [reflexivity|].
  split; [reflexivity|]. cbn. apply lookup_delete_eq.
Qed.


Lemma unique_name_gone (m : JsMap Player) (c : string) (p : Player) :
  names_unique m → Map_get c m = Some p →
  Forall (λ e, sameName (name p) (snd e) = false) (Map_delete c m).
Proof.
  unfold names_unique, existingNames, Map_values, Map_delete.
  induction m as [|[k v] m IH]; intros Hnd Hg; [constructor|].
  cbn in Hnd. apply NoDup_cons in Hnd as [Hv Hnd].
  unfold Map_get in Hg. cbn [List.find fst] in Hg.
  cbn [List.filter fst]. destruct (String.eqb_spec k c) as [-> | Hk].
  - cbn in Hg. injection Hg as <-. cbn [negb].
    apply List.Forall_forall. intros e Hin. apply List.filter_In in Hin as [Hin _].
    unfold sameName. apply String.eqb_neq. intros E. apply Hv.
    rewrite <- E. apply list_elem_of_In.
    exact (List.in_map (λ p, toLowerCase (name p)) _ _ (List.in_map snd _ _ Hin)).
  - cbn [negb]. constructor.
    + cbn [snd]. unfold sameName. apply String.eqb_neq. intros E. apply Hv.
      rewrite E. apply list_elem_of_In.
      assert (Hin : In (c, p) m) by (apply Map_get_Some_In; exact Hg).
      apply (List.in_map snd) in Hin.
      apply (List.in_map (λ p, toLowerCase (name p))) in Hin. exact Hin.
    + apply IH; [exact Hnd | exact Hg].
Qed.

(** X10.  A player whose socket has disconnected cannot come back once
    the quiz has left the lobby: the entry that a reconnect by name would
    find is gone, so a [player:join] under the same name is answered with
    "Quiz has already started" and changes nothing else. *)
Theorem disconnected_player_cannot_rejoin (w : World) (c c' sid : string) (s : Session)
    (p : Player) :
  socket_sessionId (getSocket c w) = Some sid →
  socket_isHost (getSocket c w) = false →
  sessions_get (Some sid) w = Some s →
  Map_get c (players s) = Some p →
  names_unique (players s) →
  status s ≠ lobby →
  ∃ w',
    disconnect c w = Some w'
    ∧ player_join c' sid (name p) w'
      = Some (emit (socket_emit c') (error Quiz_has_already_started) w').
Proof.
  intros Hsid Hhost Hget Hp Huniq Hst. unfold disconnect. rewrite Hsid, Hhost.
  assert (Hget' : sessions_get (Some sid) (set_sockets (delete c (sockets w)) w) = Some s)
    by exact Hget.
  rewrite Hget'. eexists. split; [reflexivity|].
  set (s' := set_players (Map_delete c (players s)) s).
  set (w' := emit _ _ _).
  assert (Hget2 : sessions_get (Some sid) w' = Some s')
    by exact (sessions_get_put _ sid s _ Hget').
  rewrite (player_join_no_match w' c' sid (name p) s' Hget2).
  - rewrite decide_False by exact Hst. reflexivity.
  - exact (unique_name_gone (players s) c p Huniq Hp).
Qed.

End HostsAndPlayers.

Lemma imported_empty_quiz_cannot_start_witness :
  ∃ w1 w2 w3,
    POST_api_import "s1" (Jobj [("questions", Jarr [])]%string) emptyWorld
    = Some (res_json (Jobj [("sessionId", Jstr "s1")]%string), w1)
    ∧ host_join "h" "s1" w1 = Some w2
    ∧ player_join "a" "s1" "Ann" w2 = Some w3
    ∧ host_start "h" None w3 = None.
Proof.
  destruct (imported_empty_quiz_cannot_start "s1" "h" "a" "Ann"
              (Jobj [("questions", Jarr [])]%string) None "Importerat Quiz" None emptyWorld)
    as (_ & w1 & w2 & w3 & H1 & H2 & H3 & _ & H4);
    [reflexivity | reflexivity | reflexivity | discriminate |].
  exists w1, w2, w3. auto.
Defined.

Lemma host_join_takeover_witness :
  ∃ w1 w2, host_join "h" "s1" lobbyWorld = Some w1 ∧ host_join "x" "s1" w1 = Some w2
           ∧ hostSocketId (sessionOf "s1" w2) = Some "x"%string.
Proof.
  destruct (host_join_takeover lobbyWorld "s1" "h" "x" (sessionOf "s1" lobbyWorld))
    as (w1 & w2 & H1 & H2 & H3 & _); [vm_compute; reflexivity | discriminate |].
  exists w1, w2. split; [exact H1|]. split; [exact H2|].
  apply sessions_get_Some in H3 as [_ H3]. unfold sessionOf. now rewrite H3.
Defined.

Lemma player_disconnect_removes_entry_witness :
  ∃ w', disconnect "a" readyWorld = Some w'
        ∧ (players <$> sessions_get (Some "s1"%string) w')
          = Some [("b", mkPlayer "Bob" 0 None None)]%string.
Proof.
  destruct (player_disconnect_removes_entry readyWorld "a" "s1" (sessionOf "s1" readyWorld))
    as (w' & Hd & Hget & _); [vm_compute; reflexivity..|].
  exists w'. split; [exact Hd|]. rewrite Hget. vm_compute. reflexivity.
Defined.

Lemma disconnected_player_cannot_rejoin_witness :
  ∃ w', disconnect "a" startedWorld = Some w'
        ∧ player_join "a2" "s1" "Ann" w'
          = Some (emit (socket_emit "a2") (error Quiz_has_already_started) w').
Proof.
  apply (disconnected_player_cannot_rejoin startedWorld "a" "a2" "s1"
           (sessionOf "s1" startedWorld) (mkPlayer "Ann" 0 None None)).
  - vm_compute; reflexivity.
  - vm_compute; reflexivity.
  - vm_compute; reflexivity.
  - vm_compute; reflexivity.
  - refine (bool_decide_unpack _ _). vm_compute. exact I.
  - vm_compute. discriminate.
Defined.

(** ** Player names stay different *)

Section Names.
Context `{CaseFold}.

Lemma existingNames_cons (k : string) (p : Player) (m : JsMap Player) :
  existingNames ((k, p) :: m) = toLowerCase (name p) :: existingNames m.
Proof. reflexivity. Qed.

Lemma existingNames_set_sub (k : string) (v : Player) (m : JsMap Player) (x : string) :
  x ∈ existingNames (Map_set k v m) → x = toLowerCase (name v) ∨ x ∈ existingNames m.
Proof.
  induction m as [|[k' v'] m IH]; cbn [Map_set].
  - rewrite existingNames_cons. intros Hx. apply elem_of_cons in Hx as [-> | Hx]; auto.
  - destruct (String.eqb k' k); rewrite !existingNames_cons; intros Hx;
      apply elem_of_cons in Hx as [-> | Hx]; auto.
    + right. apply elem_of_cons. now right.
    + right. apply elem_of_cons. now left.
    + destruct (IH Hx) as [-> | Hin]; auto. right. apply elem_of_cons. now right.
Qed.

(** A new entry, or an entry that replaces the one of its key, under a
    name that nobody has. *)
Lemma names_unique_set (k : string) (v : Player) (m : JsMap Player) :
  names_unique m → toLowerCase (name v) ∉ existingNames m →
  names_unique (Map_set k v m).
Proof.
  unfold names_unique. induction m as [|[k' v'] m IH]; cbn [Map_set]; intros Hnd Hv.
  - rewrite existingNames_cons. apply NoDup_cons. split; [apply not_elem_of_nil | constructor].
  - rewrite existingNames_cons in Hnd, Hv. apply NoDup_cons in Hnd as [Hv' Hnd].
    apply not_elem_of_cons in Hv as [Hne Hv].
    destruct (String.eqb k' k); rewrite existingNames_cons; apply NoDup_cons.
    + split; assumption.
    + split; [|now apply IH]. intros Hin.
      apply existingNames_set_sub in Hin as [E | Hin]; [congruence | contradiction].
Qed.

(** The entry of a key is replaced by one of the same name. *)
Lemma existingNames_set_same (k : string) (p v : Player) (m : JsMap Player) :
  Map_get k m = Some p → name v = name p →
  existingNames (Map_set k v m) = existingNames m.
Proof.
  unfold Map_get. induction m as [|[k' v'] m IH]; cbn [List.find fst Map_set]; [discriminate|].
  destruct (String.eqb k' k) eqn:E; intros Hg Hname.
  - cbn in Hg. injection Hg as ->. rewrite !existingNames_cons. now rewrite Hname.
  - rewrite !existingNames_cons. f_equal. now apply IH.
Qed.

Lemma existingNames_map (f : Player → Player) (m : JsMap Player) :
  (∀ p, name (f p) = name p) →
  existingNames (List.map (λ e, (fst e, f (snd e))) m) = existingNames m.
Proof.
  intros Hf. unfold existingNames, Map_values. rewrite !List.map_map. cbn.
  apply List.map_ext. intros e. now rewrite Hf.
Qed.

Lemma names_unique_delete (k : string) (m : JsMap Player) :
  names_unique m → names_unique (Map_delete k m).
Proof.
  unfold names_unique, Map_delete. induction m as [|[k' v'] m IH]; [trivial|].
  rewrite existingNames_cons. intros Hnd. apply NoDup_cons in Hnd as [Hv Hnd].
  cbn [List.filter fst]. destruct (negb (String.eqb k' k)); [|now apply IH].
  rewrite existingNames_cons. apply NoDup_cons. split; [|now apply IH].
  intros Hin. apply Hv. unfold existingNames, Map_values in *.
  apply list_elem_of_In in Hin. apply list_elem_of_In.
  rewrite List.map_map in *. apply List.in_map_iff in Hin as (e & E & Hin).
  apply List.filter_In in Hin as [Hin _]. apply List.in_map_iff. eauto.
Qed.

Lemma names_unique_reset (m : JsMap Player) :
  names_unique m → names_unique (resetAnswers m).
Proof.
  unfold names_unique, resetAnswers. now rewrite (existingNames_map resetAnswer).
Qed.

Lemma names_unique_reconnect (c old : string) (pd : Player) (m : JsMap Player) :
  names_unique m → Map_get old m = Some pd →
  names_unique (Map_set c pd (Map_delete old m)).
Proof.
  intros Hu Hg. apply names_unique_set; [now apply names_unique_delete|].
  apply no_match_no_collision. now apply unique_name_gone.
Qed.

Lemma names_inv_put (w w' : World) (sid : string) (s1 : Session) :
  names_inv w → store w' = <[sid := s1]> (store w) → names_unique (players s1) →
  names_inv w'.
Proof.
  unfold names_inv. intros Hinv -> Hs1. now apply map_Forall_insert_2.
Qed.

Lemma names_inv_same (w w' : World) : names_inv w → store w' = store w → names_inv w'.
Proof. unfold names_inv. now intros Hinv ->. Qed.

Lemma sendQuestion_names (w w' : World) (sid : string) :
  names_inv w → sendQuestion sid w = Some w' → names_inv w'.
Proof.
  intros Hinv Hrun.
  destruct (store w !! sid) as [s|] eqn:Hs.
  2:{ unfold sendQuestion in Hrun. rewrite Hs in Hrun. discriminate. }
  destruct (questions s !! currentQuestionIndex s) as [q|] eqn:Hq.
  2:{ unfold sendQuestion in Hrun. rewrite Hs in Hrun. cbn in Hrun.
      rewrite Hq in Hrun. discriminate. }
  destruct (sendQuestion_unfold w sid s q Hs Hq)
    as (w1 & s' & Hrun1 & _ & _ & _ & Hstore & _ & _ & _ & Hpl & _).
  assert (w1 = w') by congruence. subst w1.
  apply (names_inv_put w w' sid s' Hinv Hstore). rewrite Hpl.
  apply names_unique_reset. exact (Hinv sid s Hs).
Qed.

Lemma endQuestion_names (w w' : World) (sid : string) :
  names_inv w → endQuestion sid w = Some w' → names_inv w'.
Proof.
  intros Hinv Hrun.
  destruct (store w !! sid) as [s|] eqn:Hs.
  2:{ unfold endQuestion in Hrun. rewrite Hs in Hrun. discriminate. }
  destruct (questions s !! currentQuestionIndex s) as [q|] eqn:Hq.
  2:{ unfold endQuestion in Hrun. rewrite Hs in Hrun. cbn in Hrun.
      rewrite Hq in Hrun. discriminate. }
  destruct (endQuestion_unfold w sid s q Hs Hq) as (w1 & Hrun1 & Hstore & _).
  assert (w1 = w') by congruence. subst w1.
  apply (names_inv_put w w' sid _ Hinv Hstore). cbn [players set_players set_currentQuestionIndex].
  unfold names_unique. rewrite (existingNames_map (scorePlayer q (TIME_LIMIT s))) by reflexivity.
  exact (Hinv sid s Hs).
Qed.

Lemma endQuiz_names (w w' : World) (sid : string) :
  names_inv w → endQuiz sid w = Some w' → names_inv w'.
Proof.
  intros Hinv. unfold endQuiz. destruct (store w !! sid) as [s|] eqn:Hs; [|discriminate].
  cbn [mbind option_bind]. intros [= <-].
  apply (names_inv_put w _ sid (set_status finished s) Hinv); [reflexivity|].
  exact (Hinv sid s Hs).
Qed.

Lemma fire_names (w w' : World) (h : nat) :
  names_inv w → fire h w = Some w' → names_inv w'.
Proof.
  intros Hinv. unfold fire.
  destruct (tasks w !! h) as [[sid|sid n isLast|id]|] eqn:Hh.
  - unfold question_tick. destruct (store w !! sid) as [s|] eqn:Hs; [|discriminate].
    cbn [mbind option_bind]. cbn [timeLeft set_timeLeft session_id timer].
    destruct (timeLeft s - 1 <=? 0).
    + apply endQuestion_names.
      apply (names_inv_put w _ sid (set_timer None (set_timeLeft (timeLeft s - 1) s)) Hinv).
      * cbn. now rewrite store_clearInterval.
      * exact (Hinv sid s Hs).
    + intros [= <-].
      apply (names_inv_put w _ sid (set_timeLeft (timeLeft s - 1) s) Hinv); [reflexivity|].
      exact (Hinv sid s Hs).
  - unfold countdown_tick. destruct (store w !! sid) as [s|] eqn:Hs; [|discriminate].
    cbn [mbind option_bind]. destruct (n - 1 <? 0).
    + set (w1 := clearInterval (Some h)
                   (emit (io_to (Some (session_id s))) (quiz_countdown n isLast) w)).
      assert (Hinv1 : names_inv w1) by (apply (names_inv_same w w1 Hinv); reflexivity).
      destruct isLast; [apply endQuiz_names, Hinv1|].
      destruct (decide (status s = playing)); [apply sendQuestion_names, Hinv1|].
      intros [= <-]. exact Hinv1.
    + intros [= <-]. apply (names_inv_same w _ Hinv). reflexivity.
  - unfold cleanup_fire. cbn.
    destruct (decide _); intros [= <-]; apply (names_inv_same w _ Hinv); reflexivity.
  - intros [= <-]. exact Hinv.
Qed.

Lemma host_join_names (w w' : World) (c sid : string) :
  names_inv w → host_join c sid w = Some w' → names_inv w'.
Proof.
  intros Hinv. unfold host_join. destruct (sessions_get (Some sid) w) as [s|] eqn:Hget.
  - intros [= <-]. apply sessions_get_Some in Hget as [_ Hs].
    apply (names_inv_put w _ sid (set_hostSocketId (Some c) s) Hinv); [reflexivity|].
    exact (Hinv sid s Hs).
  - intros [= <-]. exact Hinv.
Qed.

Lemma player_answer_names (w w' : World) (c : string) (a : Z) :
  names_inv w → player_answer c a w = Some w' → names_inv w'.
Proof.
  intros Hinv. unfold player_answer.
  destruct (socket_sessionId (getSocket c w)) as [sid|]; [|intros [= <-]; exact Hinv].
  destruct (sessions_get (Some sid) w) as [s|] eqn:Hget; [|intros [= <-]; exact Hinv].
  destruct (negb _); [intros [= <-]; exact Hinv|].
  destruct (Map_get c (players s)) as [p|] eqn:Hp; [|intros [= <-]; exact Hinv].
  intros [= <-]. apply sessions_get_Some in Hget as [_ Hs].
  apply (names_inv_put w _ sid
           (set_players (Map_set c (recordAnswer (timeLeft s) a p) (players s)) s) Hinv);
    [reflexivity|].
  cbn [players set_players]. unfold names_unique.
  rewrite (existingNames_set_same c p) by (exact Hp || reflexivity).
  exact (Hinv sid s Hs).
Qed.

Lemma host_skip_names (w w' : World) (c : string) :
  names_inv w → host_skip c w = Some w' → names_inv w'.
Proof.
  intros Hinv. unfold host_skip.
  destruct (socket_sessionId (getSocket c w)) as [sid|]; [|intros [= <-]; exact Hinv].
  destruct (sessions_get (Some sid) w) as [s|] eqn:Hget; [|intros [= <-]; exact Hinv].
  destruct (negb _); [intros [= <-]; exact Hinv|].
  apply sessions_get_Some in Hget as [_ Hs].
  apply endQuestion_names. destruct (timer s) as [h|]; [|exact Hinv].
  apply (names_inv_put w _ sid (set_timer None s) Hinv); [reflexivity|].
  exact (Hinv sid s Hs).
Qed.

Lemma disconnect_names (w w' : World) (c : string) :
  names_inv w → disconnect c w = Some w' → names_inv w'.
Proof.
  intros Hinv. unfold disconnect.
  destruct (socket_sessionId (getSocket c w)) as [sid|];
    [|intros [= <-]; apply (names_inv_same w _ Hinv); reflexivity].
  destruct (sessions_get (Some sid) _) as [s|] eqn:Hget;
    [|intros [= <-]; apply (names_inv_same w _ Hinv); reflexivity].
  apply sessions_get_Some in Hget as [_ Hs]. cbn in Hs.
  destruct (socket_isHost _); intros [= <-].
  - apply (names_inv_same w _ Hinv). cbn. now rewrite store_clearInterval.
  - apply (names_inv_put w _ sid (set_players (Map_delete c (players s)) s) Hinv);
      [reflexivity|].
    apply names_unique_delete. exact (Hinv sid s Hs).
Qed.

Lemma host_start_names (w w' : World) (c : string) (data : option Z) :
  names_inv w → host_start c data w = Some w' → names_inv w'.
Proof.
  intros Hinv. unfold host_start.
  destruct (socket_sessionId (getSocket c w)) as [sid|]; [|intros [= <-]; exact Hinv].
  destruct (sessions_get (Some sid) w) as [s|] eqn:Hget; [|intros [= <-]; exact Hinv].
  destruct (negb _); [intros [= <-]; exact Hinv|].
  destruct (bool_decide _); [intros [= <-]; exact Hinv|].
  apply sessions_get_Some in Hget as [_ Hs].
  apply sendQuestion_names.
  eapply (names_inv_put w _ sid _ Hinv); [reflexivity|].
  cbn [players set_players]. apply names_unique_reset. exact (Hinv sid s Hs).
Qed.

Lemma player_join_names (w w' : World) (c sid nm : string) :
  names_inv w → player_join c sid nm w = Some w' → names_inv w'.
Proof.
  intros Hinv. unfold player_join. destruct (sessions_get (Some sid) w) as [s|] eqn:Hget.
  2:{ intros [= <-]. exact Hinv. }
  apply sessions_get_Some in Hget as [_ Hs].
  assert (Hjoined : ∀ ps, names_unique ps → names_inv (joined c sid s ps w)).
  { intros ps Hps. apply (names_inv_put w _ sid (set_players ps s) Hinv); [reflexivity|].
    exact Hps. }
  destruct (_ && _); [intros [= <-]; exact Hinv|].
  destruct (negb _).
  - destruct (bool_decide _) eqn:Hdup; intros [= <-]; [exact Hinv|].
    apply Hjoined. apply names_unique_set; [exact (Hinv sid s Hs)|].
    cbn [name]. now apply bool_decide_eq_false in Hdup.
  - destruct (List.find _ (Map_entries _)) as [e|]; [|discriminate].
    cbn [mbind option_bind]. destruct (Map_get _ _) as [pd|] eqn:Hpd; [|discriminate].
    cbn [mbind option_bind]. intros [= <-]. apply Hjoined.
    apply (names_unique_reconnect c (fst e) pd); [exact (Hinv sid s Hs) | exact Hpd].
Qed.

Lemma step_names (w w' : World) (e : Event) :
  names_inv w → step w e = Some w' → names_inv w'.
Proof.
  intros Hinv. destruct e; cbn [step].
  - now apply host_join_names.
  - now apply player_join_names.
  - now apply host_start_names.
  - now apply player_answer_names.
  - now apply host_skip_names.
  - now apply disconnect_names.
  - now apply fire_names.
Qed.

(** X11.  The players of a session never share a name, letter case apart:
    whatever the sockets send and whichever timers come due, in any order,
    if the names in every session were different before, they are
    different afterwards.  In particular this holds for every session that
    started empty. *)
Theorem run_names_unique (es : list Event) (w w' : World) :
  names_inv w → run es w = Some w' →
  ∀ sid s, store w' !! sid = Some s → NoDup (existingNames (players s)).
Proof.
  revert w. induction es as [|e es IH]; intros w Hinv Hrun.
  - injection Hrun as <-. exact Hinv.
  - cbn [run] in Hrun. destruct (step w e) as [w1|] eqn:Hstep; [|discriminate].
    cbn in Hrun. eapply IH; [|exact Hrun]. eapply step_names; eauto.
Qed.
End Names.

Lemma run_names_unique_witness :
  NoDup (existingNames
           (players (sessionOf "s1"
                       (after (opening ++ [ev_player_join "c" "s1" "ANN";
                                           ev_player_join "d" "s1" "Cy";
                                           ev_player_join "d" "s1" "bob"]) lobbyWorld)))).
Proof.
  apply (run_names_unique
           (opening ++ [ev_player_join "c" "s1" "ANN"; ev_player_join "d" "s1" "Cy";
                        ev_player_join "d" "s1" "bob"])
           lobbyWorld
           (after (opening ++ [ev_player_join "c" "s1" "ANN"; ev_player_join "d" "s1" "Cy";
                               ev_player_join "d" "s1" "bob"]) lobbyWorld))
    with (sid := "s1"%string).
  - refine (bool_decide_unpack _ _). vm_compute. exact I.
  - vm_compute. reflexivity.
  - vm_compute. reflexivity.
Defined.

(** ** Timers *)

Lemma set_timeLeft_twice (a b : Z) (s : Session) :
  set_timeLeft a (set_timeLeft b s) = set_timeLeft a s.
Proof. reflexivity. Qed.

Lemma set_timeLeft_same (s : Session) : set_timeLeft (timeLeft s) s = s.
Proof. now destruct s. Qed.

Lemma ticksDown_app (L : Z) (n m : nat) :
  ticksDown L (n + m) = ticksDown L n ++ ticksDown (L - Z.of_nat n) m.
Proof.
  revert L. induction n as [|n IH]; intros L.
  - cbn. now rewrite Z.sub_0_r.
  - cbn [Nat.add ticksDown app]. rewrite IH. do 3 f_equal. lia.
Qed.

Section Timers.
Context `{CaseFold}.

Lemma run_app (es1 es2 : list Event) (w : World) :
  run (es1 ++ es2) w = w1 ← run es1 w; run es2 w1.
Proof.
  revert w. induction es1 as [|e es1 IH]; intros w; [reflexivity|].
  cbn [app run]. destruct (step w e) as [w1|]; [|reflexivity]. cbn. apply IH.
Qed.

Lemma run_one (e : Event) (w : World) : run [e] w = step w e.
Proof. cbn [run]. now destruct (step w e). Qed.

(** While more than one second is left, ticks of the question timer only
    move the clock and announce it. *)
Lemma question_ticks (n : nat) :
  ∀ (w : World) (sid : string) (s : Session) (h : nat),
    store w !! sid = Some s → tasks w !! h = Some (question_interval sid) →
    Z.of_nat n < timeLeft s →
    ∃ w',
      run (replicate n (ev_timer h)) w = Some w'
      ∧ store w' = <[sid := set_timeLeft (timeLeft s - Z.of_nat n) s]> (store w)
      ∧ tasks w' = tasks w ∧ next_handle w' = next_handle w
      ∧ sessions w' = sessions w ∧ sockets w' = sockets w
      ∧ emitted w'
        = emitted w ++ ((λ t, (io_to (Some (session_id s)), quiz_timer t))
                          <$> ticksDown (timeLeft s) n).
Proof.
  induction n as [|n IH]; intros w sid s h Hs Hh Hn.
  - exists w. split; [reflexivity|]. split.
    + rewrite Z.sub_0_r, set_timeLeft_same. symmetry. now apply insert_id.
    + cbn. now rewrite app_nil_r.
  - cbn [replicate run step]. unfold fire. rewrite Hh.
    rewrite (question_tick_running w sid s Hs) by lia. cbn [mbind option_bind].
    set (s1 := set_timeLeft (timeLeft s - 1) s).
    set (w1 := put_session sid s1 _).
    destruct (IH w1 sid s1 h) as (w' & Hrun & Hstore & Htasks & Hnext & Hsess & Hsock & Hem).
    + cbn. apply lookup_insert_eq.
    + exact Hh.
    + cbn. lia.
    + exists w'. split; [exact Hrun|]. split; [|split; [|split; [|split; [|split]]]].
      * rewrite Hstore. cbn [store w1 put_session set_store]. rewrite insert_insert_eq.
        unfold s1. rewrite set_timeLeft_twice. cbn [timeLeft set_timeLeft].
        do 2 f_equal. lia.
      * now rewrite Htasks.
      * now rewrite Hnext.
      * now rewrite Hsess.
      * now rewrite Hsock.
      * rewrite Hem. cbn [emitted w1 put_session set_store emit ticksDown fmap list_fmap
                          timeLeft set_timeLeft s1 session_id].
        now rewrite <- app_assoc.
Qed.

(** The tick that brings the clock to zero ends the question. *)
Lemma question_tick_expires (w : World) (sid : string) (s : Session) (h : nat) (q : Question) :
  store w !! sid = Some s → timer s = Some h → timeLeft s ≤ 1 →
  questions s !! currentQuestionIndex s = Some q →
  ∃ w',
    question_tick sid w = Some w'
    ∧ store w' = <[sid := questionEnded q (set_timer None (set_timeLeft (timeLeft s - 1) s))]>
                   (store w)
    ∧ tasks w' = <[next_handle w :=
                     countdown_interval sid 5
                       (bool_decide (length (questions s) ≤ S (currentQuestionIndex s))%nat)]>
                   (delete h (tasks w))
    ∧ next_handle w' = S (next_handle w)
    ∧ sessions w' = sessions w ∧ sockets w' = sockets w
    ∧ emitted w'
      = emitted w ++
        [(io_to (Some (session_id s)), quiz_timer (timeLeft s - 1));
         (io_to (Some (session_id s)),
          quiz_results (correctIndex q) (Array_at (options q) (correctIndex q))
            (Array_sort (λ a b, result_totalScore b - result_totalScore a)
                        (questionResults q (TIME_LIMIT s) (players s))))].
Proof.
  intros Hs Htimer Hleft Hq. unfold question_tick. rewrite Hs. cbn [mbind option_bind].
  cbn [timeLeft set_timeLeft session_id timer].
  rewrite (proj2 (Z.leb_le (timeLeft s - 1) 0)) by lia. rewrite Htimer.
  set (s1 := set_timer None (set_timeLeft (timeLeft s - 1) s)).
  set (w1 := put_session sid s1 _).
  destruct (endQuestion_unfold w1 sid s1 q) as (w' & Hrun & Hstore & Hsess & Hsock & Htasks
                                                   & Hnext & Hem).
  - cbn. apply lookup_insert_eq.
  - exact Hq.
  - exists w'. split; [exact Hrun|]. split; [|split; [|split; [|split; [|split]]]].
    + rewrite Hstore. cbn [store w1 put_session set_store clearInterval set_tasks emit].
      now rewrite insert_insert_eq.
    + rewrite Htasks. reflexivity.
    + rewrite Hnext. reflexivity.
    + rewrite Hsess. reflexivity.
    + rewrite Hsock. reflexivity.
    + rewrite Hem. cbn [emitted w1 put_session set_store clearInterval set_tasks emit].
      rewrite <- app_assoc. reflexivity.
Qed.

(** A question from the first tick of its timer to the results. *)
Lemma question_phase (w : World) (sid : string) (s : Session) (h : nat) (q : Question) :
  store w !! sid = Some s → timer s = Some h →
  tasks w !! h = Some (question_interval sid) →
  1 ≤ timeLeft s →
  questions s !! currentQuestionIndex s = Some q →
  ∃ w',
    run (replicate (Z.to_nat (timeLeft s)) (ev_timer h)) w = Some w'
    ∧ store w' = <[sid := questionEnded q (set_timer None (set_timeLeft 0 s))]> (store w)
    ∧ tasks w' = <[next_handle w :=
                     countdown_interval sid 5
                       (bool_decide (length (questions s) ≤ S (currentQuestionIndex s))%nat)]>
                   (delete h (tasks w))
    ∧ next_handle w' = S (next_handle w)
    ∧ sessions w' = sessions w ∧ sockets w' = sockets w
    ∧ emitted w'
      = emitted w
        ++ ((λ t, (io_to (Some (session_id s)), quiz_timer t))
              <$> ticksDown (timeLeft s) (Z.to_nat (timeLeft s)))
        ++ [(io_to (Some (session_id s)),
             quiz_results (correctIndex q) (Array_at (options q) (correctIndex q))
               (Array_sort (λ a b, result_totalScore b - result_totalScore a)
                           (questionResults q (TIME_LIMIT s) (players s))))].
Proof.
  intros Hs Htimer Hh Hleft Hq.
  set (n := Z.to_nat (timeLeft s - 1)).
  assert (En : Z.to_nat (timeLeft s) = (n + 1)%nat) by (unfold n; lia).
  rewrite En, replicate_add, run_app.
  destruct (question_ticks n w sid s h Hs Hh ltac:(unfold n; lia))
    as (w1 & Hrun & Hstore & Htasks & Hnext & Hsess & Hsock & Hem).
  rewrite Hrun. cbn [mbind option_bind replicate run step]. unfold fire.
  rewrite Htasks, Hh.
  set (s1 := set_timeLeft (timeLeft s - Z.of_nat n) s) in *.
  destruct (question_tick_expires w1 sid s1 h q) as (w' & Hrun' & Hstore' & Htasks' & Hnext'
                                                       & Hsess' & Hsock' & Hem').
  - rewrite Hstore. apply lookup_insert_eq.
  - exact Htimer.
  - cbn. unfold n. lia.
  - exact Hq.
  - rewrite Hrun'. cbn [mbind option_bind]. exists w'. split; [reflexivity|].
    assert (E0 : timeLeft s - Z.of_nat n - 1 = 0) by (unfold n; lia).
    split; [|split; [|split; [|split; [|split]]]].
    + rewrite Hstore', Hstore, insert_insert_eq. unfold s1. cbn [timeLeft set_timeLeft].
      rewrite set_timeLeft_twice, E0. reflexivity.
    + rewrite Htasks', Htasks, Hnext. reflexivity.
    + now rewrite Hnext', Hnext.
    + now rewrite Hsess', Hsess.
    + now rewrite Hsock', Hsock.
    + rewrite Hem', Hem. unfold s1. cbn [timeLeft set_timeLeft session_id players TIME_LIMIT].
      rewrite <- !app_assoc. f_equal.
      rewrite (ticksDown_app (timeLeft s) n 1), fmap_app, <- app_assoc.
      reflexivity.
Qed.

(** While the countdown has not reached zero, its ticks announce it and
    count it down. *)
Lemma countdown_ticks (n : nat) :
  ∀ (w : World) (sid : string) (s : Session) (h : nat) (k : Z) (isLast : bool),
    store w !! sid = Some s → tasks w !! h = Some (countdown_interval sid k isLast) →
    Z.of_nat n ≤ k →
    ∃ w',
      run (replicate n (ev_timer h)) w = Some w'
      ∧ store w' = store w
      ∧ tasks w' = <[h := countdown_interval sid (k - Z.of_nat n) isLast]> (tasks w)
      ∧ next_handle w' = next_handle w
      ∧ sessions w' = sessions w ∧ sockets w' = sockets w
      ∧ emitted w'
        = emitted w ++ ((λ t, (io_to (Some (session_id s)), quiz_countdown t isLast))
                          <$> ticksDown (k + 1) n).
Proof.
  induction n as [|n IH]; intros w sid s h k isLast Hs Hh Hn.
  - exists w. split; [reflexivity|]. split; [reflexivity|]. split.
    + rewrite Z.sub_0_r. symmetry. now apply insert_id.
    + cbn. now rewrite app_nil_r.
  - cbn [replicate run step]. unfold fire. rewrite Hh.
    unfold countdown_tick. rewrite Hs. cbn [mbind option_bind].
    rewrite (proj2 (Z.ltb_ge (k - 1) 0)) by lia.
    cbn [mbind option_bind].
    set (w1 := set_tasks _ _).
    destruct (IH w1 sid s h (k - 1) isLast)
      as (w' & Hrun & Hstore & Htasks & Hnext & Hsess & Hsock & Hem).
    + exact Hs.
    + cbn. apply lookup_insert_eq.
    + lia.
    + exists w'. split; [exact Hrun|]. split; [|split; [|split; [|split; [|split]]]].
      * now rewrite Hstore.
      * rewrite Htasks. cbn [tasks w1 set_tasks emit]. rewrite insert_insert_eq.
        do 2 f_equal. lia.
      * now rewrite Hnext.
      * now rewrite Hsess.
      * now rewrite Hsock.
      * rewrite Hem. cbn [emitted w1 set_tasks emit ticksDown fmap list_fmap].
        rewrite <- app_assoc. cbn [app].
        replace (k + 1 - 1) with k by lia. replace (k - 1 + 1) with k by lia. reflexivity.
Qed.

Lemma sendQuestion_sent (w : World) (sid : string) (s : Session) (q : Question) :
  store w !! sid = Some s →
  questions s !! currentQuestionIndex s = Some q →
  sendQuestion sid w
  = Some (put_session sid (questionSent (next_handle w) s)
            (set_next_handle (S (next_handle w))
               (set_tasks (<[next_handle w := question_interval sid]> (tasks w))
                  (emit (io_to (hostSocketId s)) (host_correctAnswer (correctIndex q))
                     (emit (io_to (Some (session_id s)))
                        (quiz_question (currentQuestionIndex s + 1) (length (questions s))
                           (question q) (options q) (TIME_LIMIT s) (Map_size (players s)))
                        w))))).
Proof.
  intros Hs Hq. unfold sendQuestion. rewrite Hs. cbn [mbind option_bind].
  cbn [questions currentQuestionIndex set_players]. rewrite Hq. cbn [mbind option_bind].
  unfold Map_size, resetAnswers. cbn [players set_players]. rewrite length_map.
  reflexivity.
Qed.

(** The countdown between two questions, from its first tick to what it
    starts when it has announced zero. *)
Lemma countdown_phase (w : World) (sid : string) (s : Session) (h : nat) (k : Z)
    (isLast : bool) :
  store w !! sid = Some s → tasks w !! h = Some (countdown_interval sid k isLast) →
  0 ≤ k →
  let room := io_to (Some (session_id s)) in
  let announced :=
    emitted w ++ ((λ t, (room, quiz_countdown t isLast)) <$> ticksDown (k + 1) (Z.to_nat k + 1)) in
  run (replicate (Z.to_nat k + 1) (ev_timer h)) w
  = if isLast then
      Some (mkWorld (sessions w) (<[sid := set_status finished s]> (store w)) (sockets w)
              (<[next_handle w := cleanup_timeout (session_id s)]> (delete h (tasks w)))
              (S (next_handle w))
              (announced ++ [(room, quiz_finished (podiumOf (finalStandings (players s)))
                                                  (finalStandings (players s)))]))
    else if decide (status s = playing) then
      sendQuestion sid
        (mkWorld (sessions w) (store w) (sockets w) (delete h (tasks w)) (next_handle w)
                 announced)
    else
      Some (mkWorld (sessions w) (store w) (sockets w) (delete h (tasks w)) (next_handle w)
                    announced).
Proof.
  intros Hs Hh Hk room announced.
  rewrite replicate_add, run_app.
  destruct (countdown_ticks (Z.to_nat k) w sid s h k isLast Hs Hh ltac:(lia))
    as (w1 & Hrun & Hstore & Htasks & Hnext & Hsess & Hsock & Hem).
  rewrite Hrun. cbn [mbind option_bind replicate]. rewrite run_one. cbn [step]. unfold fire.
  rewrite Htasks, lookup_insert_eq. unfold countdown_tick. rewrite Hstore, Hs.
  cbn [mbind option_bind].
  replace (k - Z.of_nat (Z.to_nat k)) with 0 by lia.
  change (0 - 1 <? 0) with true. cbn [mbind option_bind].
  assert (Hann : emitted w1 ++ [(room, quiz_countdown 0 isLast)] = announced).
  { unfold announced. rewrite Hem, (ticksDown_app (k + 1) (Z.to_nat k) 1), fmap_app.
    rewrite <- app_assoc. do 2 f_equal. cbn. do 3 f_equal. lia. }
  assert (Hw1 : clearInterval (Some h) (emit room (quiz_countdown 0 isLast) w1)
                = mkWorld (sessions w) (store w) (sockets w) (delete h (tasks w))
                          (next_handle w) announced).
  { unfold clearInterval, emit, set_tasks. cbn.
    rewrite Hsess, Hstore, Hsock, Htasks, Hnext, delete_insert_eq. fold room.
    now rewrite Hann. }
  fold room. rewrite Hw1. destruct isLast.
  - unfold endQuiz. cbn [store]. rewrite Hs. reflexivity.
  - destruct (decide (status s = playing)); reflexivity.
Qed.

(** X12.  A running question timer: before its last second the ticks
    change nothing but the clock, so the question is neither ended early
    nor twice; the tick that brings the clock to zero cancels the timer,
    scores the question once, moves to the next index and starts the
    countdown to what follows.  The room is sent the seconds left after
    every tick, then the results. *)
Theorem question_timer_runs_out (w : World) (sid : string) (s : Session) (h : nat)
    (q : Question) :
  store w !! sid = Some s → timer s = Some h →
  tasks w !! h = Some (question_interval sid) →
  1 ≤ timeLeft s →
  questions s !! currentQuestionIndex s = Some q →
  (∀ n, Z.of_nat n < timeLeft s →
     ∃ w1, run (replicate n (ev_timer h)) w = Some w1
           ∧ store w1 !! sid = Some (set_timeLeft (timeLeft s - Z.of_nat n) s)
           ∧ tasks w1 = tasks w)
  ∧ ∃ w',
      run (replicate (Z.to_nat (timeLeft s)) (ev_timer h)) w = Some w'
      ∧ store w' !! sid = Some (questionEnded q (set_timer None (set_timeLeft 0 s)))
      ∧ tasks w' = <[next_handle w :=
                       countdown_interval sid 5
                         (bool_decide (length (questions s) ≤ S (currentQuestionIndex s))%nat)]>
                     (delete h (tasks w))
      ∧ emitted w'
        = emitted w
          ++ ((λ t, (io_to (Some (session_id s)), quiz_timer t))
                <$> ticksDown (timeLeft s) (Z.to_nat (timeLeft s)))
          ++ [(io_to (Some (session_id s)),
               quiz_results (correctIndex q) (Array_at (options q) (correctIndex q))
                 (Array_sort (λ a b, result_totalScore b - result_totalScore a)
                             (questionResults q (TIME_LIMIT s) (players s))))].
Proof.
  intros Hs Htimer Hh Hleft Hq. split.
  - intros n Hn.
    destruct (question_ticks n w sid s h Hs Hh Hn) as (w1 & Hrun & Hstore & Htasks & _).
    exists w1. split; [exact Hrun|]. split; [|exact Htasks].
    rewrite Hstore. apply lookup_insert_eq.
  - destruct (question_phase w sid s h q Hs Htimer Hh Hleft Hq)
      as (w' & Hrun & Hstore & Htasks & _ & _ & _ & Hem).
    exists w'. split; [exact Hrun|]. split; [|split; [exact Htasks | exact Hem]].
    rewrite Hstore. apply lookup_insert_eq.
Qed.

(** X13.  The countdown between two questions.  Its ticks announce the
    seconds from the value it holds down to 0 and change nothing else;
    the tick that announces 0 cancels the countdown and then ends the quiz
    when the question was the last one, sends the next question when the
    session is playing, and does nothing more when it is not. *)
Theorem countdown_runs_out (w : World) (sid : string) (s : Session) (h : nat) (k : Z)
    (isLast : bool) :
  store w !! sid = Some s → tasks w !! h = Some (countdown_interval sid k isLast) →
  0 ≤ k →
  (∀ n, Z.of_nat n ≤ k →
     ∃ w1, run (replicate n (ev_timer h)) w = Some w1 ∧ store w1 = store w
           ∧ tasks w1 = <[h := countdown_interval sid (k - Z.of_nat n) isLast]> (tasks w)
           ∧ emitted w1
             = emitted w ++ ((λ t, (io_to (Some (session_id s)), quiz_countdown t isLast))
                               <$> ticksDown (k + 1) n))
  ∧ (isLast = true →
     ∃ w', run (replicate (Z.to_nat k + 1) (ev_timer h)) w = Some w'
           ∧ store w' = <[sid := set_status finished s]> (store w)
           ∧ tasks w' = <[next_handle w := cleanup_timeout (session_id s)]> (delete h (tasks w))
           ∧ last (emitted w')
             = Some (io_to (Some (session_id s)),
                     quiz_finished (podiumOf (finalStandings (players s)))
                                   (finalStandings (players s))))
  ∧ (isLast = false → status s = playing →
     ∀ q, questions s !! currentQuestionIndex s = Some q →
     ∃ w', run (replicate (Z.to_nat k + 1) (ev_timer h)) w = Some w'
           ∧ store w' = <[sid := questionSent (next_handle w) s]> (store w)
           ∧ tasks w' = <[next_handle w := question_interval sid]> (delete h (tasks w))
           ∧ last (emitted w')
             = Some (io_to (hostSocketId s), host_correctAnswer (correctIndex q)))
  ∧ (isLast = false → status s ≠ playing →
     ∃ w', run (replicate (Z.to_nat k + 1) (ev_timer h)) w = Some w'
           ∧ store w' = store w ∧ tasks w' = delete h (tasks w)
           ∧ last (emitted w') = Some (io_to (Some (session_id s)), quiz_countdown 0 false)).
Proof.
  intros Hs Hh Hk. split; [|split; [|split]].
  - intros n Hn.
    destruct (countdown_ticks n w sid s h k isLast Hs Hh Hn)
      as (w1 & Hrun & Hstore & Htasks & _ & _ & _ & Hem).
    exists w1. auto.
  - intros ->. rewrite (countdown_phase w sid s h k true Hs Hh Hk).
    eexists. split; [reflexivity|]. cbn [store tasks emitted].
    split; [reflexivity|]. split; [reflexivity|]. apply last_snoc.
  - intros -> Hst q Hq. rewrite (countdown_phase w sid s h k false Hs Hh Hk).
    rewrite decide_True by exact Hst.
    erewrite (sendQuestion_sent _ sid s q); [|exact Hs|exact Hq].
    eexists. split; [reflexivity|]. cbn [store tasks emitted put_session set_store
                                         set_next_handle set_tasks emit next_handle].
    split; [reflexivity|]. split; [reflexivity|]. apply last_snoc.
  - intros -> Hst. rewrite (countdown_phase w sid s h k false Hs Hh Hk).
    rewrite decide_False by exact Hst.
    eexists. split; [reflexivity|]. cbn [store tasks emitted].
    split; [reflexivity|]. split; [reflexivity|].
    rewrite (ticksDown_app (k + 1) (Z.to_nat k) 1), fmap_app, app_assoc. cbn [ticksDown fmap list_fmap].
    rewrite last_snoc. do 3 f_equal. lia.
Qed.

Lemma quiz_completes_from (remaining : nat) :
  ∀ (w : World) (sid : string) (s : Session) (h : nat),
    store w !! sid = Some s → status s = playing → timer s = Some h →
    tasks w !! h = Some (question_interval sid) →
    1 ≤ timeLeft s → 1 ≤ TIME_LIMIT s →
    (currentQuestionIndex s + remaining)%nat = length (questions s) →
    (0 < remaining)%nat →
    ∃ w' s',
      run (timerSchedule remaining (Z.to_nat (TIME_LIMIT s)) (Z.to_nat (timeLeft s)) h
                         (next_handle w)) w = Some w'
      ∧ store w' !! sid = Some s'
      ∧ status s' = finished
      ∧ currentQuestionIndex s' = length (questions s)
      ∧ questions s' = questions s
      ∧ timer s' = None
      ∧ last (emitted w')
        = Some (io_to (Some (session_id s)),
                quiz_finished (podiumOf (finalStandings (players s')))
                              (finalStandings (players s')))
      ∧ tasks w' !! pred (next_handle w') = Some (cleanup_timeout (session_id s))
      ∧ sessions w' = sessions w.
Proof.
  induction remaining as [|r IH]; intros w sid s h Hs Hst Htimer Hh Hleft HL Hrem Hpos; [lia|].
  destruct (lookup_lt_is_Some_2 (questions s) (currentQuestionIndex s)) as [q Hq]; [lia|].
  cbn [timerSchedule]. rewrite run_app.
  destruct (question_phase w sid s h q Hs Htimer Hh Hleft Hq)
    as (w1 & Hrun1 & Hstore1 & Htasks1 & Hnext1 & Hsess1 & _ & _).
  rewrite Hrun1. cbn [mbind option_bind]. rewrite run_app.
  set (s1 := questionEnded q (set_timer None (set_timeLeft 0 s))) in *.
  assert (Hs1 : store w1 !! sid = Some s1) by (rewrite Hstore1; apply lookup_insert_eq).
  set (isLast := bool_decide (length (questions s) ≤ S (currentQuestionIndex s))%nat) in *.
  assert (Hh1 : tasks w1 !! next_handle w = Some (countdown_interval sid 5 isLast))
    by (rewrite Htasks1; apply lookup_insert_eq).
  change 6%nat with (Z.to_nat 5 + 1)%nat.
  rewrite (countdown_phase w1 sid s1 (next_handle w) 5 isLast Hs1 Hh1 ltac:(lia)).
  destruct r as [|r].
  - unfold isLast. rewrite bool_decide_eq_true_2 by lia.
    cbn [mbind option_bind timerSchedule run].
    eexists. exists (set_status finished s1).
    split; [reflexivity|]. cbn [store tasks emitted next_handle sessions pred].
    split; [apply lookup_insert_eq|]. split; [reflexivity|].
    split; [cbn; lia|]. split; [reflexivity|]. split; [reflexivity|].
    split; [apply last_snoc|]. split; [|exact Hsess1].
    rewrite Hnext1. apply lookup_insert_eq.
  - unfold isLast. rewrite bool_decide_eq_false_2 by lia.
    rewrite decide_True by exact Hst.
    destruct (lookup_lt_is_Some_2 (questions s1) (currentQuestionIndex s1)) as [q' Hq'];
      [cbn; lia|].
    erewrite (sendQuestion_sent _ sid s1 q'); [|exact Hs1|exact Hq'].
    cbn [mbind option_bind next_handle].
    set (w2 := put_session _ _ _).
    destruct (IH w2 sid (questionSent (next_handle w1) s1) (next_handle w1))
      as (w' & s' & Hrun' & Hs' & Hfin & Hidx & Hqs & Htm & Hlast & Hclean & Hsess').
    + cbn. apply lookup_insert_eq.
    + exact Hst.
    + reflexivity.
    + cbn. apply lookup_insert_eq.
    + exact HL.
    + exact HL.
    + cbn. lia.
    + lia.
    + exists w', s'.
      split.
      { assert (Hn2 : next_handle w2 = S (S (next_handle w)))
          by (cbn; now rewrite Hnext1).
        rewrite <- Hrun', Hn2, Hnext1. reflexivity. }
      split; [exact Hs'|]. split; [exact Hfin|]. split; [exact Hidx|].
      split; [exact Hqs|]. split; [exact Htm|]. split; [exact Hlast|].
      split; [exact Hclean|]. rewrite Hsess'. exact Hsess1.
Qed.

(** X14.  A quiz that is left to its timers comes to its end.  From a
    running question, with nobody skipping or disconnecting, every
    remaining question runs to the end of its time and is followed by the
    six ticks of its countdown; after the last countdown the session is
    finished, the final standings have been sent and the clean-up of the
    session is scheduled. *)
Theorem quiz_runs_to_completion (w : World) (sid : string) (s : Session) (h : nat) :
  store w !! sid = Some s → status s = playing → timer s = Some h →
  tasks w !! h = Some (question_interval sid) →
  1 ≤ timeLeft s → 1 ≤ TIME_LIMIT s →
  (currentQuestionIndex s < length (questions s))%nat →
  ∃ w' s',
    run (timerSchedule (length (questions s) - currentQuestionIndex s)
                       (Z.to_nat (TIME_LIMIT s)) (Z.to_nat (timeLeft s)) h (next_handle w)) w
    = Some w'
    ∧ store w' !! sid = Some s'
    ∧ status s' = finished
    ∧ currentQuestionIndex s' = length (questions s)
    ∧ questions s' = questions s
    ∧ timer s' = None
    ∧ last (emitted w')
      = Some (io_to (Some (session_id s)),
              quiz_finished (podiumOf (finalStandings (players s')))
                            (finalStandings (players s')))
    ∧ tasks w' !! pred (next_handle w') = Some (cleanup_timeout (session_id s))
    ∧ sessions w' = sessions w.
Proof.
  intros Hs Hst Htimer Hh Hleft HL Hidx.
  apply quiz_completes_from; auto; lia.
Qed.
End Timers.

Lemma question_timer_runs_out_witness :
  ∃ w', run (replicate 10 (ev_timer 0)) startedWorld = Some w'
        ∧ currentQuestionIndex (sessionOf "s1" w') = 1%nat
        ∧ tasks w' = {[ 1%nat := countdown_interval "s1" 5 false ]}.
Proof.
  destruct (proj2 (question_timer_runs_out startedWorld "s1" (sessionOf "s1" startedWorld)
                     0%nat q1 ltac:(vm_compute; reflexivity) ltac:(vm_compute; reflexivity)
                     ltac:(vm_compute; reflexivity) ltac:(vm_compute; discriminate)
                     ltac:(vm_compute; reflexivity)))
    as (w' & Hrun & Hs & Htasks & _).
  exists w'. split; [exact Hrun|]. split.
  - unfold sessionOf. rewrite Hs. reflexivity.
  - rewrite Htasks. vm_compute. reflexivity.
Defined.

Lemma countdown_runs_out_witness :
  ∃ w', run (replicate 6 (ev_timer 1)) betweenQuestions = Some w'
        ∧ tasks w' = {[ 2%nat := question_interval "s1" ]}.
Proof.
  destruct (proj1 (proj2 (proj2 (countdown_runs_out betweenQuestions "s1"
                                   (sessionOf "s1" betweenQuestions) 1%nat 5 false
                                   ltac:(vm_compute; reflexivity)
                                   ltac:(vm_compute; reflexivity)
                                   ltac:(discriminate))))
             eq_refl ltac:(vm_compute; reflexivity) q2 ltac:(vm_compute; reflexivity))
    as (w' & Hrun & _ & Htasks & _).
  exists w'. split; [exact Hrun|]. rewrite Htasks. vm_compute. reflexivity.
Defined.

Lemma quiz_runs_to_completion_witness :
  ∃ w', run (timerSchedule 3 10 10 0 1) startedWorld = Some w'
        ∧ status (sessionOf "s1" w') = finished.
Proof.
  destruct (quiz_runs_to_completion startedWorld "s1" (sessionOf "s1" startedWorld) 0%nat)
    as (w' & s' & Hrun & Hs & Hfin & _);
    [vm_compute; reflexivity | vm_compute; reflexivity | vm_compute; reflexivity
    | vm_compute; reflexivity | vm_compute; discriminate | vm_compute; discriminate
    | vm_compute; lia |].
  exists w'. split; [exact Hrun|]. unfold sessionOf. now rewrite Hs.
Defined.

(** ** The end of a session *)

Section Cleanup.
Context `{CaseFold}.

Lemma unknown_session (v : World) (id : string) :
  id ∉ sessions v →
  (∀ c, host_join c id v = Some (emit (socket_emit c) (error Session_not_found) v))
  ∧ (∀ c nm, player_join c id nm v
             = Some (emit (socket_emit c) (error Session_not_found) v))
  ∧ GET_api_session id v = res_error 404 "Session not found".
Proof.
  intros Hnin.
  assert (Hget : sessions_get (Some id) v = None).
  { unfold sessions_get. now rewrite decide_False. }
  split; [intros c; unfold host_join; now rewrite Hget|].
  split; [intros c nm; now apply player_join_not_found|].
  unfold GET_api_session. now rewrite Hget.
Qed.

(** X15.  [endQuiz] sets a timeout that removes the session from the
    registry.  When it comes due the identifier is unknown from then on:
    joins are answered with "Session not found" and
    [GET /api/session/:id] with 404.  The session object and the other
    sessions are not touched, a session that the host's disconnect has
    removed already stays removed, and the timeout does not run twice. *)
Theorem finished_session_cleanup (w : World) (sid : string) (s : Session) :
  store w !! sid = Some s →
  (∃ w1, endQuiz sid w = Some w1
         ∧ tasks w1 = <[next_handle w := cleanup_timeout (session_id s)]> (tasks w)
         ∧ sessions w1 = sessions w)
  ∧ ∀ (v : World) (h : nat) (id : string),
      tasks v !! h = Some (cleanup_timeout id) →
      ∃ v',
        fire h v = Some v'
        ∧ (∀ k, k ∈ sessions v' ↔ k ∈ sessions v ∧ k ≠ id)
        ∧ store v' = store v ∧ emitted v' = emitted v
        ∧ tasks v' = delete h (tasks v)
        ∧ fire h v' = Some v'
        ∧ (∀ c, host_join c id v' = Some (emit (socket_emit c) (error Session_not_found) v'))
        ∧ (∀ c nm, player_join c id nm v'
                   = Some (emit (socket_emit c) (error Session_not_found) v'))
        ∧ GET_api_session id v' = res_error 404 "Session not found".
Proof.
  intros Hs. split.
  - unfold endQuiz. rewrite Hs. eexists. split; [reflexivity|]. split; reflexivity.
  - intros v h id Hh. unfold fire at 1. rewrite Hh. unfold cleanup_fire.
    cbn [sessions set_tasks].
    destruct (decide (id ∈ sessions v)) as [Hin|Hnin].
    + set (v' := set_sessions _ _). exists v'. split; [reflexivity|].
      assert (Hreg : ∀ k, k ∈ sessions v' ↔ k ∈ sessions v ∧ k ≠ id).
      { intros k. cbn. rewrite elem_of_difference, elem_of_singleton. reflexivity. }
      split; [exact Hreg|]. split; [reflexivity|]. split; [reflexivity|].
      split; [reflexivity|].
      split; [unfold fire; cbn; now rewrite lookup_delete_eq|].
      apply unknown_session. intros Hk. apply Hreg in Hk as [_ Hne]. now destruct Hne.
    + set (v' := set_tasks _ _). exists v'. split; [reflexivity|].
      split. { intros k. cbn. split; [|tauto]. intros Hk. split; [exact Hk|]. now intros ->. }
      split; [reflexivity|]. split; [reflexivity|]. split; [reflexivity|].
      split; [unfold fire; cbn; now rewrite lookup_delete_eq|].
      now apply unknown_session.
Qed.
End Cleanup.

(** ** The results of a question *)

(** X16.  The results that [endQuestion] sends: one entry for every
    player, ordered by descending total score, with equal totals in the
    order of the players map; the total of each entry is the score that
    the player has in the session afterwards, the old score plus the
    points of the entry; the text of the correct answer is missing exactly
    when [correctIndex] is not an index of the options. *)
Theorem endQuestion_results_ranked (w : World) (sid : string) (s : Session) (q : Question) :
  store w !! sid = Some s →
  questions s !! currentQuestionIndex s = Some q →
  ∃ w' s' results correctAnswer,
    endQuestion sid w = Some w' ∧ store w' !! sid = Some s'
    ∧ currentQuestionIndex s' = S (currentQuestionIndex s)
    ∧ last (emitted w')
      = Some (io_to (Some (session_id s)),
              quiz_results (correctIndex q) correctAnswer results)
    ∧ Permutation results (questionResults q (TIME_LIMIT s) (players s))
    ∧ descending result_totalScore results
    ∧ (∀ v, List.filter (λ r, result_totalScore r =? v) results
            = List.filter (λ r, result_totalScore r =? v)
                          (questionResults q (TIME_LIMIT s) (players s)))
    ∧ List.map (λ e, (name (snd e), score (snd e))) (players s')
      = List.map (λ r, (result_name r, result_totalScore r))
                 (questionResults q (TIME_LIMIT s) (players s))
    ∧ List.map (λ r, result_totalScore r - result_pointsEarned r)
               (questionResults q (TIME_LIMIT s) (players s))
      = List.map (λ e, score (snd e)) (players s)
    ∧ (correctAnswer = None ↔ correctIndex q < 0 ∨ Z.of_nat (length (options q)) ≤ correctIndex q).
Proof.
  intros Hs Hq.
  destruct (endQuestion_unfold w sid s q Hs Hq) as (w' & Hrun & Hstore & _ & _ & _ & _ & Hem).
  eexists w', _, _, _. split; [exact Hrun|].
  split; [rewrite Hstore; apply lookup_insert_eq|].
  split; [reflexivity|].
  split; [rewrite Hem; apply last_snoc|].
  split; [apply (Array_sort_perm result_totalScore)|].
  split; [apply (Array_sort_descending result_totalScore)|].
  split; [intros v; apply (Array_sort_stable result_totalScore)|].
  split.
  { cbn [players set_players set_currentQuestionIndex]. unfold questionResults, Map_values.
    rewrite !List.map_map. apply List.map_ext. reflexivity. }
  split.
  { unfold questionResults, Map_values. rewrite !List.map_map. apply List.map_ext.
    intros e. cbn. lia. }
  unfold Array_at. destruct (correctIndex q <? 0) eqn:E.
  - apply Z.ltb_lt in E. split; [intros _; now left|reflexivity].
  - apply Z.ltb_ge in E. rewrite lookup_ge_None. split; intros Hx; [right|]; lia.
Qed.

Lemma endQuestion_results_ranked_witness :
  ∃ w' results,
    endQuestion "s1" scoringWorld = Some w'
    ∧ last (emitted w')
      = Some (io_to (Some "s1"%string), quiz_results 1 (Some "4"%string) results)
    ∧ List.map result_totalScore results = [900].
Proof.
  destruct (endQuestion_results_ranked scoringWorld "s1" (sessionOf "s1" scoringWorld) q1)
    as (w' & s' & results & ans & Hrun & _ & _ & Hlast & _);
    [vm_compute; reflexivity..|].
  exists w'. vm_compute in Hrun. injection Hrun as <-.
  vm_compute in Hlast. injection Hlast as <- <-.
  eexists. split; [vm_compute; reflexivity|]. split; vm_compute; reflexivity.
Defined.

Lemma finished_session_cleanup_witness :
  ∃ w1, endQuiz "s1" finalWorld = Some w1
        ∧ tasks w1 = {[ 0%nat := cleanup_timeout "s1" ]}.
Proof.
  destruct (proj1 (finished_session_cleanup finalWorld "s1" (sessionOf "s1" finalWorld)
                     ltac:(vm_compute; reflexivity)))
    as (w1 & Hrun & Htasks & _).
  exists w1. split; [exact Hrun|]. rewrite Htasks. vm_compute. reflexivity.
Defined.

(** ** Sessions side by side *)

Lemma same_outside_refl (o : option string) (w w' : World) :
  store w' = store w → sessions w' = sessions w → same_outside o w w'.
Proof. intros Hst Hse k _. now rewrite Hst, Hse. Qed.

Lemma same_outside_put (sid : string) (s1 : Session) (w w' : World) :
  store w' = <[sid := s1]> (store w) → sessions w' = sessions w →
  same_outside (Some sid) w w'.
Proof.
  intros Hst Hse k Hk. rewrite Hst, Hse. split; [reflexivity|].
  apply lookup_insert_ne. congruence.
Qed.

Lemma same_outside_trans (o : option string) (w1 w2 w3 : World) :
  same_outside o w1 w2 → same_outside o w2 w3 → same_outside o w1 w3.
Proof.
  intros H12 H23 k Hk. destruct (H12 k Hk) as [Ha Hb], (H23 k Hk) as [Hc Hd].
  split; [now rewrite Hc | now rewrite Hd].
Qed.

Lemma sendQuestion_outside (sid : string) (w w' : World) :
  sendQuestion sid w = Some w' → same_outside (Some sid) w w'.
Proof.
  intros Hrun.
  destruct (store w !! sid) as [s|] eqn:Hs.
  2:{ unfold sendQuestion in Hrun. rewrite Hs in Hrun. discriminate. }
  destruct (questions s !! currentQuestionIndex s) as [q|] eqn:Hq.
  2:{ unfold sendQuestion in Hrun. rewrite Hs in Hrun. cbn in Hrun.
      rewrite Hq in Hrun. discriminate. }
  destruct (sendQuestion_unfold w sid s q Hs Hq)
    as (w1 & s' & Hrun1 & _ & _ & Hsess & Hstore & _).
  assert (w1 = w') by congruence. subst w1.
  now apply (same_outside_put sid s').
Qed.

Lemma endQuestion_outside (sid : string) (w w' : World) :
  endQuestion sid w = Some w' → same_outside (Some sid) w w'.
Proof.
  intros Hrun.
  destruct (store w !! sid) as [s|] eqn:Hs.
  2:{ unfold endQuestion in Hrun. rewrite Hs in Hrun. discriminate. }
  destruct (questions s !! currentQuestionIndex s) as [q|] eqn:Hq.
  2:{ unfold endQuestion in Hrun. rewrite Hs in Hrun. cbn in Hrun.
      rewrite Hq in Hrun. discriminate. }
  destruct (endQuestion_unfold w sid s q Hs Hq) as (w1 & Hrun1 & Hstore & Hsess & _).
  assert (w1 = w') by congruence. subst w1.
  now apply (same_outside_put sid _ w w' Hstore).
Qed.

Lemma endQuiz_outside (sid : string) (w w' : World) :
  endQuiz sid w = Some w' → same_outside (Some sid) w w'.
Proof.
  unfold endQuiz. destruct (store w !! sid) as [s|]; [|discriminate].
  cbn [mbind option_bind]. intros [= <-].
  now apply (same_outside_put sid (set_status finished s)).
Qed.

Lemma fire_outside (h : nat) (w w' : World) :
  fire h w = Some w' → same_outside (eventSession w (ev_timer h)) w w'.
Proof.
  unfold fire. cbn [eventSession].
  destruct (tasks w !! h) as [[sid|sid n isLast|id]|].
  - unfold question_tick. destruct (store w !! sid) as [s|]; [|discriminate].
    cbn [mbind option_bind]. cbn [timeLeft set_timeLeft session_id timer].
    destruct (timeLeft s - 1 <=? 0).
    + intros Hrun. eapply same_outside_trans; [|eapply endQuestion_outside, Hrun].
      eapply same_outside_put; [cbn; now rewrite store_clearInterval|].
      cbn. now destruct (timer s).
    + intros [= <-]. now eapply same_outside_put.
  - unfold countdown_tick. destruct (store w !! sid) as [s|]; [|discriminate].
    cbn [mbind option_bind]. destruct (n - 1 <? 0).
    + set (w1 := clearInterval (Some h) _).
      assert (H1 : same_outside (Some sid) w w1) by now apply same_outside_refl.
      destruct isLast.
      * intros Hrun. eapply same_outside_trans; [exact H1|]. eapply endQuiz_outside, Hrun.
      * destruct (decide (status s = playing)).
        -- intros Hrun. eapply same_outside_trans; [exact H1|].
           eapply sendQuestion_outside, Hrun.
        -- intros [= <-]. exact H1.
    + intros [= <-]. now apply same_outside_refl.
  - unfold cleanup_fire. cbn [sessions set_tasks].
    destruct (decide _); intros [= <-].
    + intros k Hk. cbn. split; [|reflexivity].
      rewrite elem_of_difference, elem_of_singleton. split; [tauto|].
      intros Hin. split; [exact Hin|]. congruence.
    + now apply same_outside_refl.
  - intros [= <-]. now apply same_outside_refl.
Qed.

Section SideBySide.
Context `{CaseFold}.

Lemma step_outside (w w' : World) (e : Event) :
  step w e = Some w' → same_outside (eventSession w e) w w'.
Proof.
  destruct e as [c sid|c sid nm|c data|c a|c|c|h]; cbn [step eventSession].
  - unfold host_join. destruct (sessions_get (Some sid) w) as [s|]; intros [= <-].
    + now eapply same_outside_put.
    + now apply same_outside_refl.
  - unfold player_join. destruct (sessions_get (Some sid) w) as [s|].
    2:{ intros [= <-]. now apply same_outside_refl. }
    assert (Hjoined : ∀ ps, same_outside (Some sid) w (joined c sid s ps w))
      by (intros ps; now eapply same_outside_put).
    destruct (_ && _); [intros [= <-]; now apply same_outside_refl|].
    destruct (negb _).
    + destruct (bool_decide _); intros [= <-]; [now apply same_outside_refl | apply Hjoined].
    + destruct (List.find _ (Map_entries _)) as [e|]; [|discriminate].
      cbn [mbind option_bind]. destruct (Map_get _ _) as [pd|]; [|discriminate].
      cbn [mbind option_bind]. intros [= <-]. apply Hjoined.
  - unfold host_start.
    destruct (socket_sessionId (getSocket c w)) as [sid|];
      [|intros [= <-]; now apply same_outside_refl].
    destruct (sessions_get (Some sid) w) as [s|];
      [|intros [= <-]; now apply same_outside_refl].
    destruct (negb _); [intros [= <-]; now apply same_outside_refl|].
    destruct (bool_decide _); [intros [= <-]; now apply same_outside_refl|].
    intros Hrun. eapply same_outside_trans; [|eapply sendQuestion_outside, Hrun].
    now eapply same_outside_put.
  - unfold player_answer.
    destruct (socket_sessionId (getSocket c w)) as [sid|];
      [|intros [= <-]; now apply same_outside_refl].
    destruct (sessions_get (Some sid) w) as [s|];
      [|intros [= <-]; now apply same_outside_refl].
    destruct (negb _); [intros [= <-]; now apply same_outside_refl|].
    destruct (Map_get c (players s)) as [p|]; intros [= <-];
      [now eapply same_outside_put | now apply same_outside_refl].
  - unfold host_skip.
    destruct (socket_sessionId (getSocket c w)) as [sid|];
      [|intros [= <-]; now apply same_outside_refl].
    destruct (sessions_get (Some sid) w) as [s|];
      [|intros [= <-]; now apply same_outside_refl].
    destruct (negb _); [intros [= <-]; now apply same_outside_refl|].
    intros Hrun. eapply same_outside_trans; [|eapply endQuestion_outside, Hrun].
    destruct (timer s); [now eapply same_outside_put | now apply same_outside_refl].
  - unfold disconnect.
    destruct (socket_sessionId (getSocket c w)) as [sid|];
      [|intros [= <-]; now apply same_outside_refl].
    destruct (sessions_get (Some sid) _) as [s|];
      [|intros [= <-]; now apply same_outside_refl].
    destruct (socket_isHost _); intros [= <-].
    + intros k Hk. cbn. rewrite store_clearInterval. split; [|reflexivity].
      rewrite elem_of_difference, elem_of_singleton.
      assert (Hsess : sessions (clearInterval (timer s) (set_sockets (delete c (sockets w)) w))
                      = sessions w) by now destruct (timer s).
      rewrite Hsess. split; [tauto|]. intros Hin. split; [exact Hin|]. congruence.
    + now eapply same_outside_put.
  - apply fire_outside.
Qed.

(** X17.  Sessions do not interfere.  An event is about one session: the
    one a join names, the one the sending socket is attached to, or the
    one whose timer comes due.  Whatever the event does, every other
    session keeps its place in the registry and its session object, with
    players, scores, status and clock, as they were. *)
Theorem sessions_do_not_interfere (w w' : World) (e : Event) (k : string) :
  step w e = Some w' → eventSession w e ≠ Some k →
  (k ∈ sessions w' ↔ k ∈ sessions w) ∧ store w' !! k = store w !! k.
Proof.
  intros Hstep Hk. apply (step_outside w w' e Hstep k). congruence.
Qed.

Lemma step_ended (w w' : World) (e : Event) (sid : string) :
  sid ∉ sessions w → is_timer e = false → step w e = Some w' →
  (sid ∉ sessions w') ∧ store w' !! sid = store w !! sid.
Proof.
  intros Hnin Het Hstep.
  destruct (decide (eventSession w e = Some sid)) as [Hev|Hev].
  2:{ destruct (step_outside w w' e Hstep sid ltac:(congruence)) as [Hreg Hst].
      split; [now rewrite Hreg | exact Hst]. }
  assert (Hget : ∀ soc, sessions_get (Some sid) (set_sockets soc w) = None).
  { intros soc. unfold sessions_get. cbn. now rewrite decide_False. }
  assert (Hget0 : sessions_get (Some sid) w = None).
  { unfold sessions_get. now rewrite decide_False. }
  destruct e as [c sid0|c sid0 nm|c data|c a|c|c|h]; cbn [step eventSession] in *;
    try discriminate.
  - injection Hev as ->. unfold host_join in Hstep. rewrite Hget0 in Hstep.
    injection Hstep as <-. now split.
  - injection Hev as ->. rewrite player_join_not_found in Hstep by exact Hget0.
    injection Hstep as <-. now split.
  - unfold host_start in Hstep. rewrite Hev, Hget0 in Hstep. injection Hstep as <-. now split.
  - unfold player_answer in Hstep. rewrite Hev, Hget0 in Hstep. injection Hstep as <-. now split.
  - unfold host_skip in Hstep. rewrite Hev, Hget0 in Hstep. injection Hstep as <-. now split.
  - unfold disconnect in Hstep. rewrite Hev, Hget in Hstep. injection Hstep as <-. now split.
Qed.

(** X18.  A session that has left the registry, by the host's disconnect
    or by the clean-up, is out of reach of the sockets: whatever they send
    afterwards, the session is not registered again and its object is not
    changed.  Only its own timers still act on it. *)
Theorem ended_session_is_frozen (es : list Event) (w w' : World) (sid : string) :
  sid ∉ sessions w → forallb (λ e, negb (is_timer e)) es = true →
  run es w = Some w' →
  (sid ∉ sessions w') ∧ store w' !! sid = store w !! sid.
Proof.
  revert w. induction es as [|e es IH]; intros w Hnin Hes Hrun.
  - injection Hrun as <-. now split.
  - cbn [forallb] in Hes. apply andb_prop in Hes as [He Hes].
    cbn [run] in Hrun. destruct (step w e) as [w1|] eqn:Hstep; [|discriminate].
    cbn in Hrun.
    destruct (step_ended w w1 e sid Hnin ltac:(now destruct (is_timer e)) Hstep)
      as [Hnin1 Hst1].
    destruct (IH w1 Hnin1 Hes Hrun) as [Hnin' Hst'].
    split; [exact Hnin'|]. now rewrite Hst'.
Qed.
End SideBySide.

Lemma sessions_do_not_interfere_witness :
  ∃ w', step (createSession "s2" "Other" [q2] readyWorld) (ev_host_start "h" None) = Some w'
        ∧ store w' !! "s2"%string = Some (newSession "s2" "Other" [q2]).
Proof.
  destruct (step (createSession "s2" "Other" [q2] readyWorld) (ev_host_start "h" None))
    as [w'|] eqn:Hstep; [|vm_compute in Hstep; discriminate].
  exists w'. split; [reflexivity|].
  destruct (sessions_do_not_interfere (createSession "s2" "Other" [q2] readyWorld) w'
              (ev_host_start "h" None) "s2" Hstep ltac:(vm_compute; discriminate))
    as [_ Hst].
  rewrite Hst. vm_compute. reflexivity.
Defined.

Lemma ended_session_is_frozen_witness :
  ∃ w', run [ev_player_answer "a" 1; ev_host_join "h2" "s1"; ev_player_join "c" "s1" "Cy"]
            (after [ev_disconnect "h"] startedWorld)
        = Some w'
        ∧ store w' !! "s1"%string
          = store (after [ev_disconnect "h"] startedWorld) !! "s1"%string.
Proof.
  destruct (run [ev_player_answer "a" 1; ev_host_join "h2" "s1"; ev_player_join "c" "s1" "Cy"]
                (after [ev_disconnect "h"] startedWorld))
    as [w'|] eqn:Hrun; [|vm_compute in Hrun; discriminate].
  exists w'. split; [reflexivity|].
  apply (ended_session_is_frozen
           [ev_player_answer "a" 1; ev_host_join "h2" "s1"; ev_player_join "c" "s1" "Cy"]
           (after [ev_disconnect "h"] startedWorld) w' "s1");
    [|reflexivity|exact Hrun].
  refine (bool_decide_unpack _ _). vm_compute. exact I.
Defined.

(** ** Scores *)

Lemma points_in_range (q : Question) (L : Z) (k : string) (p : Player) (m : JsMap Player) :
  0 < L → times_ok L m → In (k, p) m →
  0 ≤ pointsEarned q L p ≤ 1000.
Proof.
  intros HL Hm Hin.
  destruct (decide (currentAnswer p = Some (correctIndex q))) as [Hc | Hc].
  - destruct (answerTime p) as [t|] eqn:Ht.
    + assert (500 ≤ pointsEarned q L p ≤ 1000); [|lia].
      eapply pointsEarned_bounds; eauto.
      unfold times_ok in Hm. rewrite List.Forall_forall in Hm.
      apply (Hm (k, p) Hin t Ht).
    + rewrite pointsEarned_wrong; [lia | now right].
  - rewrite pointsEarned_wrong; [lia | now left].
Qed.

Lemma scores_ok_set (n : nat) (k : string) (p : Player) (m : JsMap Player) :
  scores_ok n m → 0 ≤ score p ≤ 1000 * Z.of_nat n → scores_ok n (Map_set k p m).
Proof.
  unfold scores_ok. intros Hm Hp. induction Hm as [|[k' p'] m Hk Hm IH]; cbn.
  - constructor; [exact Hp | constructor].
  - destruct (String.eqb k' k); constructor; assumption.
Qed.

Lemma scores_ok_delete (n : nat) (k : string) (m : JsMap Player) :
  scores_ok n m → scores_ok n (Map_delete k m).
Proof.
  unfold scores_ok, Map_delete. rewrite !List.Forall_forall.
  intros Hm e [He _]%List.filter_In. now apply Hm.
Qed.

Lemma scores_ok_reset (n : nat) (m : JsMap Player) :
  scores_ok n m → scores_ok n (resetAnswers m).
Proof.
  unfold scores_ok, resetAnswers. rewrite !List.Forall_forall.
  intros Hm e (e0 & <- & He)%List.in_map_iff. cbn. now apply Hm.
Qed.

Lemma scores_ok_get (n : nat) (k : string) (p : Player) (m : JsMap Player) :
  scores_ok n m → Map_get k m = Some p → 0 ≤ score p ≤ 1000 * Z.of_nat n.
Proof.
  unfold scores_ok. rewrite List.Forall_forall. intros Hm Hg.
  apply Map_get_Some_In in Hg. apply (Hm _ Hg).
Qed.

Lemma scores_ok_scored (n : nat) (q : Question) (L : Z) (m : JsMap Player) :
  0 < L → times_ok L m → scores_ok n m →
  scores_ok (S n) (List.map (λ e, (fst e, scorePlayer q L (snd e))) m).
Proof.
  unfold scores_ok. intros HL Ht Hm. rewrite List.Forall_forall in *.
  intros e (e0 & <- & He)%List.in_map_iff. cbn.
  pose proof (Hm e0 He) as Hs. destruct e0 as [k p]. cbn in *.
  pose proof (points_in_range q L k p m HL Ht He). lia.
Qed.

Lemma score_inv_put (w w' : World) (sid : string) (s1 : Session) :
  score_inv w → store w' = <[sid := s1]> (store w) →
  (status s1 = lobby → currentQuestionIndex s1 = 0%nat) →
  scores_ok (currentQuestionIndex s1) (players s1) →
  score_inv w'.
Proof.
  intros Hinv Hstore Hl Hs k s Hk. rewrite Hstore in Hk.
  destruct (decide (sid = k)) as [<- | Hne].
  - rewrite lookup_insert_eq in Hk. injection Hk as <-. now split.
  - rewrite lookup_insert_ne in Hk by exact Hne. exact (Hinv k s Hk).
Qed.

Lemma score_inv_same (w w' : World) : score_inv w → store w' = store w → score_inv w'.
Proof. intros Hinv Hstore k s Hk. rewrite Hstore in Hk. exact (Hinv k s Hk). Qed.

Lemma sendQuestion_scores (w w' : World) (sid : string) :
  score_inv w → sendQuestion sid w = Some w' → score_inv w'.
Proof.
  intros Hinv Hrun.
  destruct (store w !! sid) as [s|] eqn:Hs.
  2:{ unfold sendQuestion in Hrun. rewrite Hs in Hrun. discriminate. }
  destruct (questions s !! currentQuestionIndex s) as [q|] eqn:Hq.
  2:{ unfold sendQuestion in Hrun. rewrite Hs in Hrun. cbn in Hrun.
      rewrite Hq in Hrun. discriminate. }
  rewrite (sendQuestion_sent w sid s q Hs Hq) in Hrun. injection Hrun as <-.
  destruct (Hinv sid s Hs) as [Hl Hsc].
  apply (score_inv_put w _ sid (questionSent (next_handle w) s) Hinv); [reflexivity|exact Hl|].
  cbn. now apply scores_ok_reset.
Qed.

Lemma endQuestion_scores (w w' : World) (sid : string) (s : Session) :
  score_inv w → store w !! sid = Some s → status s ≠ lobby →
  0 < TIME_LIMIT s → times_ok (TIME_LIMIT s) (players s) →
  endQuestion sid w = Some w' → score_inv w'.
Proof.
  intros Hinv Hs Hst HL Ht Hrun.
  destruct (questions s !! currentQuestionIndex s) as [q|] eqn:Hq.
  2:{ unfold endQuestion in Hrun. rewrite Hs in Hrun. cbn in Hrun.
      rewrite Hq in Hrun. discriminate. }
  destruct (endQuestion_unfold w sid s q Hs Hq) as (w1 & Hrun1 & Hstore & _).
  assert (w1 = w') by congruence. subst w1.
  destruct (Hinv sid s Hs) as [_ Hsc].
  apply (score_inv_put w w' sid _ Hinv Hstore).
  - cbn. intros E. now destruct Hst.
  - cbn. now apply scores_ok_scored.
Qed.

Lemma endQuiz_scores (w w' : World) (sid : string) :
  score_inv w → endQuiz sid w = Some w' → score_inv w'.
Proof.
  intros Hinv. unfold endQuiz. destruct (store w !! sid) as [s|] eqn:Hs; [|discriminate].
  cbn [mbind option_bind]. intros [= <-].
  apply (score_inv_put w _ sid (set_status finished s) Hinv); [reflexivity|discriminate|].
  exact (proj2 (Hinv sid s Hs)).
Qed.

Lemma running_not_lobby (w : World) (sid : string) (s : Session) (h : nat) (t : Task) :
  countdown_inv w → store w !! sid = Some s → tasks w !! h = Some t →
  isCountdownOf sid t = true → status s ≠ lobby.
Proof.
  intros (_ & _ & _ & Hl) Hs Hh Ht E.
  pose proof (Hl sid s Hs E h t Hh) as Hno. congruence.
Qed.

Lemma fire_scores (w w' : World) (h : nat) :
  countdown_inv w → time_inv w → score_inv w → fire h w = Some w' → score_inv w'.
Proof.
  intros Hcd Htime Hinv. unfold fire.
  destruct (tasks w !! h) as [[sid|sid n isLast|id]|] eqn:Hh.
  - unfold question_tick. destruct (store w !! sid) as [s|] eqn:Hs; [|discriminate].
    cbn [mbind option_bind]. cbn [timeLeft set_timeLeft session_id timer].
    destruct (Hinv sid s Hs) as [Hl Hsc].
    destruct (proj1 Htime sid s Hs) as (Hpos & _ & Hpl).
    assert (Hst : status s ≠ lobby).
    { apply (running_not_lobby w sid s h _ Hcd Hs Hh). cbn. apply String.eqb_refl. }
    destruct (timeLeft s - 1 <=? 0).
    + set (s1 := set_timer None (set_timeLeft (timeLeft s - 1) s)).
      apply (endQuestion_scores _ w' sid s1); [| | exact Hst | exact Hpos | exact Hpl].
      * apply (score_inv_put w _ sid s1 Hinv); [|exact Hl|exact Hsc].
        cbn. now rewrite store_clearInterval.
      * cbn. apply lookup_insert_eq.
    + intros [= <-].
      apply (score_inv_put w _ sid (set_timeLeft (timeLeft s - 1) s) Hinv);
        [reflexivity|exact Hl|exact Hsc].
  - unfold countdown_tick. destruct (store w !! sid) as [s|] eqn:Hs; [|discriminate].
    cbn [mbind option_bind]. destruct (n - 1 <? 0).
    + set (w1 := clearInterval (Some h) _).
      assert (Hinv1 : score_inv w1) by (apply (score_inv_same w w1 Hinv); reflexivity).
      destruct isLast; [apply endQuiz_scores, Hinv1|].
      destruct (decide (status s = playing)); [apply sendQuestion_scores, Hinv1|].
      intros [= <-]. exact Hinv1.
    + intros [= <-]. apply (score_inv_same w _ Hinv). reflexivity.
  - unfold cleanup_fire. cbn.
    destruct (decide _); intros [= <-]; apply (score_inv_same w _ Hinv); reflexivity.
  - intros [= <-]. exact Hinv.
Qed.

Lemma host_join_scores (w w' : World) (c sid : string) :
  score_inv w → host_join c sid w = Some w' → score_inv w'.
Proof.
  intros Hinv. unfold host_join. destruct (sessions_get (Some sid) w) as [s|] eqn:Hget.
  - intros [= <-]. apply sessions_get_Some in Hget as [_ Hs].
    destruct (Hinv sid s Hs) as [Hl Hsc].
    apply (score_inv_put w _ sid (set_hostSocketId (Some c) s) Hinv);
      [reflexivity|exact Hl|exact Hsc].
  - intros [= <-]. exact Hinv.
Qed.

Lemma player_answer_scores (w w' : World) (c : string) (a : Z) :
  score_inv w → player_answer c a w = Some w' → score_inv w'.
Proof.
  intros Hinv. unfold player_answer.
  destruct (socket_sessionId (getSocket c w)) as [sid|]; [|intros [= <-]; exact Hinv].
  destruct (sessions_get (Some sid) w) as [s|] eqn:Hget; [|intros [= <-]; exact Hinv].
  destruct (negb _); [intros [= <-]; exact Hinv|].
  destruct (Map_get c (players s)) as [p|] eqn:Hp; [|intros [= <-]; exact Hinv].
  intros [= <-]. apply sessions_get_Some in Hget as [_ Hs].
  destruct (Hinv sid s Hs) as [Hl Hsc].
  apply (score_inv_put w _ sid
           (set_players (Map_set c (recordAnswer (timeLeft s) a p) (players s)) s) Hinv);
    [reflexivity|exact Hl|].
  cbn. apply scores_ok_set; [exact Hsc|]. cbn. eapply scores_ok_get; eauto.
Qed.

Lemma disconnect_scores (w w' : World) (c : string) :
  score_inv w → disconnect c w = Some w' → score_inv w'.
Proof.
  intros Hinv. unfold disconnect.
  destruct (socket_sessionId (getSocket c w)) as [sid|];
    [|intros [= <-]; apply (score_inv_same w _ Hinv); reflexivity].
  destruct (sessions_get (Some sid) _) as [s|] eqn:Hget;
    [|intros [= <-]; apply (score_inv_same w _ Hinv); reflexivity].
  apply sessions_get_Some in Hget as [_ Hs]. cbn in Hs.
  destruct (Hinv sid s Hs) as [Hl Hsc].
  destruct (socket_isHost _); intros [= <-].
  - apply (score_inv_same w _ Hinv). cbn. now rewrite store_clearInterval.
  - apply (score_inv_put w _ sid (set_players (Map_delete c (players s)) s) Hinv);
      [reflexivity|exact Hl|].
    cbn. now apply scores_ok_delete.
Qed.

Lemma host_start_scores (w w' : World) (c : string) (data : option Z) :
  score_inv w → guarded w (ev_host_start c data) →
  host_start c data w = Some w' → score_inv w'.
Proof.
  intros Hinv Hguard. unfold host_start.
  destruct (socket_sessionId (getSocket c w)) as [sid|] eqn:Hsock;
    [|intros [= <-]; exact Hinv].
  destruct (sessions_get (Some sid) w) as [s|] eqn:Hget; [|intros [= <-]; exact Hinv].
  destruct (negb _); [intros [= <-]; exact Hinv|].
  destruct (bool_decide _); [intros [= <-]; exact Hinv|].
  pose proof (Hguard sid s Hsock Hget) as Hlobby.
  apply sessions_get_Some in Hget as [_ Hs].
  destruct (Hinv sid s Hs) as [Hl Hsc]. rewrite (Hl Hlobby) in Hsc.
  apply sendQuestion_scores.
  eapply (score_inv_put w _ sid _ Hinv); [reflexivity|reflexivity|].
  cbn. now apply scores_ok_reset.
Qed.

Lemma host_skip_scores (w w' : World) (c : string) :
  countdown_inv w → time_inv w → score_inv w → guarded w (ev_host_skip c) →
  host_skip c w = Some w' → score_inv w'.
Proof.
  intros Hcd Htime Hinv Hguard. unfold host_skip.
  destruct (socket_sessionId (getSocket c w)) as [sid|] eqn:Hsock;
    [|intros [= <-]; exact Hinv].
  destruct (sessions_get (Some sid) w) as [s|] eqn:Hget; [|intros [= <-]; exact Hinv].
  destruct (decide (hostSocketId s = Some c)) as [Hhost | Hhost].
  2:{ rewrite (bool_decide_eq_false_2 _ Hhost). intros [= <-]. exact Hinv. }
  rewrite (bool_decide_eq_true_2 _ Hhost). cbn [negb].
  destruct (Hguard sid s Hsock Hget Hhost) as (h & Htimer & Hh).
  rewrite Htimer. apply sessions_get_Some in Hget as [_ Hs].
  destruct (Hinv sid s Hs) as [Hl Hsc].
  destruct (proj1 Htime sid s Hs) as (Hpos & _ & Hpl).
  assert (Hst : status s ≠ lobby).
  { apply (running_not_lobby w sid s h _ Hcd Hs Hh). cbn. apply String.eqb_refl. }
  apply (endQuestion_scores _ w' sid (set_timer None s)); [| | exact Hst | exact Hpos | exact Hpl].
  - apply (score_inv_put w _ sid (set_timer None s) Hinv); [reflexivity|exact Hl|exact Hsc].
  - cbn. apply lookup_insert_eq.
Qed.

Section Scores.
Context `{CaseFold}.

Lemma player_join_scores (w w' : World) (c sid nm : string) :
  score_inv w → player_join c sid nm w = Some w' → score_inv w'.
Proof.
  intros Hinv. unfold player_join. destruct (sessions_get (Some sid) w) as [s|] eqn:Hget.
  2:{ intros [= <-]. exact Hinv. }
  apply sessions_get_Some in Hget as [_ Hs].
  destruct (Hinv sid s Hs) as [Hl Hsc].
  assert (Hjoined : ∀ ps, scores_ok (currentQuestionIndex s) ps →
                          score_inv (joined c sid s ps w)).
  { intros ps Hps. apply (score_inv_put w _ sid (set_players ps s) Hinv);
      [reflexivity|exact Hl|exact Hps]. }
  destruct (_ && _); [intros [= <-]; exact Hinv|].
  destruct (negb _).
  - destruct (bool_decide _); intros [= <-]; [exact Hinv|].
    apply Hjoined, scores_ok_set; [exact Hsc|]. cbn. lia.
  - destruct (List.find _ (Map_entries _)) as [e|]; [|discriminate].
    cbn [mbind option_bind]. destruct (Map_get _ _) as [pd|] eqn:Hpd; [|discriminate].
    cbn [mbind option_bind]. intros [= <-].
    apply Hjoined, scores_ok_set; [now apply scores_ok_delete|].
    eapply scores_ok_get; eauto.
Qed.

Lemma step_scores (w w' : World) (e : Event) :
  countdown_inv w → time_inv w → score_inv w → guarded w e →
  step w e = Some w' → score_inv w'.
Proof.
  intros Hcd Htime Hinv Hguard. destruct e; cbn [step].
  - now apply host_join_scores.
  - now apply player_join_scores.
  - now apply host_start_scores.
  - now apply player_answer_scores.
  - now apply host_skip_scores.
  - now apply disconnect_scores.
  - now apply fire_scores.
Qed.

Lemma run_scores (es : list Event) (w w' : World) :
  countdown_inv w → time_inv w → score_inv w → guarded_run es w →
  run es w = Some w' → score_inv w'.
Proof.
  revert w. induction es as [|e es IH]; intros w Hcd Htime Hinv Hguard Hrun; cbn in *.
  - injection Hrun as <-. exact Hinv.
  - destruct Hguard as [Hg Hrest].
    destruct (step w e) as [w1|] eqn:Hstep; [|discriminate]. cbn in Hrun.
    apply (IH w1); [eapply step_countdown_inv; eauto | eapply step_time_inv; eauto
                   | eapply step_scores; eauto | now apply Hrest | exact Hrun].
Qed.

Lemma guardedb_sound (w : World) (e : Event) : guardedb w e = true → guarded w e.
Proof.
  destruct e as [c sid|c sid nm|c data|c a|c|c|h]; cbn [guardedb guarded]; try (intros _; exact I).
  - intros Hb sid s Hsock Hget. rewrite Hsock, Hget in Hb. now apply bool_decide_eq_true in Hb.
  - intros Hb sid s Hsock Hget Hhost. rewrite Hsock, Hget in Hb.
    rewrite (bool_decide_eq_true_2 _ Hhost) in Hb.
    destruct (timer s) as [h|]; [|discriminate]. exists h. split; [reflexivity|].
    destruct (tasks w !! h) as [[sid'| |]|]; try discriminate.
    apply String.eqb_eq in Hb. now rewrite Hb.
Qed.

Lemma guarded_runb_sound (es : list Event) (w : World) :
  guarded_runb es w = true → guarded_run es w.
Proof.
  revert w. induction es as [|e es IH]; intros w; cbn [guarded_runb guarded_run]; [trivial|].
  intros [Hg Hrest]%andb_prop. split; [now apply guardedb_sound|].
  intros w' Hstep. rewrite Hstep in Hrest. now apply IH.
Qed.

(** X19.  On a server whose sessions were created and then played with
    start issued from the lobby and skip issued while a question runs, the
    score of every player stays between 0 and 1000 points for each
    question that has been ended, and is 0 as long as the session is in
    the lobby. *)
Theorem scores_stay_bounded (es : list Event) (w w' : World) :
  tasks w = ∅ →
  (∀ sid s, store w !! sid = Some s → ∃ nm qs, s = newSession sid nm qs) →
  guarded_run es w → run es w = Some w' →
  ∀ sid s k p,
    store w' !! sid = Some s → In (k, p) (players s) →
    0 ≤ score p ≤ 1000 * Z.of_nat (currentQuestionIndex s)
    ∧ (status s = lobby → score p = 0).
Proof.
  intros Htasks Hnew Hguard Hrun sid s k p Hs Hin.
  assert (Hinv : score_inv w').
  { apply (run_scores es w w'); auto.
    - now apply countdown_inv_no_tasks.
    - now apply time_inv_fresh.
    - intros sid0 s0 Hs0. destruct (Hnew sid0 s0 Hs0) as (nm & qs & ->).
      split; [reflexivity|constructor]. }
  destruct (Hinv sid s Hs) as [Hl Hsc].
  unfold scores_ok in Hsc. rewrite List.Forall_forall in Hsc.
  pose proof (Hsc (k, p) Hin) as Hb. cbn in Hb. split; [exact Hb|].
  intros E. rewrite (Hl E) in Hb. lia.
Qed.


(** X29.  The clock of a session, for time limits that are whole numbers
    of seconds: the payload of [host:start] is an integer or absent here,
    and so the clock and the answer times are integers.  On a server whose
    sessions were created and then played with start issued from the lobby
    and skip issued while a question runs, the clock of a session stays
    between 0 and its time limit, and so does every recorded answer time;
    and as long as the question timer of a session is active the clock is
    at 1 or above. *)
Theorem clock_within_limit (es : list Event) (w w' : World) :
  tasks w = ∅ →
  (∀ sid s, store w !! sid = Some s → ∃ nm qs, s = newSession sid nm qs) →
  guarded_run es w → run es w = Some w' →
  ∀ sid s, store w' !! sid = Some s →
    0 < TIME_LIMIT s ∧ 0 ≤ timeLeft s ≤ TIME_LIMIT s
    ∧ (∀ k p t, In (k, p) (players s) → answerTime p = Some t → 0 ≤ t ≤ TIME_LIMIT s)
    ∧ (∀ h, tasks w' !! h = Some (question_interval sid) → 1 ≤ timeLeft s).
Proof.
  intros Htasks Hnew Hguard Hrun sid s Hs.
  destruct (run_invariants es w w') as [Hcd Htime]; auto.
  - now apply countdown_inv_no_tasks.
  - now apply time_inv_fresh.
  - destruct (proj1 Htime sid s Hs) as (Hpos & Hleft & Hpl).
    split; [exact Hpos|]. split; [exact Hleft|]. split.
    + intros k p t Hin Ht. unfold times_ok in Hpl. rewrite List.Forall_forall in Hpl.
      exact (Hpl (k, p) Hin t Ht).
    + intros h Hh. exact (proj2 Htime sid h s Hh Hs).
Qed.
End Scores.

Lemma lobbyWorld_fresh :
  tasks lobbyWorld = ∅
  ∧ ∀ sid s, store lobbyWorld !! sid = Some s → ∃ nm qs, s = newSession sid nm qs.
Proof.
  split; [reflexivity|]. intros sid s Hs.
  change (store lobbyWorld)
    with (<["s1"%string := newSession "s1" "Quiz" [q1; q2; q3]]> (∅ : gmap string Session))
    in Hs.
  apply lookup_insert_Some in Hs as [[<- <-]|[_ Hs]]; [eauto|].
  rewrite lookup_empty in Hs. discriminate.
Qed.

Lemma scores_stay_bounded_witness :
  0 ≤ score (mkPlayer "Ann" 950 (Some 1) (Some 9))
    ≤ 1000 * Z.of_nat (currentQuestionIndex (sessionOf "s1" midGame))
  ∧ (status (sessionOf "s1" midGame) = lobby → score (mkPlayer "Ann" 950 (Some 1) (Some 9)) = 0).
Proof.
  apply (scores_stay_bounded
           (opening ++ [ev_host_start "h" (Some 10); ev_timer 0; ev_player_answer "a" 1;
                        ev_host_skip "h"])
           lobbyWorld midGame (proj1 lobbyWorld_fresh) (proj2 lobbyWorld_fresh))
    with (sid := "s1"%string) (k := "a"%string).
  - apply guarded_runb_sound. vm_compute. reflexivity.
  - vm_compute. reflexivity.
  - vm_compute. reflexivity.
  - vm_compute. auto.
Defined.


Lemma clock_within_limit_witness :
  0 ≤ timeLeft (sessionOf "s1" midGame) ≤ TIME_LIMIT (sessionOf "s1" midGame).
Proof.
  apply (clock_within_limit
           (opening ++ [ev_host_start "h" (Some 10); ev_timer 0; ev_player_answer "a" 1;
                        ev_host_skip "h"])
           lobbyWorld midGame (proj1 lobbyWorld_fresh) (proj2 lobbyWorld_fresh))
    with (sid := "s1"%string).
  - apply guarded_runb_sound. vm_compute. reflexivity.
  - vm_compute. reflexivity.
  - vm_compute. reflexivity.
Defined.


(** ** No uncaught exception *)

Lemma task_live_other (w w' : World) (sid : string) (t : Task) :
  isCountdownOf sid t = false →
  (∀ k, k ≠ sid → store w' !! k = store w !! k) →
  task_live w t → task_live w' t.
Proof.
  intros Ht Hother. destruct t as [sid'|sid' n b|id]; cbn in *; [| |trivial].
  - apply String.eqb_neq in Ht. intros (s & Hs & Hlt). exists s.
    split; [|exact Hlt]. now rewrite Hother.
  - apply String.eqb_neq in Ht. intros (s & Hs & Hlt). exists s.
    split; [|exact Hlt]. now rewrite Hother.
Qed.

Lemma task_live_same (w w' : World) (sid : string) (s s1 : Session) (t : Task) :
  store w !! sid = Some s → store w' !! sid = Some s1 →
  questions s1 = questions s → currentQuestionIndex s1 = currentQuestionIndex s →
  isCountdownOf sid t = true →
  task_live w t → task_live w' t.
Proof.
  intros Hs Hs1 Hq Hi Ht. destruct t as [sid'|sid' n b|id]; cbn in *; [| |trivial].
  - apply String.eqb_eq in Ht. subst sid'. intros (s0 & Hs0 & Hlt).
    assert (s0 = s) by congruence. subst s0. exists s1. split; [exact Hs1|].
    now rewrite Hq, Hi.
  - apply String.eqb_eq in Ht. subst sid'. intros (s0 & Hs0 & Hlt).
    assert (s0 = s) by congruence. subst s0. exists s1. split; [exact Hs1|].
    now rewrite Hq, Hi.
Qed.

(** One session object is rewritten, its questions kept.  A task that was
    pending is still served when it is of another session or when the
    index has not moved; a new task is served by the new object. *)
Lemma live_inv_update (w w' : World) (sid : string) (s s1 : Session) :
  live_inv w → store w !! sid = Some s → store w' = <[sid := s1]> (store w) →
  questions s1 = questions s →
  (∀ h t, tasks w' !! h = Some t →
     (tasks w !! h = Some t
      ∧ (isCountdownOf sid t = true → currentQuestionIndex s1 = currentQuestionIndex s))
     ∨ (isCountdownOf sid t = true ∧ task_live w' t)
     ∨ (∃ id, t = cleanup_timeout id)) →
  live_inv w'.
Proof.
  intros [Hq Ht] Hs Hstore Hqs Htasks. split.
  - intros k s0 Hk. rewrite Hstore in Hk. destruct (decide (sid = k)) as [<- | Hne].
    + rewrite lookup_insert_eq in Hk. injection Hk as <-. rewrite Hqs. now apply (Hq sid).
    + rewrite lookup_insert_ne in Hk by exact Hne. now apply (Hq k).
  - intros h t Hh. destruct (Htasks h t Hh) as [[Hold Hidx] | [[_ Hnew] | [id ->]]].
    + pose proof (Ht h t Hold) as Hlive.
      destruct (isCountdownOf sid t) eqn:E.
      * apply (task_live_same w w' sid s s1 t Hs); auto.
        rewrite Hstore. apply lookup_insert_eq.
      * apply (task_live_other w w' sid t E); [|exact Hlive].
        intros k Hk. rewrite Hstore. apply lookup_insert_ne. congruence.
    + exact Hnew.
    + exact I.
Qed.

Lemma live_inv_shrink (w w' : World) :
  live_inv w → store w' = store w →
  (∀ h t, tasks w' !! h = Some t → tasks w !! h = Some t) →
  live_inv w'.
Proof.
  intros [Hq Ht] Hstore Htasks. split.
  - intros k s Hk. rewrite Hstore in Hk. now apply (Hq k).
  - intros h t Hh. pose proof (Ht h t (Htasks h t Hh)) as Hlive.
    destruct t as [sid|sid n b|id]; cbn in *; [| |trivial]; now rewrite Hstore.
Qed.

(** A session object is rewritten, questions and index kept, and no task
    is added. *)
Lemma live_inv_put (w w' : World) (sid : string) (s s1 : Session) :
  live_inv w → store w !! sid = Some s → store w' = <[sid := s1]> (store w) →
  questions s1 = questions s → currentQuestionIndex s1 = currentQuestionIndex s →
  (∀ h t, tasks w' !! h = Some t → tasks w !! h = Some t) →
  live_inv w'.
Proof.
  intros Hinv Hs Hstore Hq Hi Htasks.
  apply (live_inv_update w w' sid s s1 Hinv Hs Hstore Hq).
  intros h t Hh. left. split; [now apply Htasks | intros _; exact Hi].
Qed.

Lemma lookup_added (ts : gmap nat Task) (n h : nat) (t0 t : Task) :
  <[n := t0]> ts !! h = Some t → (h = n ∧ t = t0) ∨ ts !! h = Some t.
Proof.
  intros Hl. apply lookup_insert_Some in Hl as [[-> ->] | [_ Hl]]; auto.
Qed.

Lemma sendQuestion_live (w w' : World) (sid : string) :
  live_inv w → sendQuestion sid w = Some w' → live_inv w'.
Proof.
  intros Hinv Hrun.
  destruct (store w !! sid) as [s|] eqn:Hs.
  2:{ unfold sendQuestion in Hrun. rewrite Hs in Hrun. discriminate. }
  destruct (questions s !! currentQuestionIndex s) as [q|] eqn:Hq.
  2:{ unfold sendQuestion in Hrun. rewrite Hs in Hrun. cbn in Hrun.
      rewrite Hq in Hrun. discriminate. }
  rewrite (sendQuestion_sent w sid s q Hs Hq) in Hrun. injection Hrun as <-.
  apply (live_inv_update w _ sid s (questionSent (next_handle w) s) Hinv Hs);
    [reflexivity | reflexivity |].
  cbn [tasks put_session set_store set_next_handle set_tasks emit].
  intros h t Hh. apply lookup_added in Hh as [[-> ->] | Hold].
  - right. left. split; [cbn; apply String.eqb_refl|].
    cbn. rewrite lookup_insert_eq. eexists. split; [reflexivity|].
    cbn. apply lookup_lt_Some in Hq. exact Hq.
  - left. split; [exact Hold | reflexivity].
Qed.

Lemma endQuestion_live (w w' : World) (sid : string) :
  live_inv w → no_countdown sid (tasks w) → endQuestion sid w = Some w' → live_inv w'.
Proof.
  intros Hinv Hno Hrun.
  destruct (store w !! sid) as [s|] eqn:Hs.
  2:{ unfold endQuestion in Hrun. rewrite Hs in Hrun. discriminate. }
  destruct (questions s !! currentQuestionIndex s) as [q|] eqn:Hq.
  2:{ unfold endQuestion in Hrun. rewrite Hs in Hrun. cbn in Hrun.
      rewrite Hq in Hrun. discriminate. }
  destruct (endQuestion_unfold w sid s q Hs Hq)
    as (w1 & Hrun1 & Hstore & _ & _ & Htasks & _).
  assert (w1 = w') by congruence. subst w1.
  apply (live_inv_update w w' sid s _ Hinv Hs Hstore); [reflexivity|].
  rewrite Htasks. intros h t Hh. apply lookup_added in Hh as [[-> ->] | Hold].
  - right. left. split; [cbn; apply String.eqb_refl|].
    cbn. rewrite Hstore, lookup_insert_eq. eexists. split; [reflexivity|].
    cbn. intros E. apply bool_decide_eq_false in E. lia.
  - left. split; [exact Hold|]. intros E. rewrite (Hno h t Hold) in E. discriminate.
Qed.

Lemma endQuiz_live (w w' : World) (sid : string) :
  live_inv w → endQuiz sid w = Some w' → live_inv w'.
Proof.
  intros Hinv. unfold endQuiz. destruct (store w !! sid) as [s|] eqn:Hs; [|discriminate].
  cbn [mbind option_bind]. intros [= <-].
  apply (live_inv_update w _ sid s (set_status finished s) Hinv Hs);
    [reflexivity | reflexivity |].
  cbn [tasks put_session set_store schedule snd set_next_handle set_tasks emit].
  intros h t Hh. apply lookup_added in Hh as [[-> ->] | Hold].
  - right. right. eauto.
  - left. split; [exact Hold | reflexivity].
Qed.

Lemma lookup_deleted (ts : gmap nat Task) (n h : nat) (t : Task) :
  delete n ts !! h = Some t → ts !! h = Some t.
Proof.
  intros Hl. destruct (decide (n = h)) as [<- | Hne].
  - rewrite lookup_delete_eq in Hl. discriminate.
  - now rewrite lookup_delete_ne in Hl.
Qed.

Lemma fire_live (w w' : World) (h : nat) :
  countdown_inv w → live_inv w → fire h w = Some w' → live_inv w'.
Proof.
  intros Hcd Hinv. unfold fire.
  destruct (tasks w !! h) as [[sid|sid n isLast|id]|] eqn:Hh.
  - unfold question_tick. destruct (store w !! sid) as [s|] eqn:Hs; [|discriminate].
    cbn [mbind option_bind]. cbn [timeLeft set_timeLeft session_id timer].
    destruct (timeLeft s - 1 <=? 0).
    + destruct (proj1 (proj2 (proj2 Hcd)) sid h Hh) as (s0 & Hs0 & Htimer).
      assert (s0 = s) by congruence. subst s0. rewrite Htimer.
      apply endQuestion_live.
      * apply (live_inv_put w _ sid s (set_timer None (set_timeLeft (timeLeft s - 1) s)) Hinv Hs);
          try reflexivity.
        cbn. intros h' t. apply lookup_deleted.
      * cbn. apply (no_countdown_after_clear w sid h _ Hcd Hh). cbn. apply String.eqb_refl.
    + intros [= <-].
      apply (live_inv_put w _ sid s (set_timeLeft (timeLeft s - 1) s) Hinv Hs);
        try reflexivity. intros h' t Hl. exact Hl.
  - unfold countdown_tick. destruct (store w !! sid) as [s|] eqn:Hs; [|discriminate].
    cbn [mbind option_bind]. destruct (n - 1 <? 0).
    + set (w1 := clearInterval (Some h) _).
      assert (Hinv1 : live_inv w1).
      { apply (live_inv_shrink w w1 Hinv); [reflexivity|].
        cbn. intros h' t. apply lookup_deleted. }
      destruct isLast; [apply endQuiz_live, Hinv1|].
      destruct (decide (status s = playing)); [apply sendQuestion_live, Hinv1|].
      intros [= <-]. exact Hinv1.
    + intros [= <-].
      apply (live_inv_update w _ sid s s Hinv Hs); [|reflexivity|].
      * cbn. symmetry. now apply insert_id.
      * cbn [tasks set_tasks emit]. intros h' t Hl.
        apply lookup_added in Hl as [[-> ->] | Hold].
        -- right. left. split; [cbn; apply String.eqb_refl|].
           pose proof (proj2 Hinv h _ Hh) as Hlive. exact Hlive.
        -- left. split; [exact Hold | reflexivity].
  - unfold cleanup_fire. cbn [sessions set_tasks].
    destruct (decide _); intros [= <-];
      (apply (live_inv_shrink w _ Hinv); [reflexivity|]; cbn; intros h' t; apply lookup_deleted).
  - intros [= <-]. exact Hinv.
Qed.

Lemma host_join_live (w w' : World) (c sid : string) :
  live_inv w → host_join c sid w = Some w' → live_inv w'.
Proof.
  intros Hinv. unfold host_join. destruct (sessions_get (Some sid) w) as [s|] eqn:Hget.
  - intros [= <-]. apply sessions_get_Some in Hget as [_ Hs].
    apply (live_inv_put w _ sid s (set_hostSocketId (Some c) s) Hinv Hs); try reflexivity.
    intros h t Hl. exact Hl.
  - intros [= <-]. exact Hinv.
Qed.

Lemma player_answer_live (w w' : World) (c : string) (a : Z) :
  live_inv w → player_answer c a w = Some w' → live_inv w'.
Proof.
  intros Hinv. unfold player_answer.
  destruct (socket_sessionId (getSocket c w)) as [sid|]; [|intros [= <-]; exact Hinv].
  destruct (sessions_get (Some sid) w) as [s|] eqn:Hget; [|intros [= <-]; exact Hinv].
  destruct (negb _); [intros [= <-]; exact Hinv|].
  destruct (Map_get c (players s)) as [p|]; [|intros [= <-]; exact Hinv].
  intros [= <-]. apply sessions_get_Some in Hget as [_ Hs].
  apply (live_inv_put w _ sid s
           (set_players (Map_set c (recordAnswer (timeLeft s) a p) (players s)) s) Hinv Hs);
    try reflexivity.
  intros h t Hl. exact Hl.
Qed.

Lemma disconnect_live (w w' : World) (c : string) :
  live_inv w → disconnect c w = Some w' → live_inv w'.
Proof.
  intros Hinv. unfold disconnect.
  destruct (socket_sessionId (getSocket c w)) as [sid|];
    [|intros [= <-]; apply (live_inv_shrink w _ Hinv); [reflexivity | now intros h t]].
  destruct (sessions_get (Some sid) _) as [s|] eqn:Hget;
    [|intros [= <-]; apply (live_inv_shrink w _ Hinv); [reflexivity | now intros h t]].
  apply sessions_get_Some in Hget as [_ Hs]. cbn in Hs.
  destruct (socket_isHost _); intros [= <-].
  - apply (live_inv_shrink w _ Hinv).
    + cbn. now rewrite store_clearInterval.
    + cbn. intros h t Hl. exact (tasks_clearInterval_sub (timer s) (set_sockets _ w) h t Hl).
  - apply (live_inv_put w _ sid s (set_players (Map_delete c (players s)) s) Hinv Hs);
      try reflexivity.
    intros h t Hl. exact Hl.
Qed.

Lemma host_start_live (w w' : World) (c : string) (data : option Z) :
  countdown_inv w → live_inv w → guarded w (ev_host_start c data) →
  host_start c data w = Some w' → live_inv w'.
Proof.
  intros Hcd Hinv Hguard. unfold host_start.
  destruct (socket_sessionId (getSocket c w)) as [sid|] eqn:Hsock;
    [|intros [= <-]; exact Hinv].
  destruct (sessions_get (Some sid) w) as [s|] eqn:Hget; [|intros [= <-]; exact Hinv].
  destruct (negb _); [intros [= <-]; exact Hinv|].
  destruct (bool_decide _); [intros [= <-]; exact Hinv|].
  pose proof (Hguard sid s Hsock Hget) as Hlobby.
  apply sessions_get_Some in Hget as [_ Hs].
  apply sendQuestion_live.
  eapply (live_inv_update w _ sid s _ Hinv Hs); [reflexivity | reflexivity |].
  cbn [tasks put_session set_store]. intros h t Hh. left. split; [exact Hh|].
  intros E. destruct Hcd as (_ & _ & _ & Hl).
  rewrite (Hl sid s Hs Hlobby h t Hh) in E. discriminate.
Qed.

Lemma host_skip_live (w w' : World) (c : string) :
  countdown_inv w → live_inv w → guarded w (ev_host_skip c) →
  host_skip c w = Some w' → live_inv w'.
Proof.
  intros Hcd Hinv Hguard. unfold host_skip.
  destruct (socket_sessionId (getSocket c w)) as [sid|] eqn:Hsock;
    [|intros [= <-]; exact Hinv].
  destruct (sessions_get (Some sid) w) as [s|] eqn:Hget; [|intros [= <-]; exact Hinv].
  destruct (decide (hostSocketId s = Some c)) as [Hhost | Hhost].
  2:{ rewrite (bool_decide_eq_false_2 _ Hhost). intros [= <-]. exact Hinv. }
  rewrite (bool_decide_eq_true_2 _ Hhost). cbn [negb].
  destruct (Hguard sid s Hsock Hget Hhost) as (h & Htimer & Hh).
  rewrite Htimer. apply sessions_get_Some in Hget as [_ Hs].
  apply endQuestion_live.
  - apply (live_inv_put w _ sid s (set_timer None s) Hinv Hs); try reflexivity.
    cbn. intros h' t. apply lookup_deleted.
  - cbn. apply (no_countdown_after_clear w sid h _ Hcd Hh). cbn. apply String.eqb_refl.
Qed.

Lemma Map_get_key_in {V : Type} (k : string) (v : V) (m : JsMap V) :
  In (k, v) m → is_Some (Map_get k m).
Proof.
  unfold Map_get. induction m as [|[k' v'] m IH]; [intros []|].
  cbn [List.find fst]. destruct (String.eqb_spec k' k) as [-> | Hne]; [eauto|].
  intros [E | Hin]; [congruence | now apply IH].
Qed.

Section NoException.
Context `{CaseFold}.

Lemma player_join_live (w w' : World) (c sid nm : string) :
  live_inv w → player_join c sid nm w = Some w' → live_inv w'.
Proof.
  intros Hinv. unfold player_join. destruct (sessions_get (Some sid) w) as [s|] eqn:Hget.
  2:{ intros [= <-]. exact Hinv. }
  apply sessions_get_Some in Hget as [_ Hs].
  assert (Hjoined : ∀ ps, live_inv (joined c sid s ps w)).
  { intros ps. apply (live_inv_put w _ sid s (set_players ps s) Hinv Hs); try reflexivity.
    intros h t Hl. exact Hl. }
  destruct (_ && _); [intros [= <-]; exact Hinv|].
  destruct (negb _).
  - destruct (bool_decide _); intros [= <-]; [exact Hinv | apply Hjoined].
  - destruct (List.find _ (Map_entries _)) as [e|]; [|discriminate].
    cbn [mbind option_bind]. destruct (Map_get _ _) as [pd|]; [|discriminate].
    cbn [mbind option_bind]. intros [= <-]. apply Hjoined.
Qed.

Lemma step_live (w w' : World) (e : Event) :
  countdown_inv w → live_inv w → guarded w e → step w e = Some w' → live_inv w'.
Proof.
  intros Hcd Hinv Hguard. destruct e; cbn [step].
  - now apply host_join_live.
  - now apply player_join_live.
  - now apply host_start_live.
  - now apply player_answer_live.
  - now apply host_skip_live.
  - now apply disconnect_live.
  - now apply fire_live.
Qed.

Lemma player_join_returns (w : World) (c sid nm : string) :
  is_Some (player_join c sid nm w).
Proof.
  unfold player_join. destruct (sessions_get (Some sid) w) as [s|]; [|eauto].
  rewrite find_values_entries.
  destruct (List.find (λ e, sameName nm (snd e)) (Map_entries (players s))) as [[old p]|] eqn:F.
  - cbn [fmap option_fmap option_map].
    rewrite (bool_decide_eq_true_2 (is_Some (Some p))) by eauto.
    cbn [negb andb]. rewrite Bool.andb_false_r. cbn [mbind option_bind fst].
    apply List.find_some in F as [Hin _]. unfold Map_entries in Hin.
    destruct (Map_get_key_in old p (players s) Hin) as [pd ->]. cbn. eauto.
  - cbn [fmap option_fmap option_map].
    rewrite (bool_decide_eq_false_2 (is_Some None)) by (intros [? ?]; discriminate).
    cbn [negb]. rewrite Bool.andb_true_r.
    destruct (negb _); [eauto|]. destruct (bool_decide _); eauto.
Qed.

Lemma endQuestion_returns (w : World) (sid : string) (s : Session) :
  store w !! sid = Some s → (currentQuestionIndex s < length (questions s))%nat →
  is_Some (endQuestion sid w).
Proof.
  intros Hs Hlt. destruct (lookup_lt_is_Some_2 _ _ Hlt) as [q Hq].
  destruct (endQuestion_unfold w sid s q Hs Hq) as (w' & -> & _). eauto.
Qed.

Lemma sendQuestion_returns (w : World) (sid : string) (s : Session) :
  store w !! sid = Some s → (currentQuestionIndex s < length (questions s))%nat →
  is_Some (sendQuestion sid w).
Proof.
  intros Hs Hlt. destruct (lookup_lt_is_Some_2 _ _ Hlt) as [q Hq].
  rewrite (sendQuestion_sent w sid s q Hs Hq). eauto.
Qed.

Lemma fire_returns (w : World) (h : nat) :
  countdown_inv w → live_inv w → is_Some (fire h w).
Proof.
  intros Hcd Hinv. unfold fire.
  destruct (tasks w !! h) as [[sid|sid n isLast|id]|] eqn:Hh; [| | |eauto].
  - destruct (proj2 Hinv h _ Hh) as (s & Hs & Hlt).
    unfold question_tick. rewrite Hs. cbn [mbind option_bind].
    cbn [timeLeft set_timeLeft session_id timer].
    destruct (timeLeft s - 1 <=? 0); [|eauto].
    eapply endQuestion_returns; [cbn; apply lookup_insert_eq | exact Hlt].
  - destruct (proj2 Hinv h _ Hh) as (s & Hs & Hlt).
    unfold countdown_tick. rewrite Hs. cbn [mbind option_bind].
    destruct (n - 1 <? 0); [|eauto].
    destruct isLast.
    + unfold endQuiz. cbn [store clearInterval set_tasks emit]. rewrite Hs. cbn. eauto.
    + destruct (decide (status s = playing)); [|eauto].
      eapply sendQuestion_returns; [exact Hs | now apply Hlt].
  - unfold cleanup_fire. destruct (decide _); eauto.
Qed.

Lemma step_returns (w : World) (e : Event) :
  countdown_inv w → live_inv w → guarded w e → is_Some (step w e).
Proof.
  intros Hcd Hinv Hguard.
  destruct e as [c sid|c sid nm|c data|c a|c|c|h]; cbn [step].
  - unfold host_join. destruct (sessions_get _ _); eauto.
  - apply player_join_returns.
  - unfold host_start.
    destruct (socket_sessionId (getSocket c w)) as [sid|] eqn:Hsock; [|eauto].
    destruct (sessions_get (Some sid) w) as [s|] eqn:Hget; [|eauto].
    destruct (negb _); [eauto|]. destruct (bool_decide _); [eauto|].
    apply sessions_get_Some in Hget as [_ Hs].
    eapply sendQuestion_returns; [cbn; apply lookup_insert_eq|].
    cbn. pose proof (proj1 Hinv sid s Hs). destruct (questions s); [congruence | cbn; lia].
  - unfold player_answer.
    destruct (socket_sessionId (getSocket c w)) as [sid|]; [|eauto].
    destruct (sessions_get (Some sid) w) as [s|]; [|eauto].
    destruct (negb _); [eauto|]. destruct (Map_get c (players s)); eauto.
  - unfold host_skip.
    destruct (socket_sessionId (getSocket c w)) as [sid|] eqn:Hsock; [|eauto].
    destruct (sessions_get (Some sid) w) as [s|] eqn:Hget; [|eauto].
    destruct (decide (hostSocketId s = Some c)) as [Hhost | Hhost].
    2:{ rewrite (bool_decide_eq_false_2 _ Hhost). cbn. eauto. }
    rewrite (bool_decide_eq_true_2 _ Hhost). cbn [negb].
    destruct (Hguard sid s Hsock Hget Hhost) as (h & Htimer & Hh).
    rewrite Htimer. apply sessions_get_Some in Hget as [_ Hs].
    destruct (proj2 Hinv h _ Hh) as (s0 & Hs0 & Hlt).
    assert (s0 = s) by congruence. subst s0.
    eapply endQuestion_returns; [cbn; apply lookup_insert_eq | exact Hlt].
  - unfold disconnect.
    destruct (socket_sessionId (getSocket c w)) as [sid|]; [|eauto].
    destruct (sessions_get (Some sid) _) as [s|]; [|eauto].
    destruct (socket_isHost _); eauto.
  - now apply fire_returns.
Qed.

Lemma run_returns (es : list Event) (w : World) :
  countdown_inv w → live_inv w → guarded_run es w → is_Some (run es w).
Proof.
  revert w. induction es as [|e es IH]; intros w Hcd Hinv Hguard; cbn in *; [eauto|].
  destruct Hguard as [Hg Hrest].
  destruct (step_returns w e Hcd Hinv Hg) as [w1 Hstep]. rewrite Hstep. cbn.
  apply IH; [eapply step_countdown_inv; eauto | eapply step_live; eauto | now apply Hrest].
Qed.

(** X21.  No handler and no timer callback throws on events of the
    documented types.  The events are those of [Event]: a [player:join]
    carries a session id and a player name that are strings, an answer
    index is an integer, a time limit an integer or absent; the questions
    of a session are records of the documented shape.  On a server whose
    sessions were created with at least one question each and are then
    played with start issued from the lobby and skip issued while a
    question runs, every such event is handled to its end, in whatever
    order the sockets send and the timers come due.  ([player:join] with
    another payload can throw: [player_join_payload].) *)
Theorem no_uncaught_exception (es : list Event) (w : World) :
  tasks w = ∅ →
  (∀ sid s, store w !! sid = Some s → ∃ nm qs, s = newSession sid nm qs ∧ qs ≠ []) →
  guarded_run es w →
  is_Some (run es w).
Proof.
  intros Htasks Hnew Hguard. apply run_returns; [| |exact Hguard].
  - now apply countdown_inv_no_tasks.
  - split.
    + intros sid s Hs. destruct (Hnew sid s Hs) as (nm & qs & -> & Hne). exact Hne.
    + intros h t Hh. rewrite Htasks, lookup_empty in Hh. discriminate.
Qed.

(** X22.  [host:skip] after the last question throws.  Once the index
    has passed the last question, during the final countdown or after the
    quiz has finished, a skip from the host finds no question to end:
    reading [question.correctIndex] of [undefined] is an uncaught
    [TypeError]. *)
Theorem skip_after_last_question_throws (w : World) (c sid : string) (s : Session) :
  socket_sessionId (getSocket c w) = Some sid →
  sessions_get (Some sid) w = Some s →
  hostSocketId s = Some c →
  (length (questions s) ≤ currentQuestionIndex s)%nat →
  host_skip c w = None.
Proof.
  intros Hsock Hget Hhost Hidx. unfold host_skip. rewrite Hsock, Hget.
  rewrite (bool_decide_eq_true_2 _ Hhost). cbn [negb].
  apply sessions_get_Some in Hget as [_ Hs].
  assert (Hq : questions s !! currentQuestionIndex s = None) by now apply lookup_ge_None.
  unfold endQuestion. destruct (timer s) as [h|].
  - cbn [store put_session set_store clearInterval set_tasks]. rewrite lookup_insert_eq.
    cbn [mbind option_bind questions currentQuestionIndex set_timer]. now rewrite Hq.
  - rewrite Hs. cbn [mbind option_bind]. now rewrite Hq.
Qed.
End NoException.

Lemma no_uncaught_exception_witness :
  is_Some (run (opening ++ [ev_host_start "h" (Some 10); ev_timer 0; ev_player_answer "a" 1;
                            ev_host_skip "h"; ev_timer 1; ev_disconnect "b"])
               lobbyWorld).
Proof.
  apply no_uncaught_exception.
  - reflexivity.
  - intros sid s Hs. destruct (proj2 lobbyWorld_fresh sid s Hs) as (nm & qs & E).
    exists nm, qs. split; [exact E|]. intros ->. subst s.
    change (store lobbyWorld)
      with (<["s1"%string := newSession "s1" "Quiz" [q1; q2; q3]]> (∅ : gmap string Session))
      in Hs.
    apply lookup_insert_Some in Hs as [[_ Hs]|[_ Hs]]; [discriminate|].
    rewrite lookup_empty in Hs. discriminate.
  - apply guarded_runb_sound. vm_compute. reflexivity.
Defined.

Lemma skip_after_last_question_throws_witness :
  host_skip "h" (after (opening ++ [ev_host_start "h" None; ev_host_skip "h"]) shortQuizWorld)
  = None.
Proof.
  apply (skip_after_last_question_throws _ "h" "s1"
           (sessionOf "s1" (after (opening ++ [ev_host_start "h" None; ev_host_skip "h"])
                                  shortQuizWorld))).
  - vm_compute. reflexivity.
  - vm_compute. reflexivity.
  - vm_compute. reflexivity.
  - vm_compute. lia.
Defined.

(** ** Sockets that move on *)

Section MovingOn.
Context `{CaseFold}.

(** X23.  A join does not leave the session that the socket was in.  When
    a socket that is a player of one session joins another one as a new
    player, it is attached to the new session only, and its entry stays in
    the players map of the first: its answers go to the new session, its
    disconnect removes it from the new session, and the first session
    keeps the entry, with everything else, as it was. *)
Theorem second_join_leaves_entry (w : World) (c sidA sidB nm : string) (sA sB : Session)
    (p : Player) :
  sidA ≠ sidB →
  sessions_get (Some sidA) w = Some sA → Map_get c (players sA) = Some p →
  sessions_get (Some sidB) w = Some sB → status sB = lobby →
  Forall (λ e, sameName nm (snd e) = false) (players sB) →
  ∃ w1,
    player_join c sidB nm w = Some w1
    ∧ socket_sessionId (getSocket c w1) = Some sidB
    ∧ (∃ w2, disconnect c w1 = Some w2
             ∧ (Map_get c <$> (players <$> sessions_get (Some sidB) w2)) = Some None)
    ∧ ∀ es w3,
        Forall (λ e, e = ev_disconnect c ∨ ∃ a, e = ev_player_answer c a) es →
        run es w1 = Some w3 →
        sessions_get (Some sidA) w3 = Some sA.
Proof.
  intros Hne HgetA Hp HgetB Hlobby Hno.
  pose proof (player_join_no_match w c sidB nm sB HgetB Hno) as Hjoin.
  rewrite decide_True in Hjoin by exact Hlobby.
  rewrite decide_False in Hjoin by now apply no_match_no_collision.
  set (ps := Map_set c (mkPlayer nm 0 None None) (players sB)) in *.
  set (w1 := joined c sidB sB ps w) in *.
  assert (HinB : sidB ∈ sessions w) by (apply sessions_get_Some in HgetB; tauto).
  destruct (joined_session c sidB sB ps w HinB) as (HgetB1 & Hsock1 & _).
  fold w1 in HgetB1, Hsock1.
  assert (HgetA1 : sessions_get (Some sidA) w1 = Some sA).
  { apply sessions_get_Some in HgetA as [Hin Hs]. apply sessions_get_Some.
    split; [exact Hin|]. cbn. now rewrite lookup_insert_ne by congruence. }
  assert (Hsid1 : getSocket c w1 = mkSocket (Some sidB) false).
  { unfold getSocket. now rewrite Hsock1. }
  exists w1. split; [exact Hjoin|]. split; [now rewrite Hsid1|]. split.
  { unfold disconnect. rewrite Hsid1. cbn [socket_sessionId socket_isHost].
    assert (HgetB1' : sessions_get (Some sidB) (set_sockets (delete c (sockets w1)) w1)
                      = Some (set_players ps sB)) by exact HgetB1.
    rewrite HgetB1'. eexists. split; [reflexivity|].
    match goal with
    | |- context [sessions_get (Some sidB) ?wx] =>
        assert (HgetB2 : sessions_get (Some sidB) wx
                         = Some (set_players (Map_delete c ps) (set_players ps sB)))
          by exact (sessions_get_put _ sidB _ _ HgetB1');
        rewrite HgetB2
    end.
    change (Some (Map_get c (Map_delete c ps)) = Some None).
    now rewrite Map_get_delete_eq. }
  assert (Hatt : socket_sessionId (getSocket c w1) = Some sidB
                 ∨ socket_sessionId (getSocket c w1) = None) by (left; now rewrite Hsid1).
  clearbody w1. clear -Hne HgetA1 Hatt.
  intros es. revert w1 HgetA1 Hatt.
  induction es as [|e es IH]; intros w1 HgetA1 Hatt w3 Hall Hrun.
  - injection Hrun as <-. exact HgetA1.
  - apply Forall_cons in Hall as [He Hall]. cbn [run] in Hrun.
    destruct (step w1 e) as [w2|] eqn:Hstep; [|discriminate]. cbn in Hrun.
    assert (Hev : eventSession w1 e ≠ Some sidA).
    { destruct He as [-> | [a ->]]; cbn; destruct Hatt as [-> | ->]; congruence. }
    destruct (step_outside w1 w2 e Hstep sidA ltac:(congruence)) as [Hreg Hst].
    apply (IH w2); [| |exact Hall|exact Hrun].
    + apply sessions_get_Some in HgetA1 as [Hin Hs]. apply sessions_get_Some.
      split; [now apply Hreg | now rewrite Hst].
    + destruct He as [-> | [a ->]]; cbn [step] in Hstep.
      * right. unfold getSocket.
        assert (Hgone : sockets w2 !! c = None); [|now rewrite Hgone].
        unfold disconnect in Hstep.
        destruct (socket_sessionId (getSocket c w1)) as [sid|];
          [|injection Hstep as <-; cbn; apply lookup_delete_eq].
        destruct (sessions_get (Some sid) _) as [s|];
          [|injection Hstep as <-; cbn; apply lookup_delete_eq].
        destruct (socket_isHost _); injection Hstep as <-; cbn.
        -- destruct (timer s); cbn; apply lookup_delete_eq.
        -- apply lookup_delete_eq.
      * destruct (player_answer_frame w1 w2 c a Hstep) as (_ & Hsockets & _).
        unfold getSocket in *. now rewrite Hsockets.
Qed.

(** X24.  A join under the name of a player takes the player's record
    over, whoever sends it.  The socket that held the record is not told
    and stays attached to the session, but it is no longer a key of the
    players map: the answers it submits afterwards are dropped. *)
Theorem reconnect_displaces_socket (w : World) (c sid nm : string) (s : Session) :
  sessions_get (Some sid) w = Some s → Map_wf (players s) →
  Exists (λ e, sameName nm (snd e) = true) (players s) →
  ∃ old p w',
    In (old, p) (players s) ∧ sameName nm p = true
    ∧ player_join c sid nm w = Some w'
    ∧ (Map_get c <$> (players <$> sessions_get (Some sid) w')) = Some (Some p)
    ∧ (old ≠ c →
       getSocket old w' = getSocket old w
       ∧ (Map_get old <$> (players <$> sessions_get (Some sid) w')) = Some None
       ∧ (socket_sessionId (getSocket old w) = Some sid →
          ∀ a, player_answer old a w' = Some w')).
Proof.
  intros Hget Hwf Hex.
  destruct (player_join_reconnect w c sid nm s Hget Hwf Hex) as (old & p & Hin & Hsame & Hjoin).
  set (ps := Map_set c p (Map_delete old (players s))) in *.
  assert (Hreg : sid ∈ sessions w) by (apply sessions_get_Some in Hget; tauto).
  destruct (joined_session c sid s ps w Hreg) as (Hget' & _ & _).
  exists old, p, (joined c sid s ps w).
  split; [exact Hin|]. split; [exact Hsame|]. split; [exact Hjoin|].
  split; [rewrite Hget'; change (Some (Map_get c ps) = Some (Some p)); unfold ps;
          now rewrite Map_get_set_eq|].
  intros Hne.
  assert (Hsock : getSocket old (joined c sid s ps w) = getSocket old w).
  { unfold joined. change (getSocket old (emit ?d ?m ?w0)) with (getSocket old w0).
    rewrite getSocket_bind, decide_False by congruence. reflexivity. }
  assert (Hold : Map_get old ps = None).
  { unfold ps. rewrite Map_get_set_ne by congruence. apply Map_get_delete_eq. }
  split; [exact Hsock|].
  split; [rewrite Hget'; change (Some (Map_get old ps) = Some None); now rewrite Hold|].
  intros Hatt a. apply player_answer_ignored.
  intros sid' s' Hs' Hg'. rewrite Hsock, Hatt in Hs'. injection Hs' as <-.
  rewrite Hget' in Hg'. injection Hg' as <-. right. exact Hold.
Qed.
End MovingOn.

(** X25.  A socket that has not joined anything.  Its [host:start] is
    answered "Not authorized"; its [player:answer], [host:skip] and
    [disconnect] are ignored: the server state stays as it is. *)
Theorem unattached_socket_is_ignored (w : World) (c : string) :
  sockets w !! c = None →
  (∀ data, host_start c data w = Some (emit (socket_emit c) (error Not_authorized) w))
  ∧ (∀ a, player_answer c a w = Some w)
  ∧ host_skip c w = Some w
  ∧ ∃ w', disconnect c w = Some w'
          ∧ sessions w' = sessions w ∧ store w' = store w ∧ sockets w' = sockets w
          ∧ tasks w' = tasks w ∧ emitted w' = emitted w.
Proof.
  intros Hc.
  assert (Hsock : socket_sessionId (getSocket c w) = None)
    by (unfold getSocket; now rewrite Hc).
  split; [intros data; unfold host_start; now rewrite Hsock|].
  split; [intros a; unfold player_answer; now rewrite Hsock|].
  split; [unfold host_skip; now rewrite Hsock|].
  unfold disconnect. rewrite Hsock. eexists. split; [reflexivity|].
  cbn. repeat split. now apply delete_id.
Qed.

Lemma second_join_leaves_entry_witness :
  ∃ w1 w3,
    player_join "a" "s2" "Ann" (createSession "s2" "Other" [q2] readyWorld) = Some w1
    ∧ run [ev_player_answer "a" 1; ev_disconnect "a"] w1 = Some w3
    ∧ (players <$> sessions_get (Some "s1"%string) w3)
      = Some [("a", mkPlayer "Ann" 0 None None); ("b", mkPlayer "Bob" 0 None None)]%string.
Proof.
  destruct (second_join_leaves_entry (createSession "s2" "Other" [q2] readyWorld)
              "a" "s1" "s2" "Ann" (sessionOf "s1" readyWorld) (newSession "s2" "Other" [q2])
              (mkPlayer "Ann" 0 None None))
    as (w1 & H1 & _ & _ & H3).
  - discriminate.
  - vm_compute. reflexivity.
  - vm_compute. reflexivity.
  - vm_compute. reflexivity.
  - reflexivity.
  - constructor.
  - destruct (run [ev_player_answer "a" 1; ev_disconnect "a"] w1) as [w3|] eqn:Hrun.
    + exists w1, w3. split; [exact H1|]. split; [exact Hrun|].
      rewrite (H3 [ev_player_answer "a" 1; ev_disconnect "a"] w3); [vm_compute; reflexivity| |exact Hrun].
      constructor; [right; eauto | constructor; [left; reflexivity | constructor]].
    + exfalso. vm_compute in H1. injection H1 as <-. vm_compute in Hrun. discriminate.
Defined.

Lemma reconnect_displaces_socket_witness :
  ∃ w', player_join "x" "s1" "ann" startedWorld = Some w'
        ∧ player_answer "a" 1 w' = Some w'.
Proof.
  destruct (reconnect_displaces_socket startedWorld "x" "s1" "ann" (sessionOf "s1" startedWorld))
    as (old & p & w' & Hin & Hsame & Hjoin & _ & Hold).
  - vm_compute. reflexivity.
  - refine (bool_decide_unpack _ _). vm_compute. exact I.
  - refine (bool_decide_unpack _ _). vm_compute. exact I.
  - exists w'. split; [exact Hjoin|].
    assert (E : old = "a"%string).
    { vm_compute in Hin. destruct Hin as [Hin|[Hin|[]]]; injection Hin as <- <-;
        [reflexivity|]. vm_compute in Hsame. discriminate. }
    subst old. apply Hold; [discriminate|]. vm_compute. reflexivity.
Defined.

Lemma unattached_socket_is_ignored_witness :
  host_start "z" None readyWorld
  = Some (emit (socket_emit "z") (error Not_authorized) readyWorld).
Proof.
  apply (unattached_socket_is_ignored readyWorld "z"). vm_compute. reflexivity.
Defined.

(** ** Answers, names and ties *)



Lemma roster_app (m1 m2 : JsMap Player) : roster (m1 ++ m2) = roster m1 ++ roster m2.
Proof. unfold roster, Map_values. now rewrite !List.map_app. Qed.

Section AnswersNamesTies.
Context `{CaseFold}.


(** X27.  [player:join] never answers with the name-taken message.  A
    name that is the name of a player, letter case apart, makes the join a
    reconnect, so the duplicate check that follows for new players finds
    nothing: every join that returns sends exactly one message, which is
    "Session not found", "Quiz has already started" or the new roster. *)
Theorem name_taken_is_never_sent (w w' : World) (c sid nm : string) :
  player_join c sid nm w = Some w' →
  ∃ d m, emitted w' = emitted w ++ [(d, m)]
         ∧ m ≠ error Name_already_taken
         ∧ (m = error Session_not_found ∨ m = error Quiz_has_already_started
            ∨ ∃ quizName ps, m = lobby_players quizName ps).
Proof.
  unfold player_join. destruct (sessions_get (Some sid) w) as [s|].
  2:{ intros [= <-]. eexists _, _. split; [reflexivity|]. split; [discriminate|auto]. }
  destruct (List.find (sameName nm) (Map_values (players s))) as [p0|] eqn:F.
  - rewrite (bool_decide_eq_true_2 (is_Some (Some p0))) by eauto.
    cbn [negb andb]. rewrite Bool.andb_false_r.
    destruct (List.find _ (Map_entries _)) as [e|]; [|discriminate].
    cbn [mbind option_bind]. destruct (Map_get _ _) as [pd|]; [|discriminate].
    cbn [mbind option_bind]. intros [= <-].
    eexists _, _. split; [reflexivity|]. split; [discriminate|]. right. right. eauto.
  - rewrite (bool_decide_eq_false_2 (is_Some None)) by (intros [? ?]; discriminate).
    cbn [negb]. rewrite Bool.andb_true_r.
    destruct (negb _).
    + intros [= <-]. eexists _, _. split; [reflexivity|]. split; [discriminate|auto].
    + rewrite bool_decide_eq_false_2.
      * intros [= <-]. eexists _, _. split; [reflexivity|]. split; [discriminate|].
        right. right. eauto.
      * apply no_match_no_collision. rewrite find_values_entries in F.
        destruct (List.find _ (Map_entries _)) eqn:F'; [discriminate|].
        now apply find_None_Forall in F'.
Qed.
End AnswersNamesTies.

(** X28.  A reconnect costs the place in a tie.  [player:join] puts the
    record of a reconnecting player back under the new socket id, which is
    a new key and therefore the last entry of the players map; in the
    final standings, sorted by score with equal scores in map order, the
    player then comes after every other player of the same score. *)
Theorem reconnect_goes_last_in_ties (m : JsMap Player) (old c : string) (p : Player) (v : Z) :
  Map_get c (Map_delete old m) = None →
  Map_set c p (Map_delete old m) = Map_delete old m ++ [(c, p)]
  ∧ List.filter (λ r, roster_score r =? v) (finalStandings (Map_set c p (Map_delete old m)))
    = List.filter (λ r, roster_score r =? v) (finalStandings (Map_delete old m))
      ++ (if score p =? v then [mkRoster (name p) (score p)] else []).
Proof.
  intros Hnew. pose proof (reconnect_moves_last old c p m Hnew) as Hlast.
  split; [exact Hlast|]. unfold finalStandings.
  rewrite !(Array_sort_stable roster_score), Hlast, roster_app, List.filter_app.
  reflexivity.
Qed.


Lemma name_taken_is_never_sent_witness :
  ∃ w' d m, player_join "c" "s1" "BOB" readyWorld = Some w'
            ∧ emitted w' = emitted readyWorld ++ [(d, m)]
            ∧ m ≠ error Name_already_taken.
Proof.
  destruct (player_join "c" "s1" "BOB" readyWorld) as [w'|] eqn:Hjoin;
    [|vm_compute in Hjoin; discriminate].
  destruct (name_taken_is_never_sent readyWorld w' "c" "s1" "BOB" Hjoin)
    as (d & m & Hem & Hm & _).
  exists w', d, m. auto.
Defined.

Lemma reconnect_goes_last_in_ties_witness :
  List.filter (λ r, roster_score r =? 900)
    (finalStandings (Map_set "a2" (mkPlayer "Ann" 900 None None)
                       (Map_delete "a" (players (sessionOf "s1" finalWorld)))))
  = [mkRoster "Cy" 900; mkRoster "Ann" 900].
Proof.
  rewrite (proj2 (reconnect_goes_last_in_ties (players (sessionOf "s1" finalWorld)) "a" "a2"
                    (mkPlayer "Ann" 900 None None) 900 ltac:(vm_compute; reflexivity))).
  vm_compute. reflexivity.
Defined.

(** ** [player:join] with any payload *)

Lemma find_throwing_total {A : Type} (f : A → bool) (l : list A) :
  find_throwing (λ x, Some (f x)) l = Some (List.find f l).
Proof.
  induction l as [|x l IH]; [reflexivity|]. cbn. destruct (f x); [reflexivity|exact IH].
Qed.

Lemma find_throwing_throws {A : Type} (f : A → option bool) (l : list A) :
  (∀ x, f x = None) → l ≠ [] → find_throwing f l = None.
Proof.
  intros Hf Hl. destruct l as [|x l]; [contradiction|]. cbn. now rewrite Hf.
Qed.

Section JoinPayloadFacts.
Context `{CaseFold}.

Lemma find_sameName_of (nm : string) (l : list Player) :
  find_throwing (sameName_of (Some (Jstr nm))) l = Some (List.find (sameName nm) l).
Proof. exact (find_throwing_total (sameName nm) l). Qed.

Lemma find_entry_sameName_of (nm : string) (l : list (string * Player)) :
  find_throwing (λ e, sameName_of (Some (Jstr nm)) (snd e)) l
  = Some (List.find (λ e, sameName nm (snd e)) l).
Proof. exact (find_throwing_total (λ e, sameName nm (snd e)) l). Qed.

Lemma toLowerCase_of_throws (v : JsValue) :
  (v ≫= asString) = None → toLowerCase_of v = None.
Proof. destruct v as [[]|]; cbn; congruence. Qed.

(** X30.  [player:join] on the payload as it arrives.  With a payload
    whose [sessionId] and [playerName] are strings the handler is
    [player_join].  Without a payload, or with [null], the destructuring
    throws.  With a [playerName] that is not a string (absent, a number,
    ...) the handler answers 'Session not found' when the session id names
    no session, answers 'Quiz has already started' when the session has
    left the lobby and has no players, and throws a [TypeError] in every
    other case: in the lobby, and whenever the session has a player. *)
Theorem player_join_payload_outcomes (c : string) (payload : JsValue) (w : World) :
  (∀ data sid nm,
     payload = Some data →
     prop "sessionId" data = Some (Some (Jstr sid)) →
     prop "playerName" data = Some (Some (Jstr nm)) →
     player_join_payload c payload w = player_join c sid nm w)
  ∧ (payload = None ∨ payload = Some Jnull → player_join_payload c payload w = None)
  ∧ (∀ data sessionId playerName,
       payload = Some data →
       prop "sessionId" data = Some sessionId →
       prop "playerName" data = Some playerName →
       (playerName ≫= asString) = None →
       match sessions_get (sessionId ≫= asString) w with
       | None =>
           player_join_payload c payload w
           = Some (emit (socket_emit c) (error Session_not_found) w)
       | Some s =>
           (players s = [] → status s ≠ lobby →
            player_join_payload c payload w
            = Some (emit (socket_emit c) (error Quiz_has_already_started) w))
           ∧ (players s ≠ [] ∨ status s = lobby → player_join_payload c payload w = None)
       end).
Proof.
  split; [|split].
  - intros data sid nm -> Hsid Hnm. unfold player_join_payload, player_join.
    cbn [mbind option_bind]. rewrite Hsid, Hnm. cbn [mbind option_bind asString].
    destruct (sessions_get (Some sid) w) as [s|]; [|reflexivity].
    rewrite find_sameName_of. cbn [mbind option_bind].
    destruct (negb (bool_decide (status s = lobby))
              && negb (bool_decide (is_Some (List.find (sameName nm) (Map_values (players s))))));
      [reflexivity|].
    destruct (negb (bool_decide (is_Some (List.find (sameName nm) (Map_values (players s))))));
      [reflexivity|].
    rewrite find_entry_sameName_of. reflexivity.
  - intros [-> | ->]; reflexivity.
  - intros data sessionId playerName -> Hsid Hnm Hname.
    unfold player_join_payload. cbn [mbind option_bind]. rewrite Hsid, Hnm.
    cbn [mbind option_bind].
    pose proof (toLowerCase_of_throws playerName Hname) as Hlow.
    destruct (option_bind _ _ asString sessionId) as [sid|] eqn:Esid.
    2:{ change (sessionId ≫= asString) with (option_bind _ _ asString sessionId).
        rewrite Esid. reflexivity. }
    change (sessionId ≫= asString) with (option_bind _ _ asString sessionId).
    rewrite Esid.
    destruct (sessions_get (Some sid) w) as [s|]; [|reflexivity].
    assert (Hthrow : ∀ p, sameName_of playerName p = None).
    { intros p. unfold sameName_of. now rewrite Hlow. }
    split.
    + intros Hnone Hst. unfold Map_values. rewrite Hnone. cbn [List.map find_throwing mbind option_bind].
      rewrite bool_decide_eq_false_2 by exact Hst.
      rewrite (bool_decide_eq_false_2 (is_Some None)) by (intros [? [=]]). reflexivity.
    + intros [Hsome | Hlobby].
      * rewrite (find_throwing_throws _ _ Hthrow); [reflexivity|].
        unfold Map_values. destruct (players s); [contradiction|discriminate].
      * destruct (players s) as [|e ps] eqn:Eps.
        -- unfold Map_values. cbn [List.map find_throwing mbind option_bind].
           rewrite (bool_decide_eq_true_2 _ Hlobby).
           rewrite (bool_decide_eq_false_2 (is_Some None)) by (intros [? [=]]).
           cbn [negb andb]. rewrite Hlow. reflexivity.
        -- rewrite (find_throwing_throws _ _ Hthrow); [reflexivity|].
           unfold Map_values. discriminate.
Qed.
End JoinPayloadFacts.

Lemma player_join_payload_outcomes_witness :
  player_join_payload "a" (Some annPayload) lobbyWorld = player_join "a" "s1" "Ann" lobbyWorld
  ∧ player_join_payload "a" (Some noName) lobbyWorld = None
  ∧ player_join_payload "a" (Some numberName) readyWorld = None.
Proof.
  destruct (player_join_payload_outcomes "a" (Some annPayload) lobbyWorld) as (Htyped & _).
  destruct (player_join_payload_outcomes "a" (Some noName) lobbyWorld) as (_ & _ & Hno).
  destruct (player_join_payload_outcomes "a" (Some numberName) readyWorld) as (_ & _ & Hnum).
  split; [|split].
  - apply (Htyped annPayload "s1"%string "Ann"%string); reflexivity.
  - specialize (Hno noName (Some (Jstr "s1")) None eq_refl eq_refl eq_refl eq_refl).
    apply Hno. right. reflexivity.
  - specialize (Hnum numberName (Some (Jstr "s1")) (Some (Jnum 7)) eq_refl eq_refl eq_refl eq_refl).
    apply Hnum. left. vm_compute. discriminate.
Defined.
